(** * Voice-Message-Generator: a shallow embedding and its verified properties

    The development follows the repository file by file:
    - [types.ts]                      the records and enumerations;
    - [services/geminiService.ts]     [sanitize], [parseSafeJSON],
                                      [processAudioResearch], [generateSpeech],
                                      [decodeAudioData];
    - [components/OutreachForm.tsx]   the form controller: [validateFields],
                                      [handleGenerate], [updateField],
                                      [estimatedDuration], [durationStatus],
                                      [handleSaveToLibrary];
    - [components/LibraryView.tsx]    [loadScripts], [handleDelete];
    - [App.tsx]                       the persisted tab and style reference.

    The second part adds the prompt of [generateVoiceNote], the play buttons
    ([handlePlayTTS], [handlePlayVoice]), the search box of the library
    ([filteredScripts]) and [components/TemplateManager.tsx], with their
    properties after those of the first part.

    JavaScript strings are sequences of UTF-16 code units, [localStorage] is a
    finite map from strings to strings, React state is threaded explicitly
    through the handlers, and an [async] function is split at its [await]
    into the synchronous prefix (which may issue a backend request) and the
    continuation that runs when the request settles. *)

From Stdlib Require Import ZArith QArith Qround DecimalString.
From Stdlib Require Import Strings.String Strings.Ascii Strings.Byte.
From stdpp Require Import gmap list.

(** ** JavaScript strings *)

Module JS.

(** A string is the list of its UTF-16 code units; [length] is the JavaScript
    [.length]. *)
Abbreviation js_string := (list N).

(** The string written as an ASCII literal in the source. *)
Definition lit (s : string) : js_string :=
  List.map N_of_ascii (list_ascii_of_string s).

(** [WhiteSpace] and [LineTerminator] of ECMAScript: the code units matched by
    the regular-expression class [\s] and removed by [String.prototype.trim]. *)
Definition is_whitespace (c : N) : bool :=
  ((9 <=? c) && (c <=? 13) || (c =? 32) || (c =? 160) || (c =? 5760)
   || (8192 <=? c) && (c <=? 8202) || (c =? 8232) || (c =? 8233)
   || (c =? 8239) || (c =? 8287) || (c =? 12288) || (c =? 65279))%N.

(** The code units that [.] does not match (no [s] flag): LF, CR, LS, PS. *)
Definition is_line_terminator (c : N) : bool :=
  ((c =? 10) || (c =? 13) || (c =? 8232) || (c =? 8233))%N.

Fixpoint trimStart (s : js_string) : js_string :=
  match s with
  | [] => []
  | c :: r => if is_whitespace c then trimStart r else s
  end.

Fixpoint trimEnd (s : js_string) : js_string :=
  match s with
  | [] => []
  | c :: r =>
      match trimEnd r with
      | [] => if is_whitespace c then [] else [c]
      | t => c :: t
      end
  end.

(** [s.trim()] *)
Definition trim (s : js_string) : js_string := trimEnd (trimStart s).

(** [s.split(/\s+/)]: the pieces between the maximal runs of white space.
    [in_sep] tells that the previous unit was white space, [cur] is the piece
    being read, reversed. An empty string gives the single piece [""]; white
    space at either end gives an empty piece there. *)
Fixpoint split_ws_from (in_sep : bool) (cur : js_string) (s : js_string)
  : list js_string :=
  match s with
  | [] => [rev cur]
  | c :: r =>
      if is_whitespace c then
        if in_sep then split_ws_from true cur r
        else rev cur :: split_ws_from true [] r
      else split_ws_from false (c :: cur) r
  end.

Definition split_ws (s : js_string) : list js_string := split_ws_from false [] s.

(** The number of words of a text, as the specification counts them: the
    maximal runs of units that are not white space. *)
Fixpoint count_words_from (in_word : bool) (s : js_string) : nat :=
  match s with
  | [] => 0%nat
  | c :: r =>
      if is_whitespace c then count_words_from false r
      else ((if in_word then 0 else 1) + count_words_from true r)%nat
  end.

Definition count_words (s : js_string) : nat := count_words_from false s.

(** [s.replace(/\[.*?\]/g, '')]: at each [[] the lazy [.*?] extends one unit
    at a time, stops at the first []], and gives up at a line terminator or at
    the end of the string; a match is dropped and scanning resumes after it,
    a failed attempt keeps the [[] and resumes at the next unit. *)
Fixpoint strip_markers (s : js_string) : js_string :=
  match s with
  | [] => []
  | c :: r =>
      if (c =? 91)%N then
        match
          (fix lazy_dots (t : js_string) : option js_string :=
             match t with
             | [] => None
             | d :: t' =>
                 if (d =? 93)%N then Some (strip_markers t')
                 else if is_line_terminator d then None
                 else lazy_dots t'
             end) r
        with
        | Some out => out
        | None => c :: strip_markers r
        end
      else c :: strip_markers r
  end.

(** Where the marker opened just before [t] ends: the text after its closing
    bracket, if one comes before any line terminator. *)
Fixpoint marker_rest (t : js_string) : option js_string :=
  match t with
  | [] => None
  | d :: t' =>
      if (d =? 93)%N then Some t'
      else if is_line_terminator d then None
      else marker_rest t'
  end.

(** [String.prototype.toLowerCase] on the ASCII letters. The program applies
    it to the names of the form fields and to the tone, which are ASCII; code
    units outside [A-Z] are returned as they are. *)
Definition toLowerCase (s : js_string) : js_string :=
  List.map (fun c => if ((65 <=? c) && (c <=? 90))%N then (c + 32)%N else c) s.

(** [Math.round] on an exact rational: the nearest integer, halves upwards. *)
Definition Math_round (x : Q) : Z := Qfloor (x + (1 # 2)).

(** [s.replace(/[<>]/g, '')] *)
Definition strip_angle_brackets (s : js_string) : js_string :=
  List.filter (fun c => negb ((c =? 60) || (c =? 62))%N) s.

(** [field.replace(/([A-Z])/g, ' $1')]: a space before every capital. *)
Fixpoint space_capitals (s : js_string) : js_string :=
  match s with
  | [] => []
  | c :: r =>
      if ((65 <=? c) && (c <=? 90))%N then 32%N :: c :: space_capitals r
      else c :: space_capitals r
  end.

(** One unit of [s] against an ASCII letter under the [i] flag (no [u] flag):
    only the two ASCII cases of the letter match it. *)
Definition unit_matches_ci (lower : N) (c : N) : bool :=
  ((c =? lower) || (c =? lower - 32))%N.

(** Whether [s] starts with three backquotes, and whether [json] follows them
    in any letter case. *)
Definition starts_with_fence (s : js_string) : bool :=
  match s with
  | 96 :: 96 :: 96 :: _ => true
  | _ => false
  end%N.

Definition starts_with_json_fence (s : js_string) : bool :=
  match s with
  | 96 :: 96 :: 96 :: j :: s' :: o :: n :: _ =>
      unit_matches_ci 106 j && unit_matches_ci 115 s'
      && unit_matches_ci 111 o && unit_matches_ci 110 n
  | _ => false
  end%N.

(** [text.replace(/```json|```/gi, '')]: [skip] counts the units of the match
    in progress that are still to be dropped. *)
Fixpoint strip_fences_from (skip : nat) (s : js_string) : js_string :=
  match s with
  | [] => []
  | c :: r =>
      match skip with
      | S k => strip_fences_from k r
      | O =>
          if starts_with_json_fence s then strip_fences_from 6 r
          else if starts_with_fence s then strip_fences_from 2 r
          else c :: strip_fences_from 0 r
      end
  end.

Definition strip_fences (s : js_string) : js_string := strip_fences_from 0 s.

(** [n.toString()] for an integer [n]: its decimal digits. *)
Definition Number_toString (n : Z) : js_string :=
  lit (DecimalString.NilZero.string_of_int (Z.to_int n)).

(** The truth value of a string: only the empty string is falsy. *)
Definition truthy (s : js_string) : bool :=
  match s with [] => false | _ => true end.

(** [a || b] on strings. *)
Definition or_else (a b : js_string) : js_string := if truthy a then a else b.

(** [a || b] when [a] may also be [undefined]. *)
Definition or_default (a : option js_string) (b : js_string) : js_string :=
  match a with
  | Some s => or_else s b
  | None => b
  end.

(** What a function call yields: the value it returns, or the message of the
    [Error] it throws. A rejected promise is [Thrown] once awaited. *)
Inductive outcome (A : Type) : Type :=
  | Returned (a : A)
  | Thrown (message : js_string).
Arguments Returned {A} a.
Arguments Thrown {A} message.

#[export] Instance outcome_ret : MRet outcome := fun A a => Returned a.
#[export] Instance outcome_bind : MBind outcome := fun A B k m =>
  match m with
  | Returned a => k a
  | Thrown e => Thrown e
  end.

(** [try { body } catch (e) { handler(e) }] *)
Definition try_catch {A} (body : outcome A) (handler : js_string -> outcome A)
  : outcome A :=
  match body with
  | Returned a => Returned a
  | Thrown e => handler e
  end.

(** [JSON.parse] read at the type [A] the program uses its result at; [None]
    is the [SyntaxError] it throws on a text that is not JSON. *)
Class JSONParser (A : Type) := JSON_parse : js_string -> option A.

(** [JSON.stringify] with the two facts about the built-in pair that the
    program relies on: a serialised object or array is never the empty text,
    and parsing it gives the value back. *)
Class JSONCodec (A : Type) `{JSONParser A} := {
  JSON_stringify : A -> js_string;
  JSON_stringify_truthy : forall a, truthy (JSON_stringify a) = true;
  JSON_parse_stringify : forall a, JSON_parse (JSON_stringify a) = Some a
}.

(** The empty array is written [[]]. *)
Class JSONEmptyArray (A : Type) `{JSONParser (list A)} :=
  JSON_parse_empty_array : JSON_parse (lit "[]") = Some (@nil A).

(** [localStorage]: a finite map from keys to texts. *)
Abbreviation Storage := (gmap (list N) (list N)).

Definition getItem (key : js_string) (store : Storage) : option js_string :=
  store !! key.
Definition setItem (key value : js_string) (store : Storage) : Storage :=
  <[key := value]> store.
Definition removeItem (key : js_string) (store : Storage) : Storage :=
  delete key store.

(** The names every object literal inherits from [Object.prototype]
    (ECMAScript, with its annex B); each is bound to a function or object,
    hence truthy. *)
Definition Object_prototype_names : list js_string :=
  [ lit "constructor"; lit "hasOwnProperty"; lit "isPrototypeOf";
    lit "propertyIsEnumerable"; lit "toLocaleString"; lit "toString";
    lit "valueOf"; lit "__proto__"; lit "__defineGetter__";
    lit "__defineSetter__"; lit "__lookupGetter__"; lit "__lookupSetter__" ].

(** A value read out of an object literal of strings: one of its own strings,
    or a built-in inherited under the given name. *)
Inductive js_value :=
  | Str (s : js_string)
  | Builtin (name : js_string).

(** [obj[key]] for an object literal with the own properties [own]:
    [None] is [undefined]. *)
Definition get_property (own : gmap (list N) (list N)) (key : js_string)
  : option js_value :=
  match own !! key with
  | Some v => Some (Str v)
  | None =>
      if bool_decide (key ∈ Object_prototype_names) then Some (Builtin key)
      else None
  end.

(** [v || fallback] for such a value. *)
Definition value_or (v : option js_value) (fallback : js_string) : js_value :=
  match v with
  | Some (Str s) => Str (or_else s fallback)
  | Some (Builtin name) => Builtin name
  | None => Str fallback
  end.

End JS.
Export JS.

(** ** types.ts *)

Record CustomTemplate := {
  tpl_id : js_string;
  tpl_name : js_string;
  tpl_content : js_string
}.

Record SavedScript := {
  id : js_string;
  title : js_string;
  content : js_string;
  ss_ownerName : js_string;
  ss_businessName : js_string;
  createdAt : Z
}.

#[export] Instance SavedScript_eq_dec : EqDecision SavedScript.
Proof. solve_decision. Defined.

Record VoiceNoteResult := {
  script : js_string;
  followUp : js_string
}.

Inductive GenerationStatus := IDLE | LOADING | SUCCESS | ERROR.

#[export] Instance GenerationStatus_eq_dec : EqDecision GenerationStatus.
Proof. solve_decision. Defined.


(** [VoiceNoteInput]. The four research fields and the three selectors hold
    strings; [selectedVoice] holds what [updateField] last put there, which is
    a string or, after a lookup in [TONE_VOICE_MAP], possibly a built-in. *)
Record VoiceNoteInput := {
  ownerName : js_string;
  businessName : js_string;
  identifiedGap : js_string;
  freeValue : js_string;
  platform : js_string;
  tone : js_string;
  goal : js_string;
  templateId : option js_string;
  referenceScriptId : option js_string;
  selectedVoice : js_value
}.

(** [keyof VoiceNoteInput] *)
Inductive field_key :=
  | F_ownerName | F_businessName | F_identifiedGap | F_freeValue
  | F_platform | F_tone | F_goal | F_templateId | F_referenceScriptId
  | F_selectedVoice.

#[export] Instance field_key_eq_dec : EqDecision field_key.
Proof. solve_decision. Defined.

(** ** services/geminiService.ts *)

Module GeminiService.

(** [sanitize] *)
Definition sanitize (val : js_string) : js_string :=
  strip_angle_brackets (trim val).

Definition FORMAT_ERROR : js_string :=
  lit "The AI returned an invalid response format. Please try again.".

Definition EXTRACTION_ERROR : js_string :=
  lit "Unable to parse the audio research. Please speak more clearly or fill fields manually.".

Definition GENERATION_ERROR : js_string :=
  lit "The script generator encountered an error. Please check your internet connection and try again.".

Definition SYNTHESIS_ERROR : js_string :=
  lit "Voice synthesis failed. Please try a different persona.".

(** [parseSafeJSON]: the [SyntaxError] of [JSON.parse] is caught and replaced
    by the response-format error. *)
Definition parseSafeJSON {A} `{JSONParser A} (text : js_string) : outcome A :=
  try_catch
    (let cleaned := trim (strip_fences text) in
     match JSON_parse cleaned with
     | Some v => Returned v
     | None => Thrown (lit "SyntaxError")
     end)
    (fun _ => Thrown FORMAT_ERROR).

(** What the backend answers to [generateContent]: the text of the response,
    when it has one, and the audio payload of its first part, when it has
    one. *)
Record GenerateContentResponse := {
  text : option js_string;
  inlineData : option js_string
}.

(** The object the extraction response parses to, under its response schema:
    each of the four properties is a string or missing. *)
Record ResearchJSON := {
  json_ownerName : option js_string;
  json_businessName : option js_string;
  json_identifiedGap : option js_string;
  json_freeValue : option js_string
}.

(** The [Partial<VoiceNoteInput>] that [processAudioResearch] returns. *)
Record Research := {
  r_ownerName : js_string;
  r_businessName : js_string;
  r_identifiedGap : js_string;
  r_freeValue : js_string
}.

(** [processAudioResearch], from the point where the request settles with
    [reply]: everything after the [await] runs inside the [try], and the
    [catch] replaces whatever was thrown there. *)
Definition processAudioResearch `{JSONParser ResearchJSON}
    (reply : outcome GenerateContentResponse) : outcome Research :=
  try_catch
    (response ← reply;
     result ← parseSafeJSON (or_default (text response) (lit "{}"));
     mret {| r_ownerName := sanitize (or_default (json_ownerName result) []);
             r_businessName := sanitize (or_default (json_businessName result) []);
             r_identifiedGap := sanitize (or_default (json_identifiedGap result) []);
             r_freeValue := sanitize (or_default (json_freeValue result) []) |})
    (fun _ => Thrown EXTRACTION_ERROR).

(** [generateVoiceNote], from the point where the request settles. The
    parsed value is returned as it is, cast and not inspected; it is read at
    the type the form keeps it at, [VoiceNoteResult | null]: [None] is a
    reply that parses to [null] (or to another falsy value; every test of
    the form treats them alike). *)
Definition generateVoiceNote `{JSONParser (option VoiceNoteResult)}
    (reply : outcome GenerateContentResponse)
  : outcome (option VoiceNoteResult) :=
  try_catch
    (response ← reply;
     parseSafeJSON (or_default (text response) (lit "{}")))
    (fun _ => Thrown GENERATION_ERROR).

(** The request [generateSpeech] sends. *)
Record SpeechRequest := {
  speech_prompt : js_string;
  speech_voiceName : js_value
}.

(** [generateSpeech] up to its [await]: the timing markers are stripped and
    the rest trimmed before the text goes into the prompt. *)
Definition generateSpeech_request (text : js_string) (voice : js_value)
    (tone : js_string) : SpeechRequest :=
  let cleanText := trim (strip_markers text) in
  {| speech_prompt :=
       lit "Voice this script in a " ++ toLowerCase tone ++ lit " tone: "
       ++ [34%N] ++ cleanText ++ [34%N];
     speech_voiceName := voice |}.

(** [generateSpeech] after its [await]. *)
Definition generateSpeech (reply : outcome GenerateContentResponse)
  : outcome js_string :=
  try_catch
    (response ← reply;
     match inlineData response with
     | Some base64Audio =>
         if truthy base64Audio then mret base64Audio
         else Thrown (lit "TTS candidate was empty")
     | None => Thrown (lit "TTS candidate was empty")
     end)
    (fun _ => Thrown SYNTHESIS_ERROR).

(** A sample of a [Float32Array]: an exact rational in lowest terms, or the
    [NaN] that an [undefined] operand produces. *)
Inductive number :=
  | Num (q : Q)
  | NaN.

(** [AudioBuffer], by its channel data. *)
Record AudioBuffer := {
  numberOfChannels : nat;
  buffer_length : nat;
  sampleRate : Q;
  channelData : list (list number)
}.

(** The audio context: which arguments its [createBuffer] accepts, beyond the
    rule that neither the channel count nor the length may be zero. *)
Class AudioContext := createBuffer_supported : nat -> nat -> Q -> bool.

(** [ctx.createBuffer(numChannels, length, sampleRate)]: [None] is the
    [NotSupportedError]; a new buffer is silent. *)
Definition createBuffer `{AudioContext} (numChannels len : nat) (rate : Q)
  : option AudioBuffer :=
  if (numChannels =? 0)%nat || (len =? 0)%nat
     || negb (createBuffer_supported numChannels len rate)
  then None
  else Some {| numberOfChannels := numChannels;
               buffer_length := len;
               sampleRate := rate;
               channelData := replicate numChannels (replicate len (Num 0)) |}.

(** One element of an [Int16Array] over little-endian bytes. *)
Definition int16_le (lo hi : byte) : Z :=
  let u := (Z.of_N (Byte.to_N lo) + 256 * Z.of_N (Byte.to_N hi))%Z in
  if (u <? 32768)%Z then u else (u - 65536)%Z.

(** [new Int16Array(data.buffer)]: [None] is the [RangeError] for a byte
    length that is not a multiple of two. *)
Fixpoint Int16Array (data : list byte) : option (list Z) :=
  match data with
  | [] => Some []
  | [_] => None
  | lo :: hi :: rest => cons (int16_le lo hi) <$> Int16Array rest
  end.

(** [dataInt16[k] / 32768.0]: a missing element is [undefined], and the
    quotient [NaN]. *)
Definition scaled_sample (dataInt16 : list Z) (k : nat) : number :=
  match dataInt16 !! k with
  | Some s => Num (Qred (inject_Z s / 32768))
  | None => NaN
  end.

(** The inner loop of [decodeAudioData] for one channel. [frameCount] is the
    exact quotient [dataInt16.length / numChannels], so [i < frameCount] holds
    for the [i] below its ceiling; [createBuffer] truncated it, and a store
    past the end of the channel does nothing. *)
Definition fill_channel (dataInt16 : list Z) (numChannels channel : nat)
    (channelData0 : list number) : list number :=
  let iterations := ((length dataInt16 + numChannels - 1) / numChannels)%nat in
  foldl (fun channelData i =>
           <[i := scaled_sample dataInt16 (i * numChannels + channel)]> channelData)
        channelData0 (seq 0 iterations).

(** [decodeAudioData]; [None] when [Int16Array] or [createBuffer] throws. *)
Definition decodeAudioData `{AudioContext} (data : list byte) (rate : Q)
    (numChannels : nat) : option AudioBuffer :=
  dataInt16 ← Int16Array data;
  let frameCount := (length dataInt16 / numChannels)%nat in
  buffer ← createBuffer numChannels frameCount rate;
  Some {| numberOfChannels := numberOfChannels buffer;
          buffer_length := buffer_length buffer;
          sampleRate := sampleRate buffer;
          channelData :=
            imap (fun channel cd => fill_channel dataInt16 numChannels channel cd)
                 (channelData buffer) |}.

End GeminiService.

(** ** components/OutreachForm.tsx *)

Module OutreachForm.

(** [TONE_VOICE_MAP]: the own properties of the object literal. *)
Definition TONE_VOICE_MAP : gmap (list N) (list N) :=
  <[lit "Casual" := lit "Puck"]>
    (<[lit "Professional" := lit "Charon"]>
       (<[lit "Direct" := lit "Fenrir"]>
          (<[lit "Warm" := lit "Kore"]> ∅))).

(** The props of the component. *)
Record Props := {
  initialReference : option SavedScript
}.

(** The React state of the component that the handlers below read or
    write. *)
Record State := {
  formData : VoiceNoteInput;
  activeTemplate : option CustomTemplate;
  result : option VoiceNoteResult;
  status : GenerationStatus;
  errorMessage : option js_string;
  isSavedInLibrary : bool
}.

Definition initial_formData : VoiceNoteInput :=
  {| ownerName := []; businessName := []; identifiedGap := []; freeValue := [];
     platform := lit "Instagram"; tone := lit "Casual";
     goal := lit "Permission to Send";
     templateId := None; referenceScriptId := None;
     selectedVoice := Str (lit "Puck") |}.

Definition initial_state : State :=
  {| formData := initial_formData; activeTemplate := None; result := None;
     status := IDLE; errorMessage := None; isSavedInLibrary := false |}.

Definition setFormData (fd : VoiceNoteInput) (st : State) : State :=
  {| formData := fd; activeTemplate := activeTemplate st; result := result st;
     status := status st; errorMessage := errorMessage st;
     isSavedInLibrary := isSavedInLibrary st |}.

Definition setStatus (s : GenerationStatus) (st : State) : State :=
  {| formData := formData st; activeTemplate := activeTemplate st;
     result := result st; status := s; errorMessage := errorMessage st;
     isSavedInLibrary := isSavedInLibrary st |}.

Definition setErrorMessage (m : option js_string) (st : State) : State :=
  {| formData := formData st; activeTemplate := activeTemplate st;
     result := result st; status := status st; errorMessage := m;
     isSavedInLibrary := isSavedInLibrary st |}.

Definition setIsSavedInLibrary (b : bool) (st : State) : State :=
  {| formData := formData st; activeTemplate := activeTemplate st;
     result := result st; status := status st; errorMessage := errorMessage st;
     isSavedInLibrary := b |}.

(** [setResult], followed by the effect that depends on [result]: a new
    script clears the saved flag and the error message. *)
Definition setResult (r : option VoiceNoteResult) (st : State) : State :=
  let st' :=
    {| formData := formData st; activeTemplate := activeTemplate st;
       result := r; status := status st; errorMessage := errorMessage st;
       isSavedInLibrary := isSavedInLibrary st |} in
  match r with
  | Some _ => setErrorMessage None (setIsSavedInLibrary false st')
  | None => st'
  end.

(** [estimatedDuration]: 0 without a script, else the number of pieces of the
    stripped, trimmed script at 140 words per 60 seconds, rounded. The
    quotient is kept exact: for a count [w] the value [3w/7] is at least 1/14
    away from every half-integer, far more than the rounding error of the two
    floating-point operations for any string a browser can hold. *)
Definition estimatedDuration (result : option VoiceNoteResult) : Z :=
  match result with
  | None => 0%Z
  | Some r =>
      if truthy (script r) then
        let cleanScript := strip_markers (script r) in
        let words := length (split_ws (trim cleanScript)) in
        Math_round ((inject_Z (Z.of_nat words) / 140) * 60)
      else 0%Z
  end.

Inductive duration_label := TooShort | PerfectLength | ABitLong.

(** [durationStatus], by its label. *)
Definition durationStatus (estimated : Z) : duration_label :=
  if (estimated <? 30)%Z then TooShort
  else if (estimated <=? 55)%Z then PerfectLength
  else ABitLong.

(** The four fields [validateFields] requires, in its order. *)
Inductive required_field := R_ownerName | R_businessName | R_identifiedGap | R_freeValue.

Definition requiredFields : list required_field :=
  [R_ownerName; R_businessName; R_identifiedGap; R_freeValue].

Definition field_name (f : required_field) : js_string :=
  match f with
  | R_ownerName => lit "ownerName"
  | R_businessName => lit "businessName"
  | R_identifiedGap => lit "identifiedGap"
  | R_freeValue => lit "freeValue"
  end.

(** [formData[field]] for a required field. *)
Definition required_value (f : required_field) (fd : VoiceNoteInput) : js_string :=
  match f with
  | R_ownerName => ownerName fd
  | R_businessName => businessName fd
  | R_identifiedGap => identifiedGap fd
  | R_freeValue => freeValue fd
  end.

(** [!v || v.trim().length < 2] *)
Definition field_invalid (v : js_string) : bool :=
  negb (truthy v) || (length (trim v) <? 2)%nat.

Definition validation_message (f : required_field) : js_string :=
  lit "Please provide a valid value for "
  ++ toLowerCase (space_capitals (field_name f)) ++ lit ".".

(** The loop of [validateFields] over the fields still to check. *)
Fixpoint validate_loop (fields : list required_field) (st : State) : bool * State :=
  match fields with
  | [] => (true, st)
  | field :: rest =>
      if field_invalid (required_value field (formData st))
      then (false, setErrorMessage (Some (validation_message field)) st)
      else validate_loop rest st
  end.

(** [validateFields] *)
Definition validateFields (st : State) : bool * State :=
  validate_loop requiredFields st.

(** The call [generateVoiceNote(formData, activeTemplate, initialReference)]. *)
Record GenerateCall := {
  call_input : VoiceNoteInput;
  call_template : option CustomTemplate;
  call_reference : option SavedScript
}.

(** [handleGenerate] up to its [await]: the new state and the backend call it
    started, if any. *)
Definition handleGenerate (props : Props) (st : State)
  : State * option GenerateCall :=
  match status st with
  | LOADING => (st, None)
  | _ =>
      let st1 := setErrorMessage None st in
      let (valid, st2) := validateFields st1 in
      if valid then
        let st3 := setResult None (setStatus LOADING st2) in
        (st3, Some {| call_input := formData st;
                      call_template := activeTemplate st;
                      call_reference := initialReference props |})
      else (st2, None)
  end.

(** [handleGenerate] after its [await], when the call has settled; [data] is
    whatever [generateVoiceNote] returned, [None] when that is [null]. *)
Definition handleGenerate_settled (settled : outcome (option VoiceNoteResult))
    (st : State) : State :=
  match settled with
  | Returned data => setStatus SUCCESS (setResult data st)
  | Thrown message =>
      setStatus ERROR
        (setErrorMessage (Some (or_else message (lit "Something went wrong."))) st)
  end.

(** [handleAudioCaptured] up to its [await]. *)
Definition handleAudioCaptured (st : State) : State :=
  setErrorMessage None st.

(** [handleAudioCaptured] after its [await]: an extracted field replaces the
    one of the form unless it is empty. *)
Definition handleAudioCaptured_settled (settled : outcome GeminiService.Research)
    (st : State) : State :=
  match settled with
  | Returned data =>
      let prev := formData st in
      setFormData
        {| ownerName := or_else (GeminiService.r_ownerName data) (ownerName prev);
           businessName :=
             or_else (GeminiService.r_businessName data) (businessName prev);
           identifiedGap :=
             or_else (GeminiService.r_identifiedGap data) (identifiedGap prev);
           freeValue := or_else (GeminiService.r_freeValue data) (freeValue prev);
           platform := platform prev; tone := tone prev; goal := goal prev;
           templateId := templateId prev;
           referenceScriptId := referenceScriptId prev;
           selectedVoice := selectedVoice prev |} st
  | Thrown message =>
      setErrorMessage (Some (or_else message (lit "Failed to process audio."))) st
  end.

(** [{ ...prev, [field]: value }] *)
Definition set_field (field : field_key) (value : js_string)
    (prev : VoiceNoteInput) : VoiceNoteInput :=
  {| ownerName := match field with F_ownerName => value | _ => ownerName prev end;
     businessName := match field with F_businessName => value | _ => businessName prev end;
     identifiedGap := match field with F_identifiedGap => value | _ => identifiedGap prev end;
     freeValue := match field with F_freeValue => value | _ => freeValue prev end;
     platform := match field with F_platform => value | _ => platform prev end;
     tone := match field with F_tone => value | _ => tone prev end;
     goal := match field with F_goal => value | _ => goal prev end;
     templateId := match field with F_templateId => Some value | _ => templateId prev end;
     referenceScriptId :=
       match field with F_referenceScriptId => Some value | _ => referenceScriptId prev end;
     selectedVoice :=
       match field with F_selectedVoice => Str value | _ => selectedVoice prev end |}.

Definition set_selectedVoice (v : js_value) (fd : VoiceNoteInput) : VoiceNoteInput :=
  {| ownerName := ownerName fd; businessName := businessName fd;
     identifiedGap := identifiedGap fd; freeValue := freeValue fd;
     platform := platform fd; tone := tone fd; goal := goal fd;
     templateId := templateId fd; referenceScriptId := referenceScriptId fd;
     selectedVoice := v |}.

(** The updater that [updateField] passes to [setFormData]. *)
Definition updateField_data (field : field_key) (value : js_string)
    (prev : VoiceNoteInput) : VoiceNoteInput :=
  let newData := set_field field value prev in
  match field with
  | F_tone =>
      set_selectedVoice
        (value_or (get_property TONE_VOICE_MAP value) (lit "Zephyr")) newData
  | _ => newData
  end.

(** [updateField] *)
Definition updateField (field : field_key) (value : js_string) (st : State) : State :=
  setFormData (updateField_data field value (formData st)) st.

Definition LIBRARY_KEY : js_string := lit "voice_note_library".

(** The list persisted under the library key, as [handleSaveToLibrary] reads
    it: [JSON.parse(localStorage.getItem(key) || '[]')]. *)
Definition read_library `{JSONParser (list SavedScript)} (store : Storage)
  : option (list SavedScript) :=
  JSON_parse (or_default (getItem LIBRARY_KEY store) (lit "[]")).

(** [handleSaveToLibrary]; [now_id] and [now_created] are its two readings of
    [Date.now()]. A [SyntaxError] from [JSON.parse] ends the handler before it
    has written anything. *)
Definition handleSaveToLibrary `{JSONCodec (list SavedScript)}
    (now_id now_created : Z) (st : State) (store : Storage) : State * Storage :=
  match result st with
  | None => (st, store)
  | Some r =>
      if truthy (script r) then
        let newEntry :=
          {| id := Number_toString now_id;
             title := ownerName (formData st) ++ lit " @ " ++ businessName (formData st);
             content := script r;
             ss_ownerName := ownerName (formData st);
             ss_businessName := businessName (formData st);
             createdAt := now_created |} in
        match read_library store with
        | Some existing =>
            (setIsSavedInLibrary true st,
             setItem LIBRARY_KEY (JSON_stringify (newEntry :: existing)) store)
        | None => (st, store)
        end
      else (st, store)
  end.

End OutreachForm.

(** ** components/LibraryView.tsx *)

Module LibraryView.

Import OutreachForm.

(** The part of the component state the handlers below use. *)
Record State := {
  scripts : list SavedScript
}.

Definition initial_state : State := {| scripts := [] |}.

(** [loadScripts], run on mount and on a storage notification: a missing or
    empty item leaves the state as it is; [None] is the [SyntaxError] of
    [JSON.parse]. *)
Definition loadScripts `{JSONParser (list SavedScript)} (store : Storage)
    (st : State) : option State :=
  match getItem LIBRARY_KEY store with
  | Some saved =>
      if truthy saved then
        parsed ← JSON_parse saved;
        Some {| scripts := parsed |}
      else Some st
  | None => Some st
  end.

(** [handleDelete]; [confirmed] is the answer of the [confirm] dialog. *)
Definition handleDelete `{JSONCodec (list SavedScript)} (confirmed : bool)
    (target : js_string) (st : State) (store : Storage) : State * Storage :=
  if confirmed then
    let updated := filter (fun s => id s ≠ target) (scripts st) in
    ({| scripts := updated |},
     setItem LIBRARY_KEY (JSON_stringify updated) store)
  else (st, store).

End LibraryView.

(** ** App.tsx *)

Module App.

Definition TAB_KEY : js_string := lit "app_active_tab".
Definition REFERENCE_KEY : js_string := lit "app_active_reference".

(** The state of [App]; the tab is the string read back from storage, which
    the cast does not check. *)
Record State := {
  activeTab : js_string;
  selectedReference : option SavedScript
}.

(** The two lazy initialisers of [useState], run when the page loads; [None]
    is the [SyntaxError] of [JSON.parse]. The stored text is parsed at the
    type of the state, [SavedScript | null]: a stored [null] gives no
    reference. *)
Definition init `{JSONParser (option SavedScript)} (store : Storage)
  : option State :=
  let tab := or_default (getItem TAB_KEY store) (lit "create") in
  match getItem REFERENCE_KEY store with
  | Some saved =>
      if truthy saved then
        parsed ← JSON_parse saved;
        Some {| activeTab := tab; selectedReference := parsed |}
      else Some {| activeTab := tab; selectedReference := None |}
  | None => Some {| activeTab := tab; selectedReference := None |}
  end.

(** The effect on [activeTab]. *)
Definition persist_tab (st : State) (store : Storage) : Storage :=
  setItem TAB_KEY (activeTab st) store.

(** The effect on [selectedReference]. *)
Definition persist_reference `{JSONCodec (option SavedScript)} (st : State)
    (store : Storage) : Storage :=
  match selectedReference st with
  | Some reference =>
      setItem REFERENCE_KEY (JSON_stringify (Some reference)) store
  | None => removeItem REFERENCE_KEY store
  end.

(** Both effects, as they run after the first render. *)
Definition run_effects `{JSONCodec (option SavedScript)} (st : State)
    (store : Storage) : Storage :=
  persist_reference st (persist_tab st store).

(** The effects after a later render, from the state [prev] to the state
    [st]: each runs when its dependency has changed. (React compares the
    reference by identity and may run its effect for an equal value; the
    effect then writes again what its last run wrote.) *)
Definition run_changed_effects `{JSONCodec (option SavedScript)}
    (prev st : State) (store : Storage) : Storage :=
  let store1 :=
    if decide (activeTab st = activeTab prev) then store
    else persist_tab st store in
  if decide (selectedReference st = selectedReference prev) then store1
  else persist_reference st store1.

Definition setActiveTab (tab : js_string) (st : State) : State :=
  {| activeTab := tab; selectedReference := selectedReference st |}.

Definition setSelectedReference (reference : option SavedScript) (st : State)
  : State :=
  {| activeTab := activeTab st; selectedReference := reference |}.

(** [handleUseAsReference] *)
Definition handleUseAsReference (script : SavedScript) (st : State) : State :=
  setActiveTab (lit "create") (setSelectedReference (Some script) st).

(** [onClearReference], as passed to the form. *)
Definition onClearReference (st : State) : State :=
  setSelectedReference None st.

(** Loading the page: the initial state, then the effects of the first
    render. *)
Definition load `{JSONCodec (option SavedScript)} (store : Storage)
  : option (State * Storage) :=
  st ← init store;
  Some (st, run_effects st store).

(** A user action on [App], and the step it causes: the handler, the render,
    the effects. *)
Inductive action :=
  | UseAsReference (script : SavedScript)
  | ClearReference
  | SwitchTab (tab : js_string).

Definition handle (a : action) (st : State) : State :=
  match a with
  | UseAsReference script => handleUseAsReference script st
  | ClearReference => onClearReference st
  | SwitchTab tab => setActiveTab tab st
  end.

Definition step `{JSONCodec (option SavedScript)} (a : action)
    (ss : State * Storage) : State * Storage :=
  let st' := handle a ss.1 in
  (st', run_changed_effects ss.1 st' ss.2).

End App.

(** ** The generation workflow as a transition system *)

Module Workflow.

Import OutreachForm.

(** The form together with the number of [generateVoiceNote] calls that have
    been started and have not settled yet. *)
Record Config := {
  form : OutreachForm.State;
  in_flight : nat
}.

Definition initial : Config :=
  {| form := OutreachForm.initial_state; in_flight := 0 |}.

Inductive event :=
  | Generate
  | Settle (settled : outcome (option VoiceNoteResult))
  | Update (field : field_key) (value : js_string)
  | Capture
  | Extracted (settled : outcome GeminiService.Research).

(** One event of the browser's loop. A call can only settle while one is in
    flight. *)
Inductive step (props : Props) : Config -> event -> Config -> Prop :=
  | step_generate c :
      step props c Generate
        {| form := (handleGenerate props (form c)).1;
           in_flight :=
             match (handleGenerate props (form c)).2 with
             | Some _ => S (in_flight c)
             | None => in_flight c
             end |}
  | step_settle c settled n :
      in_flight c = S n ->
      step props c (Settle settled)
        {| form := handleGenerate_settled settled (form c); in_flight := n |}
  | step_update c field value :
      step props c (Update field value)
        {| form := updateField field value (form c); in_flight := in_flight c |}
  | step_capture c :
      step props c Capture
        {| form := handleAudioCaptured (form c); in_flight := in_flight c |}
  | step_extracted c settled :
      step props c (Extracted settled)
        {| form := handleAudioCaptured_settled settled (form c);
           in_flight := in_flight c |}.

Inductive reachable (props : Props) : Config -> Prop :=
  | reachable_initial : reachable props initial
  | reachable_step c e c' :
      reachable props c -> step props c e c' -> reachable props c'.

End Workflow.

(** ** The vocabulary of the properties *)

Section Vocabulary.

Import GeminiService OutreachForm Workflow.

(** The first required field, in the order of [requiredFields], whose value
    does not pass. *)
Definition first_invalid (fd : VoiceNoteInput) : option required_field :=
  List.find (fun f => field_invalid (required_value f fd)) requiredFields.

(** The persona currently selected. *)
Definition persona (st : OutreachForm.State) : js_value :=
  selectedVoice (formData st).

(** The four tones the select offers. *)
Definition mapped_tones : list js_string :=
  [lit "Casual"; lit "Professional"; lit "Direct"; lit "Warm"].

(** A run of updates, applied in order. *)
Definition apply_updates (updates : list (field_key * js_string))
    (st : OutreachForm.State) : OutreachForm.State :=
  foldl (fun s u => updateField u.1 u.2 s) st updates.

(** The persona the user chose last: [v], unless a later update of the
    persona field replaced it. *)
Definition last_manual_choice (v : js_string)
    (updates : list (field_key * js_string)) : js_string :=
  foldl (fun acc u => match u.1 with F_selectedVoice => u.2 | _ => acc end)
        v updates.

(** The status tells whether a call is pending: one while Loading, none
    otherwise. *)
Definition flight_invariant (c : Config) : Prop :=
  in_flight c = match status (form c) with LOADING => 1 | _ => 0 end.

(** What is handed to [JSON.parse] for a response. *)
Definition cleaned_text (response : GenerateContentResponse) : js_string :=
  trim (strip_fences (or_default (text response) (lit "{}"))).

(** The entry [handleSaveToLibrary] builds. *)
Definition new_entry (now_id now_created : Z) (fd : VoiceNoteInput)
    (r : VoiceNoteResult) : SavedScript :=
  {| id := Number_toString now_id;
     title := ownerName fd ++ lit " @ " ++ businessName fd;
     content := script r;
     ss_ownerName := ownerName fd;
     ss_businessName := businessName fd;
     createdAt := now_created |}.

(** Storage holds what the effects of [App] write for the state: the state
    has been rendered and its effects have run. *)
Definition rendered `{JSONCodec (option SavedScript)} (st : App.State)
    (store : Storage) : Prop :=
  App.run_effects st store = store.

End Vocabulary.

(** ** A codec that meets the assumptions

    The properties below hold for every parser and serialiser with the
    properties of [JSONCodec] and [JSONEmptyArray]. The codec defined here has
    them: it writes a string as its length followed by its units where JSON
    quotes and escapes it. It shows that the assumptions can be met together,
    and it lets the handlers run on concrete stores. *)

Module ReferenceCodec.

Definition put_string (s : js_string) : js_string := N.of_nat (length s) :: s.

Definition get_string (t : js_string) : option (js_string * js_string) :=
  match t with
  | [] => None
  | n :: r =>
      if (N.to_nat n <=? length r)%nat
      then Some (take (N.to_nat n) r, drop (N.to_nat n) r)
      else None
  end.

Definition put_Z (z : Z) : js_string :=
  [(if (z <? 0)%Z then 1 else 0)%N; Z.to_N (Z.abs z)].

Definition get_Z (t : js_string) : option (Z * js_string) :=
  match t with
  | sign :: magnitude :: r =>
      Some ((if (sign =? 1)%N then - Z.of_N magnitude else Z.of_N magnitude)%Z, r)
  | _ => None
  end.

Definition put_script (s : SavedScript) : js_string :=
  put_string (id s) ++ put_string (title s) ++ put_string (content s)
  ++ put_string (ss_ownerName s) ++ put_string (ss_businessName s)
  ++ put_Z (createdAt s).

Definition get_script (t : js_string) : option (SavedScript * js_string) :=
  '(i, t) ← get_string t;
  '(ti, t) ← get_string t;
  '(c, t) ← get_string t;
  '(o, t) ← get_string t;
  '(b, t) ← get_string t;
  '(z, t) ← get_Z t;
  Some ({| id := i; title := ti; content := c; ss_ownerName := o;
           ss_businessName := b; createdAt := z |}, t).

Fixpoint get_scripts (n : nat) (t : js_string)
  : option (list SavedScript * js_string) :=
  match n with
  | O => Some ([], t)
  | S n' =>
      '(s, t) ← get_script t;
      '(l, t) ← get_scripts n' t;
      Some (s :: l, t)
  end.

Definition stringify_script (s : SavedScript) : js_string :=
  123%N :: put_script s.

Definition parse_script (t : js_string) : option SavedScript :=
  match t with
  | 123%N :: r =>
      match get_script r with
      | Some (s, []) => Some s
      | _ => None
      end
  | _ => None
  end.

(** A script or [null], the values of the style reference. *)
Definition stringify_reference (reference : option SavedScript) : js_string :=
  match reference with
  | Some s => stringify_script s
  | None => lit "null"
  end.

Definition parse_reference (t : js_string) : option (option SavedScript) :=
  if decide (t = lit "null") then Some None else Some <$> parse_script t.

Definition stringify_scripts (l : list SavedScript) : js_string :=
  match l with
  | [] => lit "[]"
  | _ => 91%N :: N.of_nat (length l) :: flat_map put_script l ++ [93%N]
  end.

Definition parse_scripts (t : js_string) : option (list SavedScript) :=
  if decide (t = lit "[]") then Some []
  else
    match t with
    | 91%N :: n :: r =>
        match get_scripts (N.to_nat n) r with
        | Some (l, [93%N]) => Some l
        | _ => None
        end
    | _ => None
    end.

(** The extraction response: an opening brace, then the four properties,
    each absent (0) or present (1 and the string). *)
Definition get_optional (t : js_string) : option (option js_string * js_string) :=
  match t with
  | 0%N :: r => Some (None, r)
  | 1%N :: r => '(s, r) ← get_string r; Some (Some s, r)
  | _ => None
  end.

Definition parse_research (t : js_string) : option GeminiService.ResearchJSON :=
  match t with
  | 123%N :: r =>
      '(o, r) ← get_optional r;
      '(b, r) ← get_optional r;
      '(g, r) ← get_optional r;
      '(f, r) ← get_optional r;
      match r with
      | [] => Some {| GeminiService.json_ownerName := o;
                      GeminiService.json_businessName := b;
                      GeminiService.json_identifiedGap := g;
                      GeminiService.json_freeValue := f |}
      | _ => None
      end
  | _ => None
  end.

End ReferenceCodec.

(** ** Concrete inputs *)

Section Inputs.

Import GeminiService OutreachForm Workflow.

(** The example of the specification. *)
Definition example_script : js_string :=
  lit "[0-5s] Hey Mike, [5-10s] saw your site".

(** A script of [n] words behind a timing marker. *)
Definition script_of_words (n : nat) : VoiceNoteResult :=
  {| script := lit "[0-5s] " ++ concat (replicate n (lit "word "));
     followUp := [] |}.

(** The form is rendered without a style reference. *)
Definition blank_props : Props := {| initialReference := None |}.

(** A form on which only the owner name is too short (one letter between
    spaces). *)
Definition short_owner_form : OutreachForm.State :=
  updateField F_ownerName (lit " M ")
    (updateField F_businessName (lit "Peak Fitness")
       (updateField F_identifiedGap (lit "Landing page copy")
          (updateField F_freeValue (lit "Rewrote the page") initial_state))).

(** The form with its four fields filled in. *)
Definition filled_form : OutreachForm.State :=
  updateField F_freeValue (lit "Rewrote the page")
    (updateField F_identifiedGap (lit "Landing page copy")
       (updateField F_businessName (lit "Peak Fitness")
          (updateField F_ownerName (lit "Mike") initial_state))).

(** The workflow after the user has filled the form and pressed the button
    twice. *)
Definition twice_pressed : Config :=
  {| form := (handleGenerate blank_props
                (handleGenerate blank_props filled_form).1).1;
     in_flight := 1 |}.

(** The user picks Warm, overrides the persona with Fenrir, then edits the
    owner name and the goal. *)
Definition edits_after_override : list (field_key * js_string) :=
  [(F_ownerName, lit "Mike"); (F_goal, lit "Book a Call")].

(** A context with the nominal ranges of the Web Audio specification: up to
    32 channels, rates from 8000 to 96000 Hz. *)
Definition nominal_context : AudioContext :=
  fun numChannels _ rate =>
    (numChannels <=? 32) && Qle_bool 8000 rate && Qle_bool rate 96000.

(** Two stereo frames: left 16384, -16384 and right 8192, -32768. *)
Definition stereo_bytes : list byte :=
  [Byte.x00; Byte.x40; Byte.x00; Byte.x20;
   Byte.x00; Byte.xc0; Byte.x00; Byte.x80].

(** Two saved scripts. *)
Definition mike_script : SavedScript :=
  {| id := lit "1700000000000";
     title := lit "Mike @ Peak Fitness";
     content := lit "[0-5s] Hey Mike, [5-10s] saw your site";
     ss_ownerName := lit "Mike";
     ss_businessName := lit "Peak Fitness";
     createdAt := 1700000000000 |}.

Definition anna_script : SavedScript :=
  {| id := lit "1700000500000";
     title := lit "Anna @ Bloom";
     content := lit "[0-5s] Hi Anna";
     ss_ownerName := lit "Anna";
     ss_businessName := lit "Bloom";
     createdAt := 1700000500000 |}.

(** A store that holds a library of the two scripts, newest first. *)
Definition two_script_store : Storage :=
  setItem LIBRARY_KEY
    (ReferenceCodec.stringify_scripts [anna_script; mike_script]) ∅.

(** The form after a generation for a third prospect has succeeded. *)
Definition generated_form : OutreachForm.State :=
  handleGenerate_settled
    (Returned (Some {| script := lit "[0-5s] Hello Sam";
                       followUp := lit "Sent!" |}))
    (handleGenerate blank_props
       (updateField F_ownerName (lit "Sam") filled_form)).1.

(** The page loaded on an empty storage: the generator tab, no reference,
    and the tab already written back by the first effects. *)
Definition fresh_page : App.State * Storage :=
  ({| App.activeTab := lit "create"; App.selectedReference := None |},
   setItem App.TAB_KEY (lit "create") ∅).

(** A reply that is prose, not JSON. *)
Definition prose_response : GenerateContentResponse :=
  {| text := Some (lit "Sorry, I could not make out the recording.");
     inlineData := None |}.

End Inputs.

(** * The rest of the code *)

(** ** More of the string library *)

Module JSSearch.

(** Whether [s] begins with the units of [t]. *)
Fixpoint starts_with (t s : js_string) : bool :=
  match t, s with
  | [], _ => true
  | _ :: _, [] => false
  | a :: t', b :: s' => (a =? b)%N && starts_with t' s'
  end.

(** [s.includes(t)]: [t] occurs in [s] at some position. *)
Fixpoint includes (s t : js_string) : bool :=
  starts_with t s
  || match s with
     | [] => false
     | _ :: r => includes r t
     end.

End JSSearch.
Export JSSearch.

(** ** services/geminiService.ts: the prompt of [generateVoiceNote] *)

Module GenerationPrompt.

Import GeminiService OutreachForm.

Definition newline : js_string := [10%N].

(** A text between double quotes, as the template literals write it. *)
Definition quoted (s : js_string) : js_string := [34%N] ++ s ++ [34%N].

Definition DEFAULT_STYLE_EXAMPLE : js_string :=
  lit "Hey [Name], checked out [Business] and noticed [Gap]. Already mocked up [Value]. Mind if I send it over?".

(** [templateSection] *)
Definition templateSection (activeTemplate : option CustomTemplate) : js_string :=
  match activeTemplate with
  | Some template =>
      newline ++ lit "CUSTOM TEMPLATE TO FOLLOW (Structure and Style):"
      ++ newline ++ quoted (tpl_content template)
  | None =>
      newline ++ lit "DEFAULT STYLE EXAMPLE:" ++ newline
      ++ quoted DEFAULT_STYLE_EXAMPLE
  end.

(** [referenceSection] *)
Definition referenceSection (referenceScript : option SavedScript) : js_string :=
  match referenceScript with
  | Some reference =>
      newline ++ lit "STYLE REFERENCE (Mirror this energy):"
      ++ newline ++ quoted (content reference)
  | None => []
  end.

(** [prompt], the template literal of [generateVoiceNote] line by line. *)
Definition generateVoiceNote_prompt (input : VoiceNoteInput)
    (activeTemplate : option CustomTemplate)
    (referenceScript : option SavedScript) : js_string :=
  newline
  ++ lit "    Generate a voice note script for " ++ platform input ++ lit "."
  ++ newline
  ++ lit "    " ++ newline
  ++ lit "    CONTEXT:" ++ newline
  ++ lit "    - Owner: " ++ sanitize (ownerName input) ++ newline
  ++ lit "    - Business: " ++ sanitize (businessName input) ++ newline
  ++ lit "    - Gap: " ++ sanitize (identifiedGap input) ++ newline
  ++ lit "    - Free Value: " ++ sanitize (freeValue input) ++ newline
  ++ lit "    - Tone: " ++ tone input ++ newline
  ++ lit "    - Goal: " ++ goal input ++ newline
  ++ newline
  ++ lit "    " ++ templateSection activeTemplate ++ newline
  ++ lit "    " ++ referenceSection referenceScript ++ newline
  ++ newline
  ++ lit "    TASK:" ++ newline
  ++ lit "    1. Provide 'script' string with markers like [0-5s]." ++ newline
  ++ lit "    2. Provide 'followUp' string (1 sentence)." ++ newline
  ++ lit "  ".

(** The prompt of the call that [handleGenerate] starts. *)
Definition prompt_of_call (call : GenerateCall) : js_string :=
  generateVoiceNote_prompt (call_input call) (call_template call)
    (call_reference call).

End GenerationPrompt.

(** ** components/OutreachForm.tsx: playing the script *)

Module Playback.

Import GeminiService OutreachForm.

(** The form with the two flags of the play button and [activeSourceRef],
    the source node that is playing, by the buffer it plays. *)
Record State := {
  form : OutreachForm.State;
  ttsLoading : bool;
  isPlaying : bool;
  activeSourceRef : option AudioBuffer
}.

Definition initial_state : State :=
  {| form := OutreachForm.initial_state; ttsLoading := false;
     isPlaying := false; activeSourceRef := None |}.

(** What a handler asks of the audio context. *)
Inductive audio_command :=
  | Stop (buffer : AudioBuffer)
  | Start (buffer : AudioBuffer).

(** [handlePlayTTS] up to its first [await]: the new state and the speech
    request it sent, if any. *)
Definition handlePlayTTS (st : State) : State * option SpeechRequest :=
  match result (form st) with
  | None => (st, None)
  | Some r =>
      if ttsLoading st || isPlaying st then (st, None)
      else
        ({| form := setErrorMessage None (form st); ttsLoading := true;
            isPlaying := isPlaying st; activeSourceRef := activeSourceRef st |},
         Some (generateSpeech_request (script r)
                 (selectedVoice (formData (form st)))
                 (tone (formData (form st)))))
  end.

(** [handlePlayTTS] from the point where the [try] block has the decoded
    buffer, or has thrown on the way to it ([generateSpeech], [decodeBase64]
    and [decodeAudioData] are all inside the [try]). *)
Definition handlePlayTTS_settled (prepared : outcome AudioBuffer) (st : State)
  : State * list audio_command :=
  match prepared with
  | Returned audioBuffer =>
      ({| form := form st; ttsLoading := false; isPlaying := true;
          activeSourceRef := Some audioBuffer |},
       match activeSourceRef st with
       | Some previous => [Stop previous; Start audioBuffer]
       | None => [Start audioBuffer]
       end)
  | Thrown message =>
      ({| form :=
            setErrorMessage
              (Some (or_else message (lit "Audio playback failed."))) (form st);
          ttsLoading := false; isPlaying := isPlaying st;
          activeSourceRef := activeSourceRef st |},
       [])
  end.

(** [source.onended] *)
Definition onended (st : State) : State :=
  {| form := form st; ttsLoading := ttsLoading st; isPlaying := false;
     activeSourceRef := None |}.

(** The mounted form with what is outside of it: the speech requests that
    have not settled, and the sources that were started and whose [ended]
    event is still to come (stopping a source does not cancel that event). *)
Record Config := {
  view : State;
  requests : nat;
  unended : nat
}.

Definition initial : Config :=
  {| view := initial_state; requests := 0; unended := 0 |}.

Definition started (commands : list audio_command) : nat :=
  length (List.filter (fun c => match c with Start _ => true | Stop _ => false end)
            commands).

Inductive event :=
  | Play
  | Prepared (prepared : outcome AudioBuffer)
  | Ended
  | Form (handler : OutreachForm.State -> OutreachForm.State).

(** One event of the browser's loop; [Form] stands for any other handler of
    the form, none of which touches the flags or the source. *)
Inductive step : Config -> event -> Config -> Prop :=
  | step_play c :
      step c Play
        {| view := (handlePlayTTS (view c)).1;
           requests :=
             match (handlePlayTTS (view c)).2 with
             | Some _ => S (requests c)
             | None => requests c
             end;
           unended := unended c |}
  | step_prepared c prepared n :
      requests c = S n ->
      step c (Prepared prepared)
        {| view := (handlePlayTTS_settled prepared (view c)).1;
           requests := n;
           unended :=
             unended c + started (handlePlayTTS_settled prepared (view c)).2 |}
  | step_ended c n :
      unended c = S n ->
      step c Ended {| view := onended (view c); requests := requests c;
                      unended := n |}
  | step_form c handler :
      step c (Form handler)
        {| view :=
             {| form := handler (form (view c));
                ttsLoading := ttsLoading (view c);
                isPlaying := isPlaying (view c);
                activeSourceRef := activeSourceRef (view c) |};
           requests := requests c; unended := unended c |}.

Inductive reachable : Config -> Prop :=
  | reachable_initial : reachable initial
  | reachable_step c e c' : reachable c -> step c e c' -> reachable c'.

End Playback.

(** ** components/LibraryView.tsx: the search box *)

Module LibrarySearch.

(** [String.prototype.toLowerCase] on any text, with the two facts the
    properties below rely on: the empty string stays empty, and on ASCII text
    it is the map over the letters A to Z defined above. *)
Class UnicodeCase := {
  String_toLowerCase : js_string -> js_string;
  String_toLowerCase_empty : String_toLowerCase [] = [];
  String_toLowerCase_ascii :
    forall s, Forall (fun c => (c < 128)%N) s -> String_toLowerCase s = toLowerCase s
}.

(** The predicate of the filter. *)
Definition matches `{UnicodeCase} (searchTerm : js_string) (s : SavedScript)
  : bool :=
  includes (String_toLowerCase (ss_ownerName s)) (String_toLowerCase searchTerm)
  || includes (String_toLowerCase (ss_businessName s))
       (String_toLowerCase searchTerm)
  || includes (String_toLowerCase (content s)) (String_toLowerCase searchTerm).

(** [filteredScripts] *)
Definition filteredScripts `{UnicodeCase} (searchTerm : js_string)
    (scripts : list SavedScript) : list SavedScript :=
  List.filter (matches searchTerm) scripts.

End LibrarySearch.

(** ** components/LibraryView.tsx: playing a saved script *)

Module LibraryPlayback.

Import GeminiService.

(** The two ids of the play buttons: [null] or the id of a script. *)
Record State := {
  loadingId : option js_string;
  playingId : option js_string
}.

Definition initial_state : State := {| loadingId := None; playingId := None |}.

(** The truth value of such an id: [null] and the empty string are falsy. *)
Definition is_set (i : option js_string) : bool :=
  match i with
  | Some s => truthy s
  | None => false
  end.

(** [handlePlayVoice] up to its first [await]. *)
Definition handlePlayVoice (script : SavedScript) (st : State)
  : State * option SpeechRequest :=
  if is_set (loadingId st) || is_set (playingId st) then (st, None)
  else
    ({| loadingId := Some (id script); playingId := playingId st |},
     Some (generateSpeech_request (content script) (Str (lit "Zephyr"))
             (lit "Professional"))).

(** [handlePlayVoice] from the point where the [try] block has the decoded
    buffer, or has thrown on the way to it. *)
Definition handlePlayVoice_settled (script : SavedScript)
    (prepared : outcome AudioBuffer) (st : State)
  : State * list Playback.audio_command :=
  match prepared with
  | Returned audioBuffer =>
      ({| loadingId := None; playingId := Some (id script) |},
       [Playback.Start audioBuffer])
  | Thrown _ => ({| loadingId := None; playingId := None |}, [])
  end.

(** [source.onended] *)
Definition onended (st : State) : State :=
  {| loadingId := loadingId st; playingId := None |}.

(** One mounted view with what it has set going outside of it: the scripts
    whose speech request has not settled, and the number of sources it
    started whose [ended] event is still to come. *)
Record Config := {
  view : State;
  requests : list SavedScript;
  unended : nat
}.

Definition initial : Config :=
  {| view := initial_state; requests := []; unended := 0 |}.

Inductive event :=
  | Play (script : SavedScript)
  | Prepared (script : SavedScript) (prepared : outcome AudioBuffer)
  | Ended.

(** One event of the browser's loop, for one mounted view that lists
    [scripts]: a listed script can be played, a pending request of the view
    can settle, a source the view started can end. *)
Inductive step (scripts : list SavedScript) : Config -> event -> Config -> Prop :=
  | step_play c script :
      script ∈ scripts ->
      step scripts c (Play script)
        {| view := (handlePlayVoice script (view c)).1;
           requests :=
             match (handlePlayVoice script (view c)).2 with
             | Some _ => script :: requests c
             | None => requests c
             end;
           unended := unended c |}
  | step_prepared c script prepared before after :
      requests c = before ++ script :: after ->
      step scripts c (Prepared script prepared)
        {| view := (handlePlayVoice_settled script prepared (view c)).1;
           requests := before ++ after;
           unended :=
             unended c
             + Playback.started (handlePlayVoice_settled script prepared (view c)).2 |}
  | step_ended c n :
      unended c = S n ->
      step scripts c Ended
        {| view := onended (view c); requests := requests c; unended := n |}.

Inductive reachable (scripts : list SavedScript) : Config -> Prop :=
  | reachable_initial : reachable scripts initial
  | reachable_step c e c' :
      reachable scripts c -> step scripts c e c' -> reachable scripts c'.

End LibraryPlayback.

(** ** App.tsx: what is rendered *)

Module AppView.

Import App.

(** The component under the tab bar, with its props. *)
Inductive screen :=
  | Generator (props : OutreachForm.Props)
  | Library (activeReferenceId : option js_string).

Definition render (st : App.State) : screen :=
  if decide (activeTab st = lit "create")
  then Generator {| OutreachForm.initialReference := selectedReference st |}
  else Library (id <$> selectedReference st).

End AppView.

(** ** components/TemplateManager.tsx *)

Module TemplateManager.

Definition TEMPLATES_KEY : js_string := lit "voice_note_templates".

(** [Partial<CustomTemplate>] as the editor holds it: the two inputs keep the
    name and the content strings; the id is there once [handleEdit] has put a
    stored template into the editor. *)
Record Draft := {
  draft_id : option js_string;
  draft_name : js_string;
  draft_content : js_string
}.

(** [{ name: '', content: '' }] *)
Definition blank_draft : Draft :=
  {| draft_id := None; draft_name := []; draft_content := [] |}.

Record Props := {
  activeTemplateId : option js_string
}.

Record State := {
  templates : list CustomTemplate;
  isEditing : bool;
  currentTemplate : Draft
}.

Definition initial_state : State :=
  {| templates := []; isEditing := false; currentTemplate := blank_draft |}.

(** The effect of the first render, as far as it concerns the list: a
    missing or empty item leaves it as it is; [None] is the [SyntaxError] of
    [JSON.parse]. The effect also calls [onSelect(null)]. *)
Definition mount `{JSONParser (list CustomTemplate)} (store : Storage)
    (st : State) : option State :=
  match getItem TEMPLATES_KEY store with
  | Some saved =>
      if truthy saved then
        parsed ← JSON_parse saved;
        Some {| templates := parsed; isEditing := isEditing st;
                currentTemplate := currentTemplate st |}
      else Some st
  | None => Some st
  end.

(** [saveTemplates] *)
Definition saveTemplates `{JSONCodec (list CustomTemplate)}
    (newTemplates : list CustomTemplate) (st : State) (store : Storage)
  : State * Storage :=
  ({| templates := newTemplates; isEditing := isEditing st;
      currentTemplate := currentTemplate st |},
   setItem TEMPLATES_KEY (JSON_stringify newTemplates) store).

(** [currentTemplate.id] when it is truthy. *)
Definition editing_id (current : Draft) : option js_string :=
  match draft_id current with
  | Some i => if truthy i then Some i else None
  | None => None
  end.

(** [currentTemplate as CustomTemplate], for a draft with the id [i]. *)
Definition as_template (i : js_string) (current : Draft) : CustomTemplate :=
  {| tpl_id := i; tpl_name := draft_name current;
     tpl_content := draft_content current |}.

(** [handleSave]; [now] is its reading of [Date.now()]. Beside the state and
    the store it yields the call of [onSelect] it makes, if any. *)
Definition handleSave `{JSONCodec (list CustomTemplate)} (now : Z)
    (st : State) (store : Storage)
  : State * Storage * option (option CustomTemplate) :=
  let current := currentTemplate st in
  if negb (truthy (draft_name current)) || negb (truthy (draft_content current))
  then (st, store, None)
  else
    let '(saved, selected) :=
      match editing_id current with
      | Some i =>
          let updated :=
            List.map (fun t => if decide (tpl_id t = i)
                               then as_template i current else t)
                     (templates st) in
          (saveTemplates updated st store, None)
      | None =>
          let newTemplate :=
            {| tpl_id := Number_toString now; tpl_name := draft_name current;
               tpl_content := draft_content current |} in
          (saveTemplates (templates st ++ [newTemplate]) st store,
           Some (Some newTemplate))
      end in
    ({| templates := templates saved.1; isEditing := false;
        currentTemplate := blank_draft |},
     saved.2, selected).

(** [handleDelete]; [confirmed] is the answer of the [confirm] dialog. *)
Definition handleDelete `{JSONCodec (list CustomTemplate)} (props : Props)
    (confirmed : bool) (target : js_string) (st : State) (store : Storage)
  : State * Storage * option (option CustomTemplate) :=
  if confirmed then
    let updated := filter (fun t => tpl_id t ≠ target) (templates st) in
    (saveTemplates updated st store,
     if decide (activeTemplateId props = Some target) then Some None else None)
  else (st, store, None).

(** [handleEdit] *)
Definition handleEdit (template : CustomTemplate) (st : State) : State :=
  {| templates := templates st; isEditing := true;
     currentTemplate :=
       {| draft_id := Some (tpl_id template);
          draft_name := tpl_name template;
          draft_content := tpl_content template |} |}.

(** The two inputs of the editor. *)
Definition setName (value : js_string) (st : State) : State :=
  {| templates := templates st; isEditing := isEditing st;
     currentTemplate :=
       {| draft_id := draft_id (currentTemplate st); draft_name := value;
          draft_content := draft_content (currentTemplate st) |} |}.

Definition setContent (value : js_string) (st : State) : State :=
  {| templates := templates st; isEditing := isEditing st;
     currentTemplate :=
       {| draft_id := draft_id (currentTemplate st);
          draft_name := draft_name (currentTemplate st);
          draft_content := value |} |}.

(** The button Create New, the button Cancel, and the cross that closes the
    editor and keeps the draft. *)
Definition openEditor (st : State) : State :=
  {| templates := templates st; isEditing := true;
     currentTemplate := blank_draft |}.

Definition cancel (st : State) : State :=
  {| templates := templates st; isEditing := false;
     currentTemplate := blank_draft |}.

Definition closeEditor (st : State) : State :=
  {| templates := templates st; isEditing := false;
     currentTemplate := currentTemplate st |}.

(** [initNewTemplate], the method the manager exposes to the form. *)
Definition initNewTemplate (content : js_string) (st : State) : State :=
  {| templates := templates st; isEditing := true;
     currentTemplate :=
       {| draft_id := None; draft_name := []; draft_content := content |} |}.

End TemplateManager.

(** ** The template manager inside the form *)

Module TemplateFlow.

Import OutreachForm TemplateManager.

(** [setActiveTemplate], the [onSelect] the form passes down. *)
Definition setActiveTemplate (template : option CustomTemplate)
    (st : OutreachForm.State) : OutreachForm.State :=
  {| formData := formData st; activeTemplate := template; result := result st;
     status := status st; errorMessage := errorMessage st;
     isSavedInLibrary := isSavedInLibrary st |}.

(** A handler's call of [onSelect], if it made one. *)
Definition on_select (selected : option (option CustomTemplate))
    (st : OutreachForm.State) : OutreachForm.State :=
  match selected with
  | Some template => setActiveTemplate template st
  | None => st
  end.

(** [activeTemplateId={activeTemplate?.id}] *)
Definition props_of (st : OutreachForm.State) : TemplateManager.Props :=
  {| activeTemplateId := tpl_id <$> activeTemplate st |}.

(** The form, the manager it renders, and storage. *)
Record Config := {
  parent : OutreachForm.State;
  manager : TemplateManager.State;
  storage : Storage
}.

Definition after (parent0 : OutreachForm.State)
    (out : TemplateManager.State * Storage * option (option CustomTemplate))
  : Config :=
  {| parent := on_select out.2 parent0; manager := out.1.1;
     storage := out.1.2 |}.

Inductive event :=
  | Select (k : nat)
  | SelectDefault
  | Save (now : Z)
  | Delete (confirmed : bool) (target : js_string)
  | Edit (k : nat)
  | New
  | Cancel
  | Close
  | InitNew (content : js_string)
  | TypeName (value : js_string)
  | TypeContent (value : js_string)
  | FormField (field : field_key) (value : js_string).

(** One click or keystroke. A template is selected, edited or deleted
    through its chip in the list, so only a listed one can be. *)
Inductive step `{JSONCodec (list CustomTemplate)} : Config -> event -> Config -> Prop :=
  | step_select c k template :
      templates (manager c) !! k = Some template ->
      step c (Select k)
        {| parent := setActiveTemplate (Some template) (parent c);
           manager := manager c; storage := storage c |}
  | step_select_default c :
      step c SelectDefault
        {| parent := setActiveTemplate None (parent c);
           manager := manager c; storage := storage c |}
  | step_save c now :
      step c (Save now)
        (after (parent c) (handleSave now (manager c) (storage c)))
  | step_delete c confirmed k template :
      templates (manager c) !! k = Some template ->
      step c (Delete confirmed (tpl_id template))
        (after (parent c)
           (handleDelete (props_of (parent c)) confirmed (tpl_id template)
              (manager c) (storage c)))
  | step_edit c k template :
      templates (manager c) !! k = Some template ->
      step c (Edit k)
        {| parent := parent c; manager := handleEdit template (manager c);
           storage := storage c |}
  | step_new c :
      step c New
        {| parent := parent c; manager := openEditor (manager c);
           storage := storage c |}
  | step_cancel c :
      step c Cancel
        {| parent := parent c; manager := cancel (manager c);
           storage := storage c |}
  | step_close c :
      step c Close
        {| parent := parent c; manager := closeEditor (manager c);
           storage := storage c |}
  | step_init_new c content :
      step c (InitNew content)
        {| parent := parent c; manager := initNewTemplate content (manager c);
           storage := storage c |}
  | step_name c value :
      step c (TypeName value)
        {| parent := parent c; manager := setName value (manager c);
           storage := storage c |}
  | step_content c value :
      step c (TypeContent value)
        {| parent := parent c; manager := setContent value (manager c);
           storage := storage c |}
  | step_field c field value :
      step c (FormField field value)
        {| parent := updateField field value (parent c);
           manager := manager c; storage := storage c |}.

(** The form as it is once the manager has mounted on [store]: the list is
    the stored one and the effect has called [onSelect(null)]. *)
Inductive mounted `{JSONCodec (list CustomTemplate)} (store : Storage)
  : Config -> Prop :=
  | mounted_intro parent0 st :
      mount store TemplateManager.initial_state = Some st ->
      mounted store
        {| parent := setActiveTemplate None parent0; manager := st;
           storage := store |}.

Inductive reachable `{JSONCodec (list CustomTemplate)} (store : Storage)
  : Config -> Prop :=
  | reachable_mounted c : mounted store c -> reachable store c
  | reachable_step c e c' :
      reachable store c -> step c e c' -> reachable store c'.

End TemplateFlow.

(** ** The vocabulary of the further properties *)

Section MoreVocabulary.

Import GeminiService OutreachForm.

(** An angle bracket. *)
Definition is_angle_bracket (c : N) : Prop := c = 60%N \/ c = 62%N.

(** How the prompt of [generateVoiceNote] labels a research field. *)
Definition context_label (f : required_field) : js_string :=
  match f with
  | R_ownerName => lit "    - Owner: "
  | R_businessName => lit "    - Business: "
  | R_identifiedGap => lit "    - Gap: "
  | R_freeValue => lit "    - Free Value: "
  end.

(** A text without angle brackets. *)
Definition bracket_free (s : js_string) : Prop :=
  Forall (fun c => c <> 60%N /\ c <> 62%N) s.

(** No bracketed marker is left in [s]: wherever a bracket opens, no closing
    bracket follows on the same line. *)
Definition marker_free (s : js_string) : Prop :=
  forall before after, s = before ++ 91%N :: after -> marker_rest after = None.

(** An ASCII text. *)
Definition ascii_text (s : js_string) : Prop := Forall (fun c => (c < 128)%N) s.

(** [t] occurs in [s]. *)
Definition occurs_in (t s : js_string) : Prop :=
  exists before after, s = before ++ t ++ after.

(** The templates under the templates key, as the manager reads them on
    mount: the empty list for a missing or empty item. *)
Definition read_templates `{JSONParser (list CustomTemplate)} (store : Storage)
  : option (list CustomTemplate) :=
  match getItem TemplateManager.TEMPLATES_KEY store with
  | Some saved => if truthy saved then JSON_parse saved else Some []
  | None => Some []
  end.

(** What the flags of the play button say about the world outside: a speech
    request is pending exactly while [ttsLoading], a source is sounding
    exactly while [isPlaying], the ref holds that source, and the two flags
    are never up together. *)
Definition playback_invariant (c : Playback.Config) : Prop :=
  Playback.requests c = (if Playback.ttsLoading (Playback.view c) then 1 else 0)
  /\ Playback.unended c = (if Playback.isPlaying (Playback.view c) then 1 else 0)
  /\ (Playback.isPlaying (Playback.view c) = false ->
      Playback.activeSourceRef (Playback.view c) = None)
  /\ (Playback.ttsLoading (Playback.view c) = true ->
      Playback.isPlaying (Playback.view c) = false).

(** The form's active template is one of the listed ones, by its id, and
    storage holds the list the manager shows. *)
Definition template_invariant `{JSONParser (list CustomTemplate)}
    (c : TemplateFlow.Config) : Prop :=
  read_templates (TemplateFlow.storage c)
  = Some (TemplateManager.templates (TemplateFlow.manager c))
  /\ forall active,
       activeTemplate (TemplateFlow.parent c) = Some active ->
       tpl_id active
       ∈ tpl_id <$> TemplateManager.templates (TemplateFlow.manager c).

(** While a script is loading or playing in the library, nothing else is:
    the id in the view is that of the one script concerned. *)
Definition library_playback_invariant (c : LibraryPlayback.Config) : Prop :=
  match LibraryPlayback.requests c, LibraryPlayback.unended c with
  | [], 0 =>
      LibraryPlayback.loadingId (LibraryPlayback.view c) = None
      /\ LibraryPlayback.playingId (LibraryPlayback.view c) = None
  | [script], 0 =>
      LibraryPlayback.loadingId (LibraryPlayback.view c) = Some (id script)
      /\ truthy (id script) = true
      /\ LibraryPlayback.playingId (LibraryPlayback.view c) = None
  | [], 1 =>
      LibraryPlayback.loadingId (LibraryPlayback.view c) = None
      /\ LibraryPlayback.is_set (LibraryPlayback.playingId (LibraryPlayback.view c))
         = true
  | _, _ => False
  end.

(** A run of actions on [App]. *)
Definition run_actions `{JSONCodec (option SavedScript)}
    (actions : list App.action) (ss : App.State * Storage)
  : App.State * Storage :=
  foldl (fun s a => App.step a s) ss actions.

(** The tabs the user can switch to are not the empty string. *)
Definition names_tab (a : App.action) : Prop :=
  match a with
  | App.SwitchTab tab => truthy tab = true
  | _ => True
  end.

End MoreVocabulary.

(** ** A codec for the templates *)

Module TemplateCodec.

Import ReferenceCodec.

Definition put_template (t : CustomTemplate) : js_string :=
  put_string (tpl_id t) ++ put_string (tpl_name t) ++ put_string (tpl_content t).

Definition get_template (t : js_string) : option (CustomTemplate * js_string) :=
  '(i, t) ← get_string t;
  '(n, t) ← get_string t;
  '(c, t) ← get_string t;
  Some ({| tpl_id := i; tpl_name := n; tpl_content := c |}, t).

Fixpoint get_templates (n : nat) (t : js_string)
  : option (list CustomTemplate * js_string) :=
  match n with
  | O => Some ([], t)
  | S n' =>
      '(s, t) ← get_template t;
      '(l, t) ← get_templates n' t;
      Some (s :: l, t)
  end.

Definition stringify_templates (l : list CustomTemplate) : js_string :=
  91%N :: N.of_nat (length l) :: flat_map put_template l ++ [93%N].

Definition parse_templates (t : js_string) : option (list CustomTemplate) :=
  match t with
  | 91%N :: n :: r =>
      match get_templates (N.to_nat n) r with
      | Some (l, [93%N]) => Some l
      | _ => None
      end
  | _ => None
  end.

End TemplateCodec.

(** ** Further concrete inputs *)

Section MoreInputs.

Import GeminiService OutreachForm.

(** The workflow after the user has filled the form and pressed the button
    once. *)
Definition once_pressed : Workflow.Config :=
  {| Workflow.form := (handleGenerate blank_props filled_form).1;
     Workflow.in_flight := 1 |}.

(** A form on which the owner name is a pair of angle brackets. *)
Definition bracket_owner_form : OutreachForm.State :=
  updateField F_ownerName (lit " <> ") filled_form.

(** A template whose content holds markup. *)
Definition markup_template : CustomTemplate :=
  {| tpl_id := lit "1700000100000"; tpl_name := lit "Markup";
     tpl_content := lit "Hi <b>[ownerName]</b>" |}.

(** The text of a response inside its code fence: a line break, an empty
    object, a line break. *)
Definition fenced_body : js_string := [10%N] ++ lit "{}" ++ [10%N].

(** A stored script whose id is the empty string. *)
Definition nameless_script : SavedScript :=
  {| id := []; title := lit "Old @ Entry"; content := lit "[0-5s] Hi";
     ss_ownerName := lit "Old"; ss_businessName := lit "Entry";
     createdAt := 0 |}.

(** The library view after the play button of the first of two scripts was
    pressed. *)
Definition library_play_pressed : LibraryPlayback.Config :=
  {| LibraryPlayback.view :=
       {| LibraryPlayback.loadingId := Some (lit "1700000500000");
          LibraryPlayback.playingId := None |};
     LibraryPlayback.requests := [anna_script];
     LibraryPlayback.unended := 0 |}.

(** The form with a generated script, after the play button was pressed. *)
Definition play_pressed : Playback.Config :=
  {| Playback.view :=
       (Playback.handlePlayTTS
          {| Playback.form := generated_form; Playback.ttsLoading := false;
             Playback.isPlaying := false; Playback.activeSourceRef := None |}).1;
     Playback.requests := 1; Playback.unended := 0 |}.

(** Two stored templates. *)
Definition intro_template : CustomTemplate :=
  {| tpl_id := lit "1700000200000"; tpl_name := lit "Intro";
     tpl_content := lit "Hey [ownerName], loved [businessName]." |}.

Definition template_store : Storage :=
  setItem TemplateManager.TEMPLATES_KEY
    (TemplateCodec.stringify_templates [markup_template; intro_template]) ∅.

(** The manager as it shows the two templates after mounting. *)
Definition two_templates_shown : TemplateManager.State :=
  {| TemplateManager.templates := [markup_template; intro_template];
     TemplateManager.isEditing := false;
     TemplateManager.currentTemplate := TemplateManager.blank_draft |}.

(** The manager with the first template in the editor under a new
    content. *)
Definition editing_markup : TemplateManager.State :=
  TemplateManager.setContent (lit "Hi [ownerName]")
    (TemplateManager.handleEdit markup_template two_templates_shown).

(** The manager with a new template typed into the editor. *)
Definition drafting_new : TemplateManager.State :=
  TemplateManager.setContent (lit "Quick one, [ownerName]?")
    (TemplateManager.setName (lit "Quick")
       (TemplateManager.openEditor two_templates_shown)).

(** The form and the manager once mounted on the two templates, and after
    the first template was selected. *)
Definition templates_mounted : TemplateFlow.Config :=
  {| TemplateFlow.parent := TemplateFlow.setActiveTemplate None filled_form;
     TemplateFlow.manager := two_templates_shown;
     TemplateFlow.storage := template_store |}.

Definition markup_selected : TemplateFlow.Config :=
  {| TemplateFlow.parent :=
       TemplateFlow.setActiveTemplate (Some markup_template)
         (TemplateFlow.parent templates_mounted);
     TemplateFlow.manager := two_templates_shown;
     TemplateFlow.storage := template_store |}.

End MoreInputs.

(** * Properties *)

(** ** Strings: trimming, splitting, counting words *)

Section Strings.

Implicit Types (s t : js_string) (c : N).

Lemma trimStart_head s :
  trimStart s = [] \/
  exists c r, trimStart s = c :: r /\ is_whitespace c = false.
Proof.
  induction s as [|c r IH]; simpl; [by left|].
  destruct (is_whitespace c) eqn:Hc; [exact IH|].
  right. by exists c, r.
Qed.

Lemma trimEnd_cons_inv c r :
  trimEnd (c :: r) = c :: r ->
  (r = [] /\ is_whitespace c = false) \/ (r <> [] /\ trimEnd r = r).
Proof.
  simpl. destruct (trimEnd r) as [|n l] eqn:E.
  - destruct (is_whitespace c) eqn:Hc; [discriminate|].
    intros [= <-]. by left.
  - intros [= <-]. right. split; [discriminate | reflexivity].
Qed.

Lemma trimEnd_idemp s : trimEnd (trimEnd s) = trimEnd s.
Proof.
  induction s as [|c r IH]; [reflexivity|].
  simpl. destruct (trimEnd r) as [|n l] eqn:E.
  - destruct (is_whitespace c) eqn:Hc; [reflexivity|].
    simpl. by rewrite Hc.
  - change (trimEnd (c :: n :: l)) with
      (match trimEnd (n :: l) with
       | [] => if is_whitespace c then [] else [c]
       | t => c :: t
       end).
    by rewrite IH.
Qed.

Lemma trimEnd_keeps_head c r :
  is_whitespace c = false -> exists r', trimEnd (c :: r) = c :: r'.
Proof.
  intros Hc. simpl. destruct (trimEnd r) as [|n l].
  - rewrite Hc. by exists [].
  - by exists (n :: l).
Qed.

Lemma count_words_trimStart s :
  count_words_from false (trimStart s) = count_words_from false s.
Proof.
  induction s as [|c r IH]; [reflexivity|].
  simpl. destruct (is_whitespace c) eqn:Hc; [exact IH|].
  simpl. by rewrite Hc.
Qed.

Lemma count_words_trimEnd s b :
  count_words_from b (trimEnd s) = count_words_from b s.
Proof.
  revert b. induction s as [|c r IH]; intros b; [reflexivity|].
  simpl. destruct (trimEnd r) as [|n l] eqn:E.
  - destruct (is_whitespace c) eqn:Hc.
    + by rewrite <- IH.
    + simpl. rewrite Hc. by rewrite <- (IH true).
  - change (count_words_from b (c :: n :: l)) with
      (if is_whitespace c then count_words_from false (n :: l)
       else ((if b then 0 else 1) + count_words_from true (n :: l))%nat).
    by rewrite !IH.
Qed.

Lemma count_words_trim s : count_words (trim s) = count_words s.
Proof.
  unfold count_words, trim.
  by rewrite count_words_trimEnd, count_words_trimStart.
Qed.

(** On a text that does not end in white space, the pieces of the split are
    the words: one more piece than words when the reader is inside a word,
    as many when it is inside a separator. *)
Lemma split_ws_pieces s :
  s <> [] -> trimEnd s = s ->
  forall cur,
    length (split_ws_from true cur s) = count_words_from false s /\
    length (split_ws_from false cur s) = S (count_words_from true s).
Proof.
  induction s as [|c r IH]; [done|].
  intros _ Hfix cur.
  destruct (trimEnd_cons_inv _ _ Hfix) as [[-> Hc] | [Hr Hfix']].
  - simpl. by rewrite Hc.
  - simpl. destruct (is_whitespace c).
    + destruct (IH Hr Hfix' cur) as [IH1 _].
      destruct (IH Hr Hfix' []) as [IH2 _].
      simpl. by rewrite IH1, IH2.
    + destruct (IH Hr Hfix' (c :: cur)) as [_ IH2].
      by rewrite IH2.
Qed.

(** [s.trim().split(/\s+/).length] is the number of words of [s], except that
    a text without any word still gives one (empty) piece. *)
Lemma split_trim_length s :
  length (split_ws (trim s)) = Nat.max 1 (count_words s).
Proof.
  rewrite <- (count_words_trim s). unfold split_ws, count_words, trim.
  destruct (trimStart_head s) as [-> | (c & r & -> & Hc)]; [reflexivity|].
  destruct (trimEnd_keeps_head c r Hc) as [r' Hr'].
  assert (Hfix : trimEnd (c :: r') = c :: r')
    by (rewrite <- Hr'; apply trimEnd_idemp).
  rewrite Hr'.
  destruct (split_ws_pieces (c :: r') ltac:(done) Hfix []) as [_ ->].
  simpl. rewrite Hc. simpl. lia.
Qed.

(** The equation of [strip_markers] at a non-empty text: at an opening
    bracket that closes, stripping goes on after the closing bracket. *)
Lemma strip_markers_cons c (r : js_string) :
  strip_markers (c :: r) =
  if (c =? 91)%N then
    match marker_rest r with
    | Some rest => strip_markers rest
    | None => c :: strip_markers r
    end
  else c :: strip_markers r.
Proof.
  simpl. destruct (c =? 91)%N; [|reflexivity].
  match goal with
  | |- match ?f r with _ => _ end = _ =>
      assert (Hfix : forall t, f t = strip_markers <$> marker_rest t)
  end.
  { induction t as [|d t' IH]; [reflexivity|].
    simpl. destruct (d =? 93)%N; [reflexivity|].
    destruct (is_line_terminator d); [reflexivity | exact IH]. }
  rewrite Hfix. by destruct (marker_rest r).
Qed.

Lemma marker_rest_closed (m rest : js_string) :
  Forall (fun c => c <> 93%N /\ is_line_terminator c = false) m ->
  marker_rest (m ++ 93%N :: rest) = Some rest.
Proof.
  induction 1 as [|d m' [Hd1 Hd2] _ IH]; simpl; [reflexivity|].
  destruct (N.eqb_spec d 93); [done|]. by rewrite Hd2.
Qed.

Lemma strip_markers_marker (m rest : js_string) :
  Forall (fun c => c <> 93%N /\ is_line_terminator c = false) m ->
  strip_markers (91%N :: m ++ 93%N :: rest) = strip_markers rest.
Proof.
  intros Hm. rewrite strip_markers_cons. simpl.
  by rewrite marker_rest_closed.
Qed.

(** A marker is removed whole: the text before it is kept as long as it has
    no opening bracket of its own, and stripping goes on after it. *)
Lemma strip_markers_app_marker (before m rest : js_string) :
  Forall (fun c => c <> 91%N) before ->
  Forall (fun c => c <> 93%N /\ is_line_terminator c = false) m ->
  strip_markers (before ++ 91%N :: m ++ 93%N :: rest)
  = before ++ strip_markers rest.
Proof.
  intros Hb Hm. induction Hb as [|c r Hc _ IH].
  - by apply strip_markers_marker.
  - change ((c :: r) ++ 91%N :: m ++ 93%N :: rest)
      with (c :: (r ++ 91%N :: m ++ 93%N :: rest)).
    simpl. destruct (N.eqb_spec c 91); [done|]. by rewrite IH.
Qed.

End Strings.

(** ** Timing markers, the duration estimate and its buckets *)

Section Duration.

Import OutreachForm GeminiService.

(** The estimate is a function of the words left after stripping: the single
    empty piece of a script without words rounds to 0 seconds like no word
    at all, and so does the early exit on an empty script. *)
Lemma estimatedDuration_count_words (r : VoiceNoteResult) :
  estimatedDuration (Some r)
  = Math_round (inject_Z (Z.of_nat (count_words (strip_markers (script r)))) / 140 * 60).
Proof.
  unfold estimatedDuration.
  destruct (truthy (script r)) eqn:Hs.
  - cbv zeta. rewrite split_trim_length.
    destruct (count_words (strip_markers (script r))) as [|n] eqn:Hw.
    + reflexivity.
    + by replace (Nat.max 1 (S n)) with (S n) by lia.
  - destruct (script r); [reflexivity | discriminate].
Qed.

Lemma durationStatus_cases (d : Z) :
  (durationStatus d = TooShort <-> (d < 30)%Z)
  /\ (durationStatus d = PerfectLength <-> (30 <= d <= 55)%Z)
  /\ (durationStatus d = ABitLong <-> (55 < d)%Z).
Proof.
  unfold durationStatus.
  destruct (Z.ltb_spec d 30), (Z.leb_spec d 55);
    repeat split; intros; try discriminate; try lia; reflexivity.
Qed.

(** C3, as the specification words it, fails: with the two markers gone the
    spaces that surrounded them are still there, so neither the stripped text
    nor the trimmed text handed to speech synthesis is the single-spaced
    sentence. *)
Lemma strip_markers_example_keeps_spaces :
  strip_markers example_script <> lit "Hey Mike, saw your site"
  /\ trim (strip_markers example_script) <> lit "Hey Mike, saw your site".
Proof. split; vm_compute; discriminate. Qed.

(** C3, amended: stripping the example removes exactly the two bracketed
    markers and keeps every space; speech synthesis is sent the trimmed
    result, with two spaces after the comma; the duration estimate counts its
    five words. In general a marker (a bracketed span without a closing
    bracket or line break inside) is removed whole and the text before it is
    kept; and both uses go through the same stripping, so two scripts that
    strip to the same text get the same speech request and the same
    estimate. *)
Theorem strip_markers_example_and_uses
    (before marker rest text1 text2 followUp1 followUp2 : js_string)
    (voice : js_value) (tone : js_string) :
  Forall (fun c => c <> 91%N) before ->
  Forall (fun c => c <> 93%N /\ is_line_terminator c = false) marker ->
  strip_markers text1 = strip_markers text2 ->
  strip_markers example_script = lit " Hey Mike,  saw your site"
  /\ speech_prompt (generateSpeech_request example_script voice tone)
     = lit "Voice this script in a " ++ toLowerCase tone ++ lit " tone: "
       ++ [34%N] ++ lit "Hey Mike,  saw your site" ++ [34%N]
  /\ split_ws (trim (strip_markers example_script))
     = [lit "Hey"; lit "Mike,"; lit "saw"; lit "your"; lit "site"]
  /\ strip_markers (before ++ 91%N :: marker ++ 93%N :: rest)
     = before ++ strip_markers rest
  /\ generateSpeech_request text1 voice tone
     = generateSpeech_request text2 voice tone
  /\ estimatedDuration (Some {| script := text1; followUp := followUp1 |})
     = estimatedDuration (Some {| script := text2; followUp := followUp2 |}).
Proof.
  intros Hbefore Hmarker Heq.
  split; [reflexivity|]. split; [reflexivity|]. split; [reflexivity|].
  split; [by apply strip_markers_app_marker|]. split.
  - unfold generateSpeech_request. by rewrite Heq.
  - rewrite !estimatedDuration_count_words. simpl. by rewrite Heq.
Qed.

Lemma strip_markers_example_and_uses_witness :
  strip_markers (lit "Hi " ++ 91%N :: lit "0-5s" ++ 93%N :: lit " there")
  = lit "Hi " ++ strip_markers (lit " there")
  /\ generateSpeech_request (lit "[0-5s] Hi") (Str (lit "Puck")) (lit "Casual")
     = generateSpeech_request (lit "[intro] Hi") (Str (lit "Puck")) (lit "Casual")
  /\ estimatedDuration (Some {| script := lit "[0-5s] Hi"; followUp := [] |})
     = estimatedDuration (Some {| script := lit "[intro] Hi"; followUp := [] |}).
Proof.
  apply (strip_markers_example_and_uses (lit "Hi ") (lit "0-5s") (lit " there")
           (lit "[0-5s] Hi") (lit "[intro] Hi") [] []
           (Str (lit "Puck")) (lit "Casual")).
  - repeat constructor; discriminate.
  - repeat constructor; discriminate.
  - reflexivity.
Defined.

(** C4: the estimate is the number of words left after stripping the markers,
    divided by 140 and multiplied by 60, rounded; 56 words give 24 seconds
    and the bucket Too Short, 120 words 51 seconds and Perfect Length, 160
    words 69 seconds and A Bit Long; the three buckets split the estimates at
    30 and 55 seconds without overlap. *)
Theorem estimatedDuration_buckets (r : VoiceNoteResult) (w : nat) :
  count_words (strip_markers (script r)) = w ->
  estimatedDuration (Some r) = Math_round (inject_Z (Z.of_nat w) / 140 * 60)
  /\ (w = 56 ->
      estimatedDuration (Some r) = 24%Z
      /\ durationStatus (estimatedDuration (Some r)) = TooShort)
  /\ (w = 120 ->
      estimatedDuration (Some r) = 51%Z
      /\ durationStatus (estimatedDuration (Some r)) = PerfectLength)
  /\ (w = 160 ->
      estimatedDuration (Some r) = 69%Z
      /\ durationStatus (estimatedDuration (Some r)) = ABitLong)
  /\ (forall d,
        (durationStatus d = TooShort <-> (d < 30)%Z)
        /\ (durationStatus d = PerfectLength <-> (30 <= d <= 55)%Z)
        /\ (durationStatus d = ABitLong <-> (55 < d)%Z)).
Proof.
  intros Hw. rewrite estimatedDuration_count_words, Hw.
  split; [reflexivity|].
  split; [intros ->; split; reflexivity|].
  split; [intros ->; split; reflexivity|].
  split; [intros ->; split; reflexivity|].
  apply durationStatus_cases.
Qed.

Lemma estimatedDuration_buckets_witness :
  (estimatedDuration (Some (script_of_words 56)) = 24%Z
   /\ durationStatus (estimatedDuration (Some (script_of_words 56))) = TooShort)
  /\ (estimatedDuration (Some (script_of_words 120)) = 51%Z
      /\ durationStatus (estimatedDuration (Some (script_of_words 120))) = PerfectLength)
  /\ (estimatedDuration (Some (script_of_words 160)) = 69%Z
      /\ durationStatus (estimatedDuration (Some (script_of_words 160))) = ABitLong).
Proof.
  split; [|split].
  - apply (estimatedDuration_buckets (script_of_words 56) 56); reflexivity.
  - apply (estimatedDuration_buckets (script_of_words 120) 120); reflexivity.
  - apply (estimatedDuration_buckets (script_of_words 160) 160); reflexivity.
Defined.

End Duration.

(** ** The form controller: validation and the re-entrancy guard *)

Section Validation.

Import OutreachForm.

Implicit Types (st : OutreachForm.State) (props : Props) (f g : required_field).

Lemma validate_loop_find fields st :
  validate_loop fields st =
  match List.find (fun f => field_invalid (required_value f (formData st))) fields with
  | Some g => (false, setErrorMessage (Some (validation_message g)) st)
  | None => (true, st)
  end.
Proof.
  induction fields as [|f rest IH]; [reflexivity|].
  simpl. by destruct (field_invalid (required_value f (formData st))).
Qed.

Lemma first_invalid_exists (fd : VoiceNoteInput) f :
  field_invalid (required_value f fd) = true ->
  exists g, first_invalid fd = Some g.
Proof.
  intros Hf. unfold first_invalid.
  destruct (List.find _ requiredFields) as [g|] eqn:Hfind; [by exists g|].
  assert (Hin : In f requiredFields) by (destruct f; simpl; auto).
  pose proof (List.find_none _ _ Hfind f Hin) as Hnone. cbv beta in Hnone.
  rewrite Hf in Hnone. discriminate Hnone.
Qed.

(** The four messages, as the user reads them. *)
Lemma validation_message_texts :
  validation_message R_ownerName = lit "Please provide a valid value for owner name."
  /\ validation_message R_businessName = lit "Please provide a valid value for business name."
  /\ validation_message R_identifiedGap = lit "Please provide a valid value for identified gap."
  /\ validation_message R_freeValue = lit "Please provide a valid value for free value.".
Proof. repeat split. Qed.

Lemma validation_message_inj f g :
  validation_message f = validation_message g -> f = g.
Proof. destruct f, g; intros H; try reflexivity; vm_compute in H; discriminate H. Qed.

(** A field is rejected exactly when it trims to fewer than two units. *)
Lemma field_invalid_trim (v : js_string) :
  field_invalid v = true <-> length (trim v) < 2.
Proof.
  unfold field_invalid. destruct v as [|c r].
  - simpl. split; [lia | reflexivity].
  - simpl negb. rewrite orb_false_l. apply Nat.ltb_lt.
Qed.

Lemma handleGenerate_loading props st :
  status st = LOADING -> handleGenerate props st = (st, None).
Proof. intros H. unfold handleGenerate. by rewrite H. Qed.

Lemma handleGenerate_not_loading props st :
  status st <> LOADING ->
  handleGenerate props st =
  match first_invalid (formData st) with
  | Some g => (setErrorMessage (Some (validation_message g)) st, None)
  | None =>
      (setResult None (setStatus LOADING (setErrorMessage None st)),
       Some {| call_input := formData st;
               call_template := activeTemplate st;
               call_reference := initialReference props |})
  end.
Proof.
  intros H. unfold handleGenerate, validateFields.
  rewrite validate_loop_find. unfold first_invalid. simpl formData.
  destruct (status st); try done;
    by destruct (List.find _ requiredFields).
Qed.

(** C1, as the specification words it, fails: while a generation is loading
    the guard returns before validating, so a form with an empty owner name
    gets no message at all. *)
Lemma handleGenerate_loading_surfaces_no_message :
  ~ (forall props st f,
       length (trim (required_value f (formData st))) < 2 ->
       exists g, errorMessage (handleGenerate props st).1
                 = Some (validation_message g)).
Proof.
  intros H.
  destruct (H blank_props (setStatus LOADING initial_state) R_ownerName)
    as [g Hg].
  - simpl. lia.
  - discriminate Hg.
Qed.

(** C1, amended: when one of the four required fields is empty or trims to
    fewer than two characters, invoking generation never calls the backend
    and leaves the status, the form and the result as they were; unless the
    status is Loading it also sets the message of the first such field, and
    the four messages differ from field to field; while Loading the
    invocation changes nothing. *)
Theorem handleGenerate_invalid_field props st f :
  length (trim (required_value f (formData st))) < 2 ->
  (handleGenerate props st).2 = None
  /\ status (handleGenerate props st).1 = status st
  /\ formData (handleGenerate props st).1 = formData st
  /\ result (handleGenerate props st).1 = result st
  /\ (status st <> LOADING ->
      exists g, first_invalid (formData st) = Some g
                /\ length (trim (required_value g (formData st))) < 2
                /\ errorMessage (handleGenerate props st).1
                   = Some (validation_message g))
  /\ (status st = LOADING -> (handleGenerate props st).1 = st)
  /\ (forall g g', validation_message g = validation_message g' -> g = g').
Proof.
  intros Hf. apply field_invalid_trim in Hf.
  destruct (first_invalid_exists _ _ Hf) as [g Hg].
  assert (Hinv : length (trim (required_value g (formData st))) < 2).
  { apply field_invalid_trim. unfold first_invalid in Hg.
    by apply List.find_some in Hg as [_ Hg]. }
  destruct (decide (status st = LOADING)) as [Hl | Hl].
  - rewrite (handleGenerate_loading _ _ Hl). simpl.
    repeat split; try done. apply validation_message_inj.
  - rewrite (handleGenerate_not_loading _ _ Hl), Hg. simpl.
    repeat split; try done.
    + intros _. by exists g.
    + apply validation_message_inj.
Qed.

Lemma handleGenerate_invalid_field_witness :
  (handleGenerate blank_props short_owner_form).2 = None
  /\ status (handleGenerate blank_props short_owner_form).1 = IDLE
  /\ errorMessage (handleGenerate blank_props short_owner_form).1
     = Some (lit "Please provide a valid value for owner name.").
Proof.
  pose proof (handleGenerate_invalid_field blank_props short_owner_form
                R_ownerName ltac:(simpl; lia))
    as (Hcall & Hstatus & _ & _ & Hmsg & _).
  split; [exact Hcall|]. split; [exact Hstatus|].
  destruct (Hmsg ltac:(discriminate)) as (g & Hg & _ & ->).
  vm_compute in Hg. by injection Hg as <-.
Defined.

End Validation.

(** ** At most one generation call in flight *)

Section SingleFlight.

Import OutreachForm Workflow.

Lemma status_handleGenerate_settled settled st :
  status (handleGenerate_settled settled st) <> LOADING.
Proof. by destruct settled as [[data|]|]. Qed.

Lemma status_handleGenerate props st :
  status (handleGenerate props st).1 =
  match (handleGenerate props st).2 with
  | Some _ => LOADING
  | None => status st
  end.
Proof.
  destruct (decide (status st = LOADING)) as [Hl | Hl].
  - by rewrite (handleGenerate_loading _ _ Hl).
  - rewrite (handleGenerate_not_loading _ _ Hl).
    by destruct (first_invalid (formData st)).
Qed.

Lemma flight_invariant_step props c e c' :
  flight_invariant c -> step props c e c' -> flight_invariant c'.
Proof.
  unfold flight_invariant. intros Hc Hstep.
  destruct Hstep as [c | c settled n Hn | c field value | c | c settled]; simpl.
  - rewrite status_handleGenerate.
    destruct (decide (status (form c) = LOADING)) as [Hl | Hl].
    + rewrite (handleGenerate_loading _ _ Hl). simpl. by rewrite Hc, Hl.
    + destruct ((handleGenerate props (form c)).2).
      * rewrite Hc. by destruct (status (form c)).
      * exact Hc.
  - pose proof (status_handleGenerate_settled settled (form c)) as Hs.
    assert (n = 0) as ->.
    { rewrite Hn in Hc. destruct (status (form c)); lia. }
    by destruct (status (handleGenerate_settled settled (form c))).
  - exact Hc.
  - exact Hc.
  - by destruct settled.
Qed.

Lemma flight_invariant_reachable props c :
  reachable props c -> flight_invariant c.
Proof.
  induction 1 as [|c e c' _ IH Hstep]; [reflexivity|].
  by eapply flight_invariant_step.
Qed.

(** C9: while the status is Loading, invoking generation starts no backend
    call and returns the state as it was (status, result, form and all); and
    in every state the workflow can reach, a call is in flight exactly when
    the status is Loading, so never more than one. *)
Theorem handleGenerate_loading_single_flight props st c :
  status st = LOADING ->
  reachable props c ->
  handleGenerate props st = (st, None)
  /\ in_flight c <= 1
  /\ (in_flight c = 1 <-> status (form c) = LOADING).
Proof.
  intros Hl Hc. split; [by apply handleGenerate_loading|].
  apply flight_invariant_reachable in Hc. unfold flight_invariant in Hc.
  rewrite Hc. destruct (status (form c)); repeat split; try lia; done.
Qed.

Lemma twice_pressed_reachable : reachable blank_props twice_pressed.
Proof.
  pose proof (reachable_initial blank_props) as H0.
  pose proof (reachable_step _ _ _ _ H0
                (step_update blank_props _ F_ownerName (lit "Mike"))) as H1.
  pose proof (reachable_step _ _ _ _ H1
                (step_update blank_props _ F_businessName (lit "Peak Fitness"))) as H2.
  pose proof (reachable_step _ _ _ _ H2
                (step_update blank_props _ F_identifiedGap (lit "Landing page copy"))) as H3.
  pose proof (reachable_step _ _ _ _ H3
                (step_update blank_props _ F_freeValue (lit "Rewrote the page"))) as H4.
  pose proof (reachable_step _ _ _ _ H4 (step_generate blank_props _)) as H5.
  pose proof (reachable_step _ _ _ _ H5 (step_generate blank_props _)) as H6.
  exact H6.
Defined.

Lemma handleGenerate_loading_single_flight_witness :
  handleGenerate blank_props (handleGenerate blank_props filled_form).1
  = ((handleGenerate blank_props filled_form).1, None)
  /\ in_flight twice_pressed <= 1
  /\ (in_flight twice_pressed = 1 <-> status (form twice_pressed) = LOADING).
Proof.
  apply (handleGenerate_loading_single_flight blank_props
           (handleGenerate blank_props filled_form).1 twice_pressed).
  - reflexivity.
  - exact twice_pressed_reachable.
Defined.

End SingleFlight.

(** ** Tone and voice persona *)

Section Persona.

Import OutreachForm.

Implicit Types (st : OutreachForm.State) (value v : js_string) (field : field_key).

Lemma TONE_VOICE_MAP_unmapped value :
  value ∉ mapped_tones -> TONE_VOICE_MAP !! value = None.
Proof.
  intros H. unfold TONE_VOICE_MAP, mapped_tones in *.
  rewrite !not_elem_of_cons in H. destruct H as (H1 & H2 & H3 & H4 & _).
  by rewrite !lookup_insert_ne, lookup_empty.
Qed.

Lemma persona_updateField_other field value st :
  field <> F_tone -> field <> F_selectedVoice ->
  persona (updateField field value st) = persona st.
Proof. by destruct field. Qed.

Lemma persona_updateField_tone value st :
  persona (updateField F_tone value st)
  = value_or (get_property TONE_VOICE_MAP value) (lit "Zephyr").
Proof. reflexivity. Qed.

Lemma persona_apply_updates updates : forall st v,
  Forall (fun u => u.1 <> F_tone) updates ->
  persona st = Str v ->
  persona (apply_updates updates st) = Str (last_manual_choice v updates).
Proof.
  induction updates as [|[field value] rest IH]; intros st v Hall Hst.
  - exact Hst.
  - apply Forall_cons in Hall as [Hne Hrest]. simpl in Hne.
    unfold apply_updates, last_manual_choice. simpl.
    apply IH; [exact Hrest|].
    destruct (decide (field = F_selectedVoice)) as [-> | Hns].
    + reflexivity.
    + rewrite persona_updateField_other by done.
      rewrite Hst. by destruct field.
Qed.

Lemma last_manual_choice_other v updates :
  Forall (fun u => u.1 <> F_selectedVoice) updates ->
  last_manual_choice v updates = v.
Proof.
  unfold last_manual_choice. revert v.
  induction updates as [|[field value] rest IH]; intros v Hall; [reflexivity|].
  apply Forall_cons in Hall as [Hne Hrest]. simpl in *.
  rewrite IH by done. by destruct field.
Qed.

(** C2: updating the tone to Casual, Professional, Direct or Warm sets the
    persona to Puck, Charon, Fenrir or Kore; and once the user has chosen a
    persona by hand, however many fields other than tone are updated
    afterwards the persona is still the user's manual choice: the very
    choice [v] through every update that is not one of the persona selector
    itself, and the user's latest choice when the selector was used again;
    the override lasts until the tone changes, when the persona is derived
    from the table again. *)
Theorem updateField_tone_sets_persona_override_persists st v updates :
  Forall (fun u => u.1 <> F_tone) updates ->
  (forall st0,
     persona (updateField F_tone (lit "Casual") st0) = Str (lit "Puck")
     /\ persona (updateField F_tone (lit "Professional") st0) = Str (lit "Charon")
     /\ persona (updateField F_tone (lit "Direct") st0) = Str (lit "Fenrir")
     /\ persona (updateField F_tone (lit "Warm") st0) = Str (lit "Kore"))
  /\ persona (apply_updates updates (updateField F_selectedVoice v st))
     = Str (last_manual_choice v updates)
  /\ (Forall (fun u => u.1 <> F_selectedVoice) updates ->
      persona (apply_updates updates (updateField F_selectedVoice v st)) = Str v)
  /\ (forall value,
        persona (updateField F_tone value
                   (apply_updates updates (updateField F_selectedVoice v st)))
        = value_or (get_property TONE_VOICE_MAP value) (lit "Zephyr")).
Proof.
  intros Hall.
  assert (Hp : persona (apply_updates updates (updateField F_selectedVoice v st))
               = Str (last_manual_choice v updates))
    by (by apply persona_apply_updates).
  split; [intros st0; repeat split; vm_compute; reflexivity|].
  split; [exact Hp|]. split; [|reflexivity].
  intros Hnone. by rewrite Hp, last_manual_choice_other.
Qed.

Lemma updateField_tone_sets_persona_override_persists_witness :
  persona (apply_updates edits_after_override
             (updateField F_selectedVoice (lit "Fenrir")
                (updateField F_tone (lit "Warm") initial_state)))
  = Str (lit "Fenrir").
Proof.
  apply (updateField_tone_sets_persona_override_persists
           (updateField F_tone (lit "Warm") initial_state) (lit "Fenrir")
           edits_after_override).
  - repeat constructor; discriminate.
  - repeat constructor; discriminate.
Defined.

(** C10, as the specification words it, fails twice: the persona selector is
    itself a form field other than tone, and updating it changes the persona;
    and a tone named like a member that every object inherits is found by the
    lookup in the table, so the fallback is not taken. *)
Lemma updateField_persona_not_framed :
  (F_selectedVoice <> F_tone
   /\ persona (updateField F_selectedVoice (lit "Kore") initial_state)
      <> persona initial_state)
  /\ ((lit "constructor" ∉ mapped_tones)
      /\ persona (updateField F_tone (lit "constructor") initial_state)
         <> Str (lit "Zephyr")).
Proof.
  split; split.
  - discriminate.
  - discriminate.
  - unfold mapped_tones. rewrite !not_elem_of_cons.
    repeat split; try discriminate. apply not_elem_of_nil.
  - vm_compute. discriminate.
Qed.

(** C10, amended: updating a field other than tone and other than the
    persona selector leaves the persona unchanged; updating the persona
    selector sets the persona to the value given; updating tone to a value
    that is none of the four mapped tones, and not the name of a member
    inherited from [Object.prototype], sets the persona to Zephyr. *)
Theorem updateField_persona_frame st field value tone_value :
  field <> F_tone -> field <> F_selectedVoice ->
  tone_value ∉ mapped_tones -> tone_value ∉ Object_prototype_names ->
  persona (updateField field value st) = persona st
  /\ persona (updateField F_selectedVoice value st) = Str value
  /\ persona (updateField F_tone tone_value st) = Str (lit "Zephyr").
Proof.
  intros Hf1 Hf2 Ht1 Ht2.
  split; [by apply persona_updateField_other|]. split; [reflexivity|].
  rewrite persona_updateField_tone. unfold get_property.
  rewrite (TONE_VOICE_MAP_unmapped _ Ht1).
  by rewrite bool_decide_eq_false_2.
Qed.

Lemma updateField_persona_frame_witness :
  persona (updateField F_goal (lit "Book a Call") initial_state)
  = persona initial_state
  /\ persona (updateField F_selectedVoice (lit "Book a Call") initial_state)
     = Str (lit "Book a Call")
  /\ persona (updateField F_tone (lit "Playful") initial_state)
     = Str (lit "Zephyr").
Proof.
  apply (updateField_persona_frame initial_state F_goal (lit "Book a Call")
           (lit "Playful")).
  - discriminate.
  - discriminate.
  - unfold mapped_tones. rewrite !not_elem_of_cons.
    repeat split; try discriminate. apply not_elem_of_nil.
  - unfold Object_prototype_names. rewrite !not_elem_of_cons.
    repeat split; try discriminate. apply not_elem_of_nil.
Defined.

End Persona.

(** ** Decoding PCM for playback *)

Section Decode.

Import GeminiService.

Lemma list_pair_ind {A} (P : list A -> Prop) :
  P [] -> (forall x, P [x]) -> (forall x y l, P l -> P (x :: y :: l)) ->
  forall l, P l.
Proof.
  intros Hnil Hone Hstep l.
  cut (P l /\ forall x, P (x :: l)); [tauto|].
  induction l as [|y l [IH1 IH2]]; split; auto.
Qed.

(** The view has one element for every two bytes, low byte first. *)
Lemma Int16Array_elements (data : list byte) (samples : list Z) :
  Int16Array data = Some samples ->
  length data = 2 * length samples
  /\ forall k s, samples !! k = Some s ->
       exists lo hi, data !! (2 * k) = Some lo /\ data !! (2 * k + 1) = Some hi
                     /\ s = int16_le lo hi.
Proof.
  revert samples. induction data as [|x|lo hi rest IH] using list_pair_ind;
    intros samples Hview.
  - injection Hview as <-. split; [reflexivity|]. intros k s Hk. done.
  - discriminate.
  - simpl in Hview. destruct (Int16Array rest) as [tail|] eqn:Hrest; [|done].
    injection Hview as <-. destruct (IH tail eq_refl) as [Hlen Hel].
    split; [simpl; lia|].
    intros [|k] s Hk.
    + injection Hk as <-. by exists lo, hi.
    + destruct (Hel k s Hk) as (lo' & hi' & H1 & H2 & ->).
      exists lo', hi'. repeat split.
      * by replace (2 * S k) with (S (S (2 * k))) by lia.
      * by replace (2 * S k + 1) with (S (S (2 * k + 1))) by lia.
Qed.

(** It exists whenever the byte length is even. *)
Lemma Int16Array_even (data : list byte) :
  Nat.even (length data) = true -> is_Some (Int16Array data).
Proof.
  induction data as [|x|lo hi rest IH] using list_pair_ind; intros Heven.
  - by eexists.
  - discriminate.
  - simpl in *. destruct (IH Heven) as [tail ->]. by eexists.
Qed.

Lemma int16_le_range (lo hi : byte) :
  (-32768 <= int16_le lo hi < 32768)%Z.
Proof.
  unfold int16_le.
  pose proof (Byte.to_N_bounded lo). pose proof (Byte.to_N_bounded hi).
  destruct (Z.ltb_spec (Z.of_N (Byte.to_N lo) + 256 * Z.of_N (Byte.to_N hi)) 32768); lia.
Qed.

(** A loop that stores [f i] at every index [i] of a range: inside the array
    the element is [f i], and stores outside of it are lost. *)
Lemma lookup_store_range (f : nat -> number) n : forall a (l : list number) i,
  i < length l ->
  foldl (fun cd j => <[j := f j]> cd) l (seq a n) !! i
  = if decide (a <= i < a + n) then Some (f i) else l !! i.
Proof.
  induction n as [|n IH]; intros a l i Hi; simpl.
  - case_decide; [lia | reflexivity].
  - rewrite IH by (by rewrite length_insert).
    destruct (decide (S a <= i < S a + n)), (decide (a <= i < a + S n));
      try lia; try reflexivity.
    + assert (i = a) as -> by lia. by apply list_lookup_insert_eq.
    + apply list_lookup_insert_ne. lia.
Qed.

Lemma length_store_range (f : nat -> number) n : forall a (l : list number),
  length (foldl (fun cd j => <[j := f j]> cd) l (seq a n)) = length l.
Proof.
  induction n as [|n IH]; intros a l; simpl; [reflexivity|].
  by rewrite IH, length_insert.
Qed.

(** What [decodeAudioData] computes once the view of the bytes exists. *)
Lemma decodeAudioData_view `{AudioContext} (data : list byte) (rate : Q)
    (numChannels : nat) (samples : list Z) :
  Int16Array data = Some samples ->
  decodeAudioData data rate numChannels =
  let frames := length samples / numChannels in
  if (numChannels =? 0) || (frames =? 0)
     || negb (createBuffer_supported numChannels frames rate)
  then None
  else Some {| numberOfChannels := numChannels;
               buffer_length := frames;
               sampleRate := rate;
               channelData :=
                 imap (fun channel cd => fill_channel samples numChannels channel cd)
                      (replicate numChannels (replicate frames (Num 0))) |}.
Proof.
  intros Hview. unfold decodeAudioData, createBuffer. rewrite Hview. simpl.
  by destruct (_ || _ || _).
Qed.

(** One sample of one channel of the decoded buffer. *)
Lemma fill_channel_sample (samples : list Z) (numChannels channel i : nat) :
  channel < numChannels -> i < length samples / numChannels ->
  exists s,
    samples !! (i * numChannels + channel) = Some s
    /\ fill_channel samples numChannels channel
         (replicate (length samples / numChannels) (Num 0)) !! i
       = Some (Num (Qred (inject_Z s / 32768))).
Proof.
  intros Hc Hi.
  assert (Hidx : i * numChannels + channel < length samples).
  { pose proof (Nat.Div0.mul_div_le (length samples) numChannels) as Hmul. nia. }
  destruct (lookup_lt_is_Some_2 samples _ Hidx) as [s Hs].
  exists s. split; [exact Hs|]. unfold fill_channel.
  rewrite (lookup_store_range
             (fun j => scaled_sample samples (j * numChannels + channel)))
    by (by rewrite length_replicate).
  rewrite decide_True.
  - unfold scaled_sample. by rewrite Hs.
  - split; [lia|]. simpl.
    assert (Hceil : length samples / numChannels
                    <= (length samples + numChannels - 1) / numChannels)
      by (apply Nat.Div0.div_le_mono; lia).
    lia.
Qed.

(** C6: for every byte stream, every sample rate and every channel count, the
    buffer the decoder produces has one array per channel, each as long as
    the number of whole frames, in which sample [i] of channel [c] is the
    signed 16-bit little-endian integer at interleaved position
    [i * channels + c] divided by 32768, a value from -1 up to 1; the decoder
    does produce a buffer whenever the stream has an even number of bytes and
    the audio context creates a buffer of these dimensions (the constructor
    of the view and [createBuffer] throw otherwise); in particular the bytes
    of the one-channel samples 16384, -16384 decode to 0.5, -0.5. *)
Theorem decodeAudioData_samples `{AudioContext} (data : list byte) (rate : Q)
    (numChannels : nat) :
  (forall buffer,
     decodeAudioData data rate numChannels = Some buffer ->
     length (channelData buffer) = numChannels
     /\ forall channel i,
          channel < numChannels -> i < length data / 2 / numChannels ->
          exists lo hi cd q,
            data !! (2 * (i * numChannels + channel)) = Some lo
            /\ data !! (2 * (i * numChannels + channel) + 1) = Some hi
            /\ channelData buffer !! channel = Some cd
            /\ length cd = length data / 2 / numChannels
            /\ cd !! i = Some (Num q)
            /\ (q == inject_Z (int16_le lo hi) / 32768)%Q
            /\ (-1 <= q /\ q < 1)%Q)
  /\ (Nat.even (length data) = true ->
      numChannels <> 0 ->
      length data / 2 / numChannels <> 0 ->
      createBuffer_supported numChannels (length data / 2 / numChannels) rate = true ->
      is_Some (decodeAudioData data rate numChannels))
  /\ (createBuffer_supported 1 2 rate = true ->
      channelData <$> decodeAudioData
                        [Byte.x00; Byte.x40; Byte.x00; Byte.xc0] rate 1
      = Some [[Num (1 # 2); Num (-1 # 2)]]).
Proof.
  split; [|split].
  - intros buffer Hdecode.
    destruct (Int16Array data) as [samples|] eqn:Hview;
      [|unfold decodeAudioData in Hdecode; by rewrite Hview in Hdecode].
    destruct (Int16Array_elements data samples Hview) as [Hlen Hel].
    assert (Hdiv : length data / 2 = length samples).
    { rewrite Hlen, Nat.mul_comm. by apply Nat.div_mul. }
    rewrite Hdiv. rewrite (decodeAudioData_view _ _ _ _ Hview) in Hdecode.
    cbv zeta in Hdecode.
    destruct (_ || _ || _); [discriminate|]. injection Hdecode as <-. simpl.
    split; [by rewrite length_imap, length_replicate|].
    intros channel i Hc Hi.
    destruct (fill_channel_sample samples numChannels channel i Hc Hi)
      as (s & Hs & Hfill).
    destruct (Hel _ _ Hs) as (lo & hi & Hlo & Hhi & ->).
    exists lo, hi, (fill_channel samples numChannels channel
                      (replicate (length samples / numChannels) (Num 0))),
      (Qred (inject_Z (int16_le lo hi) / 32768)).
    split; [exact Hlo|]. split; [exact Hhi|]. split.
    { rewrite list_lookup_imap, lookup_replicate_2 by done. reflexivity. }
    split.
    { unfold fill_channel. by rewrite length_store_range, length_replicate. }
    split; [exact Hfill|].
    split; [apply Qred_correct|].
    rewrite Qred_correct.
    pose proof (int16_le_range lo hi) as Hr.
    unfold Qle, Qlt, Qdiv, Qmult, Qinv, inject_Z; simpl. lia.
  - intros Heven Hch Hframes Hsup.
    destruct (Int16Array_even data Heven) as [samples Hview].
    destruct (Int16Array_elements data samples Hview) as [Hlen _].
    assert (Hdiv : length data / 2 = length samples).
    { rewrite Hlen, Nat.mul_comm. by apply Nat.div_mul. }
    rewrite Hdiv in *. rewrite (decodeAudioData_view _ _ _ _ Hview).
    cbv zeta. rewrite Hsup.
    destruct (Nat.eqb_spec numChannels 0) as [|_]; [done|].
    destruct (Nat.eqb_spec (length samples / numChannels) 0) as [|_]; [done|].
    by eexists.
  - intros Hsup. unfold decodeAudioData, createBuffer. simpl.
    rewrite Hsup. reflexivity.
Qed.

Lemma decodeAudioData_samples_witness :
  channelData <$> @decodeAudioData nominal_context stereo_bytes 24000 2
  = Some [[Num (1 # 2); Num (-1 # 2)]; [Num (1 # 4); Num (-1 # 1)]]
  /\ channelData <$> @decodeAudioData nominal_context
                        [Byte.x00; Byte.x40; Byte.x00; Byte.xc0] 24000 1
     = Some [[Num (1 # 2); Num (-1 # 2)]].
Proof.
  destruct (@decodeAudioData_samples nominal_context stereo_bytes 24000 2)
    as (_ & Htotal & Hmono).
  split; [|exact (Hmono eq_refl)].
  destruct (Htotal eq_refl ltac:(discriminate) ltac:(discriminate) eq_refl)
    as [buffer Hdecode].
  rewrite Hdecode. vm_compute in Hdecode. by injection Hdecode as <-.
Defined.

End Decode.

(** ** Extraction from audio: errors and sanitising *)

Section Extraction.

Import GeminiService.

Context `{parser : JSONParser ResearchJSON}.

Lemma parseSafeJSON_malformed {A} `{JSONParser A} (t : js_string) :
  JSON_parse (trim (strip_fences t)) = None ->
  parseSafeJSON (A := A) t = Thrown FORMAT_ERROR.
Proof. intros Hp. unfold parseSafeJSON. simpl. by rewrite Hp. Qed.

Lemma parseSafeJSON_parsed {A} `{JSONParser A} (t : js_string) (v : A) :
  JSON_parse (trim (strip_fences t)) = Some v ->
  parseSafeJSON t = Returned v.
Proof. intros Hp. unfold parseSafeJSON. simpl. by rewrite Hp. Qed.

(** So does a response that is not JSON: the response-format error raised by
    [parseSafeJSON] is thrown inside the [try] and replaced by the [catch]. *)
Lemma processAudioResearch_malformed (response : GenerateContentResponse) :
  JSON_parse (cleaned_text response) = None ->
  processAudioResearch (Returned response) = Thrown EXTRACTION_ERROR.
Proof.
  intros Hp. unfold processAudioResearch. simpl.
  by rewrite (parseSafeJSON_malformed _ Hp).
Qed.

(** On success every field is the sanitised property, or the sanitised empty
    string when the property is missing. *)
Lemma processAudioResearch_parsed (response : GenerateContentResponse)
    (parsed : ResearchJSON) :
  JSON_parse (cleaned_text response) = Some parsed ->
  processAudioResearch (Returned response)
  = Returned
      {| r_ownerName := sanitize (or_default (json_ownerName parsed) []);
         r_businessName := sanitize (or_default (json_businessName parsed) []);
         r_identifiedGap := sanitize (or_default (json_identifiedGap parsed) []);
         r_freeValue := sanitize (or_default (json_freeValue parsed) []) |}.
Proof.
  intros Hp. unfold processAudioResearch. simpl.
  by rewrite (parseSafeJSON_parsed _ _ Hp).
Qed.

(** [sanitize] leaves no angle bracket. *)
Lemma sanitize_no_angle_brackets (val : js_string) :
  Forall (fun c => c <> 60%N /\ c <> 62%N) (sanitize val).
Proof.
  unfold sanitize, strip_angle_brackets. apply Forall_forall.
  intros c Hc. apply list_elem_of_In, List.filter_In in Hc as [_ Hc].
  destruct (N.eqb_spec c 60), (N.eqb_spec c 62); simpl in Hc; try done.
Qed.

(** No reply at all makes the operation fail with the response-format
    error. *)
Lemma processAudioResearch_never_format_error
    (reply : outcome GenerateContentResponse) :
  processAudioResearch reply <> Thrown FORMAT_ERROR.
Proof.
  destruct reply as [response|e]; [|discriminate].
  destruct (JSON_parse (cleaned_text response)) as [parsed|] eqn:Hp.
  - by rewrite (processAudioResearch_parsed _ _ Hp).
  - by rewrite (processAudioResearch_malformed _ Hp).
Qed.

(** C7, on the code: for a response whose text is not JSON, [parseSafeJSON]
    does raise the response-format error, but [processAudioResearch] fails
    with the extraction error, the same one a failed call gives, so the two
    cases cannot be told apart. The rest of the claim holds: a response that
    parses is returned with every field trimmed and then freed of angle
    brackets. *)
Theorem processAudioResearch_masks_format_error
    (response : GenerateContentResponse) (e : js_string) :
  JSON_parse (cleaned_text response) = None ->
  parseSafeJSON (A := ResearchJSON) (or_default (text response) (lit "{}"))
  = Thrown FORMAT_ERROR
  /\ processAudioResearch (Returned response) = Thrown EXTRACTION_ERROR
  /\ processAudioResearch (Thrown e) = Thrown EXTRACTION_ERROR
  /\ EXTRACTION_ERROR <> FORMAT_ERROR
  /\ (forall reply, processAudioResearch reply <> Thrown FORMAT_ERROR)
  /\ (forall response' parsed,
        JSON_parse (cleaned_text response') = Some parsed ->
        exists research,
          processAudioResearch (Returned response') = Returned research
          /\ r_ownerName research
             = strip_angle_brackets (trim (or_default (json_ownerName parsed) []))
          /\ r_businessName research
             = strip_angle_brackets (trim (or_default (json_businessName parsed) []))
          /\ r_identifiedGap research
             = strip_angle_brackets (trim (or_default (json_identifiedGap parsed) []))
          /\ r_freeValue research
             = strip_angle_brackets (trim (or_default (json_freeValue parsed) []))
          /\ Forall (fun c => c <> 60%N /\ c <> 62%N)
               (r_ownerName research ++ r_businessName research
                ++ r_identifiedGap research ++ r_freeValue research)).
Proof.
  intros Hp. split; [by apply parseSafeJSON_malformed|].
  split; [by apply processAudioResearch_malformed|].
  split; [reflexivity|]. split; [discriminate|].
  split; [apply processAudioResearch_never_format_error|].
  intros response' parsed Hparsed.
  eexists. split; [by apply processAudioResearch_parsed|]. simpl.
  repeat split. rewrite !Forall_app.
  repeat split; apply sanitize_no_angle_brackets.
Qed.

End Extraction.

(** ** The saved-script library in storage *)

Section Library.

Import OutreachForm LibraryView.

Context `{codec : JSONCodec (list SavedScript)} `{!JSONEmptyArray SavedScript}.

Implicit Types (store : Storage) (previous : list SavedScript).

Lemma read_library_setItem store (l : list SavedScript) :
  read_library (setItem LIBRARY_KEY (JSON_stringify l) store) = Some l.
Proof.
  unfold read_library, getItem, setItem. rewrite lookup_insert_eq. simpl.
  unfold or_else. by rewrite JSON_stringify_truthy, JSON_parse_stringify.
Qed.

Lemma handleSaveToLibrary_prepends now_id now_created st store previous r :
  read_library store = Some previous ->
  result st = Some r -> truthy (script r) = true ->
  handleSaveToLibrary now_id now_created st store
  = (setIsSavedInLibrary true st,
     setItem LIBRARY_KEY
       (JSON_stringify (new_entry now_id now_created (formData st) r :: previous))
       store).
Proof.
  intros Hread Hr Hs. unfold handleSaveToLibrary. by rewrite Hr, Hs, Hread.
Qed.

(** The library view, once mounted, shows the persisted list. *)
Lemma loadScripts_mount store previous :
  read_library store = Some previous ->
  loadScripts store LibraryView.initial_state = Some {| scripts := previous |}.
Proof.
  unfold read_library, loadScripts. destruct (getItem LIBRARY_KEY store) as [saved|]; simpl.
  - unfold or_else. destruct (truthy saved).
    + by intros ->.
    + rewrite JSON_parse_empty_array. by intros [= <-].
  - rewrite JSON_parse_empty_array. by intros [= <-].
Qed.

(** C5: on any store whose library item reads as the list [previous], saving
    a generated script writes, under the library key only, the list made of
    the new entry followed by [previous], untouched and in order; and
    deleting by id from the library view mounted on that store writes
    [previous] without the entries of that id, the others unchanged and in
    their order (a subsequence of [previous] that holds every entry of
    another id), while a declined confirmation writes nothing. *)
Theorem library_save_prepends_delete_removes
    (now_id now_created : Z) (st : OutreachForm.State) (r : VoiceNoteResult)
    (target : js_string) store previous :
  read_library store = Some previous ->
  result st = Some r ->
  truthy (script r) = true ->
  let entry := new_entry now_id now_created (formData st) r in
  let kept := filter (fun s => id s ≠ target) previous in
  ((handleSaveToLibrary now_id now_created st store).2
   = setItem LIBRARY_KEY (JSON_stringify (entry :: previous)) store
   /\ read_library (handleSaveToLibrary now_id now_created st store).2
      = Some (entry :: previous))
  /\ (loadScripts store LibraryView.initial_state = Some {| scripts := previous |}
      /\ handleDelete true target {| scripts := previous |} store
         = ({| scripts := kept |}, setItem LIBRARY_KEY (JSON_stringify kept) store)
      /\ read_library (handleDelete true target {| scripts := previous |} store).2
         = Some kept
      /\ kept `sublist_of` previous
      /\ (forall s, s ∈ kept <-> s ∈ previous /\ id s <> target)
      /\ handleDelete false target {| scripts := previous |} store
         = ({| scripts := previous |}, store)).
Proof.
  intros Hread Hr Hs entry kept. split.
  - rewrite (handleSaveToLibrary_prepends _ _ _ _ _ _ Hread Hr Hs). simpl.
    split; [reflexivity | apply read_library_setItem].
  - split; [by apply loadScripts_mount|].
    split; [reflexivity|].
    split; [apply read_library_setItem|].
    split; [apply sublist_filter|].
    split; [|reflexivity].
    intros s. unfold kept. rewrite list_elem_of_filter. tauto.
Qed.

End Library.

(** ** The style reference in storage *)

Section Reference.

Import App.

Context `{codec : JSONCodec (option SavedScript)}.

Implicit Types (store : Storage) (st : App.State).

Lemma keys_distinct : TAB_KEY <> REFERENCE_KEY.
Proof. discriminate. Qed.

Lemma getItem_reference_run_effects st store :
  getItem REFERENCE_KEY (run_effects st store)
  = (fun reference => JSON_stringify (Some reference)) <$> selectedReference st.
Proof.
  unfold run_effects, persist_reference, persist_tab, getItem, setItem, removeItem.
  destruct (selectedReference st); simpl.
  - by rewrite lookup_insert_eq.
  - by rewrite lookup_delete_eq.
Qed.

Lemma getItem_tab_run_effects st store :
  getItem TAB_KEY (run_effects st store) = Some (activeTab st).
Proof.
  unfold run_effects, persist_reference, persist_tab, getItem, setItem, removeItem.
  destruct (selectedReference st); simpl.
  - rewrite lookup_insert_ne by (symmetry; apply keys_distinct).
    by rewrite lookup_insert_eq.
  - rewrite lookup_delete_ne by (symmetry; apply keys_distinct).
    by rewrite lookup_insert_eq.
Qed.

(** Reloading on what the effects wrote restores the state, as long as the
    tab is not the empty string. *)
Lemma init_run_effects st store :
  truthy (activeTab st) = true ->
  init (run_effects st store) = Some st.
Proof.
  intros Htab. unfold init.
  rewrite getItem_tab_run_effects, getItem_reference_run_effects. simpl.
  unfold or_else. rewrite Htab.
  destruct st as [tab [reference|]]; simpl.
  - by rewrite JSON_stringify_truthy, JSON_parse_stringify.
  - reflexivity.
Qed.

(** The effects write again what is already stored. *)
Lemma run_effects_idemp st store :
  run_effects st (run_effects st store) = run_effects st store.
Proof.
  unfold run_effects, persist_reference, persist_tab, setItem, removeItem.
  apply map_eq. intros k.
  destruct (selectedReference st) as [reference|];
    repeat (rewrite ?lookup_insert, ?lookup_delete; repeat case_decide);
    congruence.
Qed.

Lemma rendered_persist_tab st store :
  rendered st store -> persist_tab st store = store.
Proof.
  unfold rendered. intros Hr. unfold persist_tab, setItem.
  apply insert_id. rewrite <- Hr at 1. apply getItem_tab_run_effects.
Qed.

Lemma rendered_persist_reference st store :
  rendered st store -> persist_reference st store = store.
Proof.
  unfold rendered. intros Hr.
  pose proof (getItem_reference_run_effects st store) as Hget.
  rewrite Hr in Hget. unfold getItem in Hget.
  unfold persist_reference, setItem, removeItem.
  destruct (selectedReference st); simpl in Hget.
  - by apply insert_id.
  - by apply delete_id.
Qed.

Lemma load_rendered store0 st store :
  load store0 = Some (st, store) -> rendered st store.
Proof.
  unfold load. destruct (init store0) as [st0|]; [|discriminate].
  intros [= -> <-]. apply run_effects_idemp.
Qed.

(** On a rendered state, running the effects whose dependency changed writes
    what running both would write. *)
Lemma step_run_effects a st store :
  rendered st store ->
  step a (st, store) = (handle a st, run_effects (handle a st) store)
  /\ rendered (handle a st) (run_effects (handle a st) store).
Proof.
  intros Hr. split; [|apply run_effects_idemp].
  unfold step, run_changed_effects, run_effects. simpl. f_equal.
  assert (Htab : (if decide (activeTab (handle a st) = activeTab st)
                  then store else persist_tab (handle a st) store)
                 = persist_tab (handle a st) store).
  { case_decide as Heq; [|reflexivity].
    unfold persist_tab. rewrite Heq. symmetry.
    by apply rendered_persist_tab. }
  rewrite Htab. clear Htab. case_decide as Heq; [|reflexivity].
  unfold persist_reference. rewrite Heq.
  pose proof (rendered_persist_reference st store Hr) as Hid.
  unfold persist_reference, persist_tab, setItem, removeItem in *.
  apply map_eq. intros k.
  destruct (selectedReference st) as [reference|].
  - assert (Hstored : store !! REFERENCE_KEY
                      = Some (JSON_stringify (Some reference)))
      by (rewrite <- Hid; apply lookup_insert_eq).
    destruct (decide (k = REFERENCE_KEY)) as [-> | Hk].
    + rewrite lookup_insert_eq, lookup_insert_ne by apply keys_distinct.
      exact Hstored.
    + by rewrite (lookup_insert_ne _ REFERENCE_KEY).
  - assert (Hstored : store !! REFERENCE_KEY = None)
      by (rewrite <- Hid; apply lookup_delete_eq).
    destruct (decide (k = REFERENCE_KEY)) as [-> | Hk].
    + rewrite lookup_delete_eq, lookup_insert_ne by apply keys_distinct.
      exact Hstored.
    + by rewrite (lookup_delete_ne _ REFERENCE_KEY).
Qed.

(** C8: on a page loaded from storage, after a saved script is selected as
    the style reference, loading the page again restores that very script
    (and the generator tab); it is still restored after a switch of tab; the
    reload itself leaves storage as it is; and after the reference is cleared
    its key is absent from storage, not bound to a stored null, so a reload
    starts without a reference. *)
Theorem reference_round_trips store0 st store (script : SavedScript)
    (tab : js_string) :
  load store0 = Some (st, store) ->
  tab = lit "create" \/ tab = lit "library" ->
  let used := step (UseAsReference script) (st, store) in
  let switched := step (SwitchTab tab) used in
  let cleared := step ClearReference switched in
  load used.2
  = Some ({| activeTab := lit "create"; selectedReference := Some script |}, used.2)
  /\ load switched.2
     = Some ({| activeTab := tab; selectedReference := Some script |}, switched.2)
  /\ getItem REFERENCE_KEY used.2 = Some (JSON_stringify (Some script))
  /\ getItem REFERENCE_KEY cleared.2 = None
  /\ load cleared.2
     = Some ({| activeTab := tab; selectedReference := None |}, cleared.2).
Proof.
  intros Hload Htab used switched cleared.
  assert (Ht : truthy tab = true) by (by destruct Htab as [-> | ->]).
  apply load_rendered in Hload as Hr0.
  destruct (step_run_effects (UseAsReference script) st store Hr0) as [Hused Hr1].
  assert (Hswitched := step_run_effects (SwitchTab tab) _ _ Hr1).
  destruct Hswitched as [Hswitched Hr2].
  assert (Hcleared := step_run_effects ClearReference _ _ Hr2).
  destruct Hcleared as [Hcleared _].
  unfold cleared, switched, used. rewrite Hused, Hswitched, Hcleared. simpl.
  unfold load. rewrite !init_run_effects by done. simpl.
  rewrite !run_effects_idemp.
  rewrite !getItem_reference_run_effects. simpl.
  repeat split.
Qed.

End Reference.

(** ** The reference codec meets the assumptions *)

Module ReferenceCodecLaws.

Import ReferenceCodec.

Lemma get_put_string (s rest : js_string) :
  get_string (put_string s ++ rest) = Some (s, rest).
Proof.
  unfold get_string, put_string. simpl. rewrite Nat2N.id, length_app.
  destruct (Nat.leb_spec (length s) (length s + length rest)); [|lia].
  by rewrite take_app_length, drop_app_length.
Qed.

Lemma get_put_Z (z : Z) (rest : js_string) :
  get_Z (put_Z z ++ rest) = Some (z, rest).
Proof.
  unfold get_Z, put_Z. simpl. destruct (Z.ltb_spec z 0); simpl.
  - do 2 f_equal. lia.
  - do 2 f_equal. lia.
Qed.

Lemma get_put_script (s : SavedScript) (rest : js_string) :
  get_script (put_script s ++ rest) = Some (s, rest).
Proof.
  unfold get_script, put_script. rewrite <- !app_assoc.
  repeat (rewrite get_put_string; cbn [mbind option_bind]).
  rewrite get_put_Z. cbn [mbind option_bind]. by destruct s.
Qed.

Lemma get_put_scripts (l : list SavedScript) (rest : js_string) :
  get_scripts (length l) (flat_map put_script l ++ rest) = Some (l, rest).
Proof.
  induction l as [|s l IH]; [reflexivity|].
  cbn [length flat_map get_scripts].
  rewrite <- app_assoc, get_put_script. cbn [mbind option_bind].
  by rewrite IH.
Qed.

#[local] Instance reference_parser : JSONParser (option SavedScript) :=
  parse_reference.

#[local] Program Instance reference_codec : JSONCodec (option SavedScript) :=
  {| JSON_stringify := stringify_reference |}.
Next Obligation. by intros [s|]. Qed.
Next Obligation.
  intros [s|]; [|reflexivity].
  unfold JSON_parse, reference_parser, parse_reference, stringify_reference.
  rewrite decide_False by discriminate.
  unfold parse_script, stringify_script.
  rewrite <- (app_nil_r (put_script s)). by rewrite get_put_script.
Qed.

#[local] Instance scripts_parser : JSONParser (list SavedScript) := parse_scripts.

#[local] Program Instance scripts_codec : JSONCodec (list SavedScript) :=
  {| JSON_stringify := stringify_scripts |}.
Next Obligation. by intros [|s l]. Qed.
Next Obligation.
  intros [|s l]; [reflexivity|].
  unfold JSON_parse, scripts_parser, parse_scripts, stringify_scripts.
  rewrite decide_False by discriminate.
  rewrite Nat2N.id, get_put_scripts. reflexivity.
Qed.

#[local] Instance scripts_empty_array : JSONEmptyArray SavedScript.
Proof. reflexivity. Qed.

#[local] Instance research_parser : JSONParser GeminiService.ResearchJSON :=
  parse_research.

End ReferenceCodecLaws.

(** ** The theorems at concrete inputs *)

Section Concrete.

Import GeminiService OutreachForm LibraryView App ReferenceCodec ReferenceCodecLaws.

Existing Instances reference_parser reference_codec scripts_parser
  scripts_codec scripts_empty_array research_parser.

Lemma library_save_prepends_delete_removes_witness :
  read_library
    (handleSaveToLibrary 1700000900000 1700000900001 generated_form
       two_script_store).2
  = Some [ {| id := lit "1700000900000";
              title := lit "Sam @ Peak Fitness";
              content := lit "[0-5s] Hello Sam";
              ss_ownerName := lit "Sam";
              ss_businessName := lit "Peak Fitness";
              createdAt := 1700000900001 |};
           anna_script; mike_script ]
  /\ read_library
       (handleDelete true (lit "1700000500000")
          {| scripts := [anna_script; mike_script] |} two_script_store).2
     = Some [mike_script].
Proof.
  pose proof (library_save_prepends_delete_removes
                1700000900000 1700000900001 generated_form
                {| script := lit "[0-5s] Hello Sam"; followUp := lit "Sent!" |}
                (lit "1700000500000") two_script_store
                [anna_script; mike_script] eq_refl eq_refl eq_refl)
    as [[_ Hsave] (_ & _ & Hdelete & _)].
  split; [exact Hsave | exact Hdelete].
Defined.

Lemma processAudioResearch_masks_format_error_witness :
  parseSafeJSON (A := ResearchJSON)
    (lit "Sorry, I could not make out the recording.")
  = Thrown FORMAT_ERROR
  /\ processAudioResearch (Returned prose_response) = Thrown EXTRACTION_ERROR
  /\ processAudioResearch (Thrown (lit "Failed to fetch")) = Thrown EXTRACTION_ERROR
  /\ EXTRACTION_ERROR <> FORMAT_ERROR.
Proof.
  destruct (processAudioResearch_masks_format_error prose_response
              (lit "Failed to fetch") eq_refl) as (H1 & H2 & H3 & H4 & _).
  exact (conj H1 (conj H2 (conj H3 H4))).
Defined.

Lemma reference_round_trips_witness :
  App.init (App.step (SwitchTab (lit "library"))
              (App.step (UseAsReference mike_script) fresh_page)).2
  = Some {| activeTab := lit "library"; selectedReference := Some mike_script |}
  /\ getItem REFERENCE_KEY
       (App.step ClearReference
          (App.step (SwitchTab (lit "library"))
             (App.step (UseAsReference mike_script) fresh_page))).2
     = None.
Proof.
  pose proof (reference_round_trips ∅ fresh_page.1 fresh_page.2
                mike_script (lit "library") eq_refl (or_intror eq_refl))
    as (_ & Hswitched & _ & Hcleared & _).
  split; [|exact Hcleared].
  unfold load in Hswitched.
  destruct (App.init _) as [st|]; [|discriminate Hswitched].
  by injection Hswitched as ->.
Defined.

End Concrete.

(** * Further properties *)

(** ** Timing markers: what stripping leaves *)

Section MarkersStripped.

Implicit Types (s t r : js_string) (c : N).

(** A marker that closes is a run of units without closing bracket or line
    terminator, then the closing bracket. *)
Lemma marker_rest_Some t rest :
  marker_rest t = Some rest ->
  exists m, t = m ++ 93%N :: rest
            /\ Forall (fun c => c <> 93%N /\ is_line_terminator c = false) m.
Proof.
  induction t as [|d t' IH]; [discriminate|].
  simpl. destruct (N.eqb_spec d 93) as [-> | Hd].
  - intros [= ->]. by exists [].
  - destruct (is_line_terminator d) eqn:Hlt; [discriminate|].
    intros Hrest. destruct (IH Hrest) as (m & -> & Hm).
    exists (d :: m). split; [reflexivity|]. by constructor.
Qed.

Lemma marker_rest_length t rest :
  marker_rest t = Some rest -> length rest < length t.
Proof.
  intros H. destruct (marker_rest_Some _ _ H) as (m & -> & _).
  rewrite length_app. simpl. lia.
Qed.

(** An induction on texts that may step over a whole marker. *)
Lemma marker_ind (P : js_string -> Prop) :
  P [] ->
  (forall c r, (c =? 91)%N = false -> P r -> P (c :: r)) ->
  (forall r, marker_rest r = None -> P r -> P (91%N :: r)) ->
  (forall r rest, marker_rest r = Some rest -> P rest -> P (91%N :: r)) ->
  forall s, P s.
Proof.
  intros Hnil Hother Hopen Hmarker s.
  induction s as [s IH] using (induction_ltof1 _ (@length N)).
  unfold ltof in IH. destruct s as [|c r]; [exact Hnil|].
  destruct (N.eqb_spec c 91) as [-> | Hc].
  - destruct (marker_rest r) as [rest|] eqn:Hr.
    + apply (Hmarker r rest Hr), IH.
      apply marker_rest_length in Hr. simpl. lia.
    + apply (Hopen r Hr), IH. simpl. lia.
  - apply Hother; [by apply N.eqb_neq|]. apply IH. simpl. lia.
Qed.

Lemma strip_markers_other c r :
  (c =? 91)%N = false -> strip_markers (c :: r) = c :: strip_markers r.
Proof. intros Hc. by rewrite strip_markers_cons, Hc. Qed.

Lemma strip_markers_open r :
  marker_rest r = None -> strip_markers (91%N :: r) = 91%N :: strip_markers r.
Proof. intros Hr. by rewrite strip_markers_cons, Hr. Qed.

Lemma strip_markers_closed r rest :
  marker_rest r = Some rest -> strip_markers (91%N :: r) = strip_markers rest.
Proof. intros Hr. by rewrite strip_markers_cons, Hr. Qed.

(** A bracket that does not close before stripping does not close after. *)
Lemma marker_rest_strip_markers s :
  marker_rest s = None -> marker_rest (strip_markers s) = None.
Proof.
  induction s as [|c r Hc IH|r Hr IH|r rest Hr IH] using marker_ind.
  - done.
  - rewrite (strip_markers_other _ _ Hc). simpl.
    destruct (c =? 93)%N; [done|].
    destruct (is_line_terminator c); [done | exact IH].
  - rewrite (strip_markers_open _ Hr). simpl. intros _. by apply IH.
  - simpl. by rewrite Hr.
Qed.

Lemma strip_markers_idemp s : strip_markers (strip_markers s) = strip_markers s.
Proof.
  induction s as [|c r Hc IH|r Hr IH|r rest Hr IH] using marker_ind.
  - reflexivity.
  - by rewrite (strip_markers_other _ _ Hc), (strip_markers_other _ _ Hc), IH.
  - rewrite (strip_markers_open _ Hr).
    by rewrite (strip_markers_open _ (marker_rest_strip_markers _ Hr)), IH.
  - by rewrite (strip_markers_closed _ _ Hr).
Qed.

Lemma strip_markers_marker_free s : marker_free (strip_markers s).
Proof.
  unfold marker_free.
  induction s as [|c r Hc IH|r Hr IH|r rest Hr IH] using marker_ind;
    intros before after Heq.
  - by destruct before.
  - rewrite (strip_markers_other _ _ Hc) in Heq.
    destruct before as [|b before]; simplify_eq/=.
    by eapply IH.
  - rewrite (strip_markers_open _ Hr) in Heq.
    destruct before as [|b before]; simplify_eq/=.
    + by apply marker_rest_strip_markers.
    + by eapply IH.
  - rewrite (strip_markers_closed _ _ Hr) in Heq. by eapply IH.
Qed.

Lemma strip_markers_sublist s : strip_markers s `sublist_of` s.
Proof.
  induction s as [|c r Hc IH|r Hr IH|r rest Hr IH] using marker_ind.
  - done.
  - rewrite (strip_markers_other _ _ Hc). by apply sublist_skip.
  - rewrite (strip_markers_open _ Hr). by apply sublist_skip.
  - rewrite (strip_markers_closed _ _ Hr).
    destruct (marker_rest_Some _ _ Hr) as (m & -> & _).
    apply sublist_cons. etrans; [exact IH|].
    apply sublist_inserts_l. by apply sublist_cons.
Qed.

Lemma strip_markers_no_bracket s : 91%N ∉ s -> strip_markers s = s.
Proof.
  induction s as [|c r IH]; [done|].
  intros Hnot. apply not_elem_of_cons in Hnot as [Hc Hr].
  rewrite strip_markers_other by (by apply N.eqb_neq).
  by rewrite IH.
Qed.

(** X1. Whatever the script, the text left by [strip_markers] holds no
    bracketed marker any more (no opening bracket that is followed, on its
    line, by a closing one), so stripping it again changes nothing; it is the
    script with some units left out, in order; and a script without an
    opening bracket is returned as it is. *)
Theorem strip_markers_leaves_no_marker s :
  marker_free (strip_markers s)
  /\ strip_markers (strip_markers s) = strip_markers s
  /\ strip_markers s `sublist_of` s
  /\ (91%N ∉ s -> strip_markers s = s).
Proof.
  split; [apply strip_markers_marker_free|].
  split; [apply strip_markers_idemp|].
  split; [apply strip_markers_sublist | apply strip_markers_no_bracket].
Qed.

End MarkersStripped.

(** ** The duration estimate in words *)

Section WordThresholds.

Import OutreachForm.

(** At 140 words a minute, [w] words round to the integer quotient of
    [6 w + 7] by 14. *)
Lemma Math_round_words (w : Z) :
  Math_round (inject_Z w / 140 * 60) = ((6 * w + 7) / 14)%Z.
Proof.
  unfold Math_round.
  assert (Heq : (inject_Z w / 140 * 60 + (1 # 2) == (6 * w + 7) # 14)%Q).
  { unfold Qeq, Qplus, Qmult, Qdiv, Qinv, inject_Z. simpl. lia. }
  rewrite Heq. reflexivity.
Qed.

Lemma estimatedDuration_words (r : VoiceNoteResult) :
  estimatedDuration (Some r)
  = ((6 * Z.of_nat (count_words (strip_markers (script r))) + 7) / 14)%Z.
Proof. by rewrite estimatedDuration_count_words, Math_round_words. Qed.

(** X2. The estimate of a script is the integer quotient of [6 w + 7] by 14,
    [w] being the number of words left after stripping the markers; hence the
    label is Too Short up to 68 words, Perfect Length from 69 to 129 words
    and A Bit Long from 130 words on. *)
Theorem durationStatus_word_thresholds (r : VoiceNoteResult) :
  let w := count_words (strip_markers (script r)) in
  estimatedDuration (Some r) = ((6 * Z.of_nat w + 7) / 14)%Z
  /\ (durationStatus (estimatedDuration (Some r)) = TooShort <-> w <= 68)
  /\ (durationStatus (estimatedDuration (Some r)) = PerfectLength
      <-> 69 <= w <= 129)
  /\ (durationStatus (estimatedDuration (Some r)) = ABitLong <-> 130 <= w).
Proof.
  intros w. rewrite estimatedDuration_words. fold w.
  destruct (durationStatus_cases ((6 * Z.of_nat w + 7) / 14)%Z)
    as (Hshort & Hperfect & Hlong).
  split; [reflexivity|].
  rewrite Hshort, Hperfect, Hlong.
  pose proof (Z.div_mod (6 * Z.of_nat w + 7) 14 ltac:(lia)) as Hdiv.
  pose proof (Z.mod_pos_bound (6 * Z.of_nat w + 7) 14 ltac:(lia)) as Hmod.
  repeat split; lia.
Qed.

(** X3. The estimate never goes down when words are added, it is never
    negative, it is 0 exactly for scripts of at most one word (and without a
    script), and it never exceeds the word count. *)
Theorem estimatedDuration_monotone (r1 r2 : VoiceNoteResult) :
  count_words (strip_markers (script r1))
  <= count_words (strip_markers (script r2)) ->
  (estimatedDuration (Some r1) <= estimatedDuration (Some r2))%Z
  /\ (0 <= estimatedDuration (Some r1)
      <= Z.of_nat (count_words (strip_markers (script r1))))%Z
  /\ (estimatedDuration (Some r1) = 0%Z
      <-> count_words (strip_markers (script r1)) <= 1)
  /\ estimatedDuration None = 0%Z.
Proof.
  intros Hle. rewrite !estimatedDuration_words.
  set (w1 := count_words (strip_markers (script r1))) in *.
  set (w2 := count_words (strip_markers (script r2))) in *.
  pose proof (Z.div_mod (6 * Z.of_nat w1 + 7) 14 ltac:(lia)) as Hdiv1.
  pose proof (Z.mod_pos_bound (6 * Z.of_nat w1 + 7) 14 ltac:(lia)) as Hmod1.
  pose proof (Z.div_mod (6 * Z.of_nat w2 + 7) 14 ltac:(lia)) as Hdiv2.
  pose proof (Z.mod_pos_bound (6 * Z.of_nat w2 + 7) 14 ltac:(lia)) as Hmod2.
  repeat split; lia.
Qed.

Lemma estimatedDuration_monotone_witness :
  (estimatedDuration (Some (script_of_words 56))
   <= estimatedDuration (Some (script_of_words 120)))%Z.
Proof.
  apply (estimatedDuration_monotone (script_of_words 56) (script_of_words 120)).
  vm_compute. lia.
Defined.

End WordThresholds.

(** ** Generation: when a call starts and how it ends *)

Section GenerationFlow.

Import GeminiService OutreachForm Workflow.

Implicit Types (st : OutreachForm.State) (props : Props) (c : Config).

Lemma first_invalid_None (fd : VoiceNoteInput) :
  first_invalid fd = None
  <-> forall f, 2 <= length (trim (required_value f fd)).
Proof.
  unfold first_invalid. split.
  - intros Hnone f.
    assert (Hin : In f requiredFields) by (destruct f; simpl; auto).
    pose proof (List.find_none _ _ Hnone f Hin) as Hf. cbv beta in Hf.
    destruct (Nat.lt_ge_cases (length (trim (required_value f fd))) 2) as [Hlt|];
      [|done].
    apply field_invalid_trim in Hlt. congruence.
  - intros Hall.
    destruct (List.find _ requiredFields) as [g|] eqn:Hfind; [|done].
    apply List.find_some in Hfind as [_ Hg].
    apply field_invalid_trim in Hg. specialize (Hall g). lia.
Qed.

(** X4. Invoking generation starts a backend call exactly when the status is
    not Loading and each of the four required fields trims to at least two
    characters; the call then carries the form data, the active template and
    the style reference as they are, the status becomes Loading, and the
    previous result and error message are cleared while the form data stay. *)
Theorem handleGenerate_starts_call props st :
  (is_Some (handleGenerate props st).2
   <-> status st <> LOADING
       /\ forall f, 2 <= length (trim (required_value f (formData st))))
  /\ (forall call,
        (handleGenerate props st).2 = Some call ->
        call = {| call_input := formData st;
                  call_template := activeTemplate st;
                  call_reference := initialReference props |}
        /\ status (handleGenerate props st).1 = LOADING
        /\ result (handleGenerate props st).1 = None
        /\ errorMessage (handleGenerate props st).1 = None
        /\ formData (handleGenerate props st).1 = formData st
        /\ activeTemplate (handleGenerate props st).1 = activeTemplate st).
Proof.
  destruct (decide (status st = LOADING)) as [Hl | Hl].
  - rewrite (handleGenerate_loading _ _ Hl). simpl. split.
    + split; [by intros [? ?] | by intros [? _]].
    + done.
  - rewrite (handleGenerate_not_loading _ _ Hl).
    destruct (first_invalid (formData st)) as [g|] eqn:Hg; simpl.
    + split; [|done]. split; [by intros [? ?]|].
      intros [_ Hall]. apply first_invalid_None in Hall. congruence.
    + split.
      * split; [|by eexists]. intros _. split; [done|].
        by apply first_invalid_None.
      * by intros call [= <-].
Qed.

(** Outside of the status Success no result is held. *)
Lemma result_invariant_reachable props c :
  reachable props c ->
  status (form c) <> SUCCESS -> result (form c) = None.
Proof.
  induction 1 as [|c e c' Hc IH Hstep]; [reflexivity|].
  apply flight_invariant_reachable in Hc. unfold flight_invariant in Hc.
  destruct Hstep as [c | c settled n Hn | c field value | c | c settled]; simpl.
  - destruct (decide (status (form c) = LOADING)) as [Hl | Hl].
    + by rewrite (handleGenerate_loading _ _ Hl).
    + rewrite (handleGenerate_not_loading _ _ Hl).
      by destruct (first_invalid (formData (form c))).
  - destruct settled as [data|message]; simpl.
    + by destruct data.
    + intros _. apply IH. rewrite Hn in Hc. by destruct (status (form c)).
  - exact IH.
  - exact IH.
  - by destruct settled.
Qed.

(** X5. In every state the generation workflow can reach, a result is held
    only in the status Success: while Idle, Loading or Error there is none.
    (Success without a result happens too, when the reply parses to
    [null].) One event changes the status only from a status other than
    Loading to Loading, by an invocation of generation, or from Loading to
    Success or Error, when the call settles; so the status never goes back
    to Idle. *)
Theorem workflow_status_transitions props c e c' :
  reachable props c -> step props c e c' ->
  (is_Some (result (form c)) -> status (form c) = SUCCESS)
  /\ (status (form c) <> SUCCESS -> result (form c) = None)
  /\ (status (form c') = status (form c)
      \/ (status (form c) <> LOADING /\ e = Generate
          /\ status (form c') = LOADING)
      \/ (status (form c) = LOADING /\ (exists settled, e = Settle settled)
          /\ (status (form c') = SUCCESS \/ status (form c') = ERROR)))
  /\ (status (form c) <> IDLE -> status (form c') <> IDLE).
Proof.
  intros Hc Hstep.
  pose proof (result_invariant_reachable _ _ Hc) as Hres.
  apply flight_invariant_reachable in Hc. unfold flight_invariant in Hc.
  split.
  { intros [r Hr]. destruct (decide (status (form c) = SUCCESS)); [done|].
    rewrite Hres in Hr by done. discriminate Hr. }
  split; [exact Hres|].
  assert (Hcases :
    status (form c') = status (form c)
    \/ (status (form c) <> LOADING /\ e = Generate /\ status (form c') = LOADING)
    \/ (status (form c) = LOADING /\ (exists settled, e = Settle settled)
        /\ (status (form c') = SUCCESS \/ status (form c') = ERROR))).
  { destruct Hstep as [c | c settled n Hn | c field value | c | c settled]; simpl.
    - rewrite status_handleGenerate.
      destruct (decide (status (form c) = LOADING)) as [Hl | Hl].
      + rewrite (handleGenerate_loading _ _ Hl). by left.
      + destruct ((handleGenerate props (form c)).2); [|by left].
        right. by left.
    - right. right. rewrite Hn in Hc.
      split; [by destruct (status (form c))|]. split; [by eexists|].
      destruct settled as [[data|]|message]; simpl; auto.
    - by left.
    - by left.
    - left. by destruct settled. }
  split; [exact Hcases|].
  intros Hidle. destruct Hcases as [-> | [(_ & _ & ->) | (_ & _ & [-> | ->])]];
    done.
Qed.

Lemma once_pressed_reachable : reachable blank_props once_pressed.
Proof.
  pose proof (reachable_initial blank_props) as H0.
  pose proof (reachable_step _ _ _ _ H0
                (step_update blank_props _ F_ownerName (lit "Mike"))) as H1.
  pose proof (reachable_step _ _ _ _ H1
                (step_update blank_props _ F_businessName (lit "Peak Fitness"))) as H2.
  pose proof (reachable_step _ _ _ _ H2
                (step_update blank_props _ F_identifiedGap (lit "Landing page copy"))) as H3.
  pose proof (reachable_step _ _ _ _ H3
                (step_update blank_props _ F_freeValue (lit "Rewrote the page"))) as H4.
  exact (reachable_step _ _ _ _ H4 (step_generate blank_props _)).
Defined.

Lemma workflow_status_transitions_witness :
  result (form once_pressed) = None /\ status (form twice_pressed) <> IDLE.
Proof.
  destruct (workflow_status_transitions blank_props once_pressed Generate
              twice_pressed once_pressed_reachable
              (step_generate blank_props once_pressed))
    as (_ & Hres & _ & Hidle).
  split; [apply Hres | apply Hidle]; discriminate.
Defined.

Context `{parser : JSONParser (option VoiceNoteResult)}.

(** X6. However the generation request settles, the form ends in one of
    two ways, its data untouched. In Success, when the cleaned response text
    parses: the form then holds exactly the parsed value; when that is an
    object, the error message and the saved flag are cleared; when it is
    [null], no result is held and the message and the flag stay as they
    were. Or in Error with the message of the script generator, the result
    untouched: a rejected request and a response that is not JSON give that
    same message. The only message the settling ever sets is that one,
    never the response-format message and never the fallback of the
    form. *)
Theorem generation_settles reply st :
  let final := handleGenerate_settled (generateVoiceNote reply) st in
  formData final = formData st
  /\ ((status final = SUCCESS
       /\ exists response value,
            reply = Returned response
            /\ JSON_parse (cleaned_text response) = Some value
            /\ result final = value
            /\ match value with
               | Some _ =>
                   errorMessage final = None
                   /\ isSavedInLibrary final = false
               | None =>
                   errorMessage final = errorMessage st
                   /\ isSavedInLibrary final = isSavedInLibrary st
               end)
      \/ (status final = ERROR
          /\ errorMessage final = Some GENERATION_ERROR
          /\ result final = result st
          /\ isSavedInLibrary final = isSavedInLibrary st
          /\ (forall response,
                reply = Returned response ->
                JSON_parse (cleaned_text response) = None)))
  /\ (errorMessage final = errorMessage st \/ errorMessage final = None
      \/ errorMessage final = Some GENERATION_ERROR).
Proof.
  intros final. unfold final, generateVoiceNote.
  destruct reply as [response|e]; simpl.
  - unfold parseSafeJSON, cleaned_text. simpl.
    destruct (JSON_parse (trim (strip_fences (or_default (text response) (lit "{}")))))
      as [value|] eqn:Hp; simpl.
    + split; [by destruct value|]. split.
      * left. split; [reflexivity|]. exists response, value.
        split; [reflexivity|]. split; [exact Hp|]. by destruct value.
      * destruct value; simpl; auto.
    + split; [reflexivity|]. split; [|auto]. right.
      repeat split. intros response' [= <-]. exact Hp.
  - split; [reflexivity|]. split; [|auto]. right. repeat split. done.
Qed.

End GenerationFlow.

(** ** Extraction from audio, merged into the form *)

Section CaptureFlow.

Import GeminiService OutreachForm.

Context `{parser : JSONParser ResearchJSON}.

Implicit Types (st : OutreachForm.State).

Lemma truthy_or_else (a b : js_string) :
  truthy b = true -> truthy (or_else a b) = true.
Proof. unfold or_else. by destruct (truthy a) eqn:Ha. Qed.

Lemma or_else_cases (a b : js_string) :
  (or_else a b = a /\ truthy a = true) \/ (or_else a b = b /\ a = []).
Proof. destruct a; [by right | by left]. Qed.

(** X7. When a recording has been sent for extraction and the request has
    settled, each of the four research fields of the form holds the
    sanitised extracted value if that is not empty, and its previous value
    otherwise; so a field that was filled stays filled, and a changed field
    has no angle bracket. The other fields, the status and the result are
    untouched. Every failure, a response that is not JSON included, leaves
    the whole form as it was and shows the extraction message. *)
Theorem audio_capture_merges reply st :
  let final :=
    handleAudioCaptured_settled (processAudioResearch reply)
      (handleAudioCaptured st) in
  status final = status st /\ result final = result st
  /\ platform (formData final) = platform (formData st)
  /\ tone (formData final) = tone (formData st)
  /\ goal (formData final) = goal (formData st)
  /\ selectedVoice (formData final) = selectedVoice (formData st)
  /\ ((errorMessage final = None
       /\ exists response parsed,
            reply = Returned response
            /\ JSON_parse (cleaned_text response) = Some parsed
            /\ ownerName (formData final)
               = or_else (sanitize (or_default (json_ownerName parsed) []))
                         (ownerName (formData st))
            /\ businessName (formData final)
               = or_else (sanitize (or_default (json_businessName parsed) []))
                         (businessName (formData st))
            /\ identifiedGap (formData final)
               = or_else (sanitize (or_default (json_identifiedGap parsed) []))
                         (identifiedGap (formData st))
            /\ freeValue (formData final)
               = or_else (sanitize (or_default (json_freeValue parsed) []))
                         (freeValue (formData st)))
      \/ (errorMessage final = Some EXTRACTION_ERROR
          /\ formData final = formData st))
  /\ (forall f,
        truthy (required_value f (formData st)) = true ->
        truthy (required_value f (formData final)) = true)
  /\ (forall f,
        required_value f (formData final) = required_value f (formData st)
        \/ bracket_free (required_value f (formData final))).
Proof.
  intros final. unfold final. clear final.
  destruct reply as [response|e].
  - destruct (JSON_parse (cleaned_text response)) as [parsed|] eqn:Hp.
    + rewrite (processAudioResearch_parsed _ _ Hp). simpl.
      repeat split.
      * left. split; [reflexivity|]. by exists response, parsed.
      * intros f Hf. destruct f; simpl in *; by apply truthy_or_else.
      * intros f. unfold bracket_free.
        destruct f; simpl;
          match goal with
          | |- or_else ?a ?b = _ \/ _ =>
              destruct (or_else_cases a b) as [[-> _] | [-> _]];
              [right; apply sanitize_no_angle_brackets | by left]
          end.
    + rewrite (processAudioResearch_malformed _ Hp). simpl.
      repeat split; try done.
      * right. split; [reflexivity|]. by destruct st.
      * intros f. by left.
  - simpl. repeat split; try done.
    + right. split; [reflexivity|]. by destruct st.
    + intros f. by left.
Qed.

End CaptureFlow.

(** ** Speech synthesis *)

Section Speech.

Import GeminiService.

(** X8. [generateSpeech] returns a payload exactly when the request resolves
    with a response whose first part carries a non-empty one, and returns
    that payload; a rejected request, a response without audio and an empty
    payload all fail with the one voice-synthesis message. So a caller never
    receives an empty payload, and never the inner message about the empty
    candidate. *)
Theorem generateSpeech_payload (reply : outcome GenerateContentResponse) :
  (forall audio,
     generateSpeech reply = Returned audio
     <-> truthy audio = true
         /\ exists response,
              reply = Returned response /\ inlineData response = Some audio)
  /\ (forall e, generateSpeech reply = Thrown e -> e = SYNTHESIS_ERROR)
  /\ generateSpeech reply <> Thrown (lit "TTS candidate was empty")
  /\ generateSpeech reply <> Returned [].
Proof.
  assert (Hcases :
    (exists response audio,
       reply = Returned response /\ inlineData response = Some audio
       /\ truthy audio = true /\ generateSpeech reply = Returned audio)
    \/ (generateSpeech reply = Thrown SYNTHESIS_ERROR
        /\ forall response audio,
             reply = Returned response -> inlineData response = Some audio ->
             truthy audio = false)).
  { unfold generateSpeech. destruct reply as [response|e0]; simpl.
    - destruct (inlineData response) as [audio0|] eqn:Hdata; simpl.
      + destruct (truthy audio0) eqn:Ht; simpl.
        * left. by exists response, audio0.
        * right. split; [reflexivity|]. intros ? ? [= <-]. congruence.
      + right. split; [reflexivity|]. intros ? ? [= <-]. congruence.
    - right. split; [reflexivity|]. done. }
  destruct Hcases as [(response & audio0 & -> & Hdata & Ht & Hret)
                     | [Hthrown Hnone]].
  - rewrite Hret. split; [|split; [|split]]; try done.
    + intros audio. split.
      * intros [= <-]. split; [exact Ht|]. by exists response.
      * intros (_ & response' & [= <-] & Heq). congruence.
    + intros [= ->]. discriminate Ht.
  - rewrite Hthrown. split; [|split; [|split]]; try done.
    + intros audio. split; [done|].
      intros (Ht & response & Hreply & Hdata).
      rewrite (Hnone _ _ Hreply Hdata) in Ht. discriminate Ht.
    + by intros e [= <-].
Qed.

End Speech.

(** ** Sanitising, code fences and the generation prompt *)

Section Sanitize.

Import GeminiService OutreachForm GenerationPrompt.

Implicit Types (s t val body : js_string) (c : N).

Lemma trimStart_sublist s : trimStart s `sublist_of` s.
Proof.
  induction s as [|c r IH]; [done|].
  simpl. destruct (is_whitespace c); [by apply sublist_cons | done].
Qed.

Lemma trimEnd_sublist s : trimEnd s `sublist_of` s.
Proof.
  induction s as [|c r IH]; [done|].
  simpl. destruct (trimEnd r) as [|n l] eqn:E.
  - destruct (is_whitespace c); [apply sublist_nil_l|].
    apply sublist_skip, sublist_nil_l.
  - by apply sublist_skip.
Qed.

Lemma trim_sublist s : trim s `sublist_of` s.
Proof.
  unfold trim. etrans; [apply trimEnd_sublist | apply trimStart_sublist].
Qed.

Lemma strip_angle_brackets_sublist s : strip_angle_brackets s `sublist_of` s.
Proof.
  unfold strip_angle_brackets. induction s as [|c r IH]; [done|].
  simpl. destruct (negb _); [by apply sublist_skip | by apply sublist_cons].
Qed.

Lemma bracket_free_sublist s t :
  s `sublist_of` t -> bracket_free t -> bracket_free s.
Proof.
  unfold bracket_free. induction 1 as [|x l1 l2 _ IH|x l1 l2 _ IH]; intros Ht.
  - done.
  - apply Forall_cons in Ht as [Hx Ht]. constructor; auto.
  - apply Forall_cons in Ht as [_ Ht]. auto.
Qed.

Lemma strip_angle_brackets_free s :
  bracket_free s -> strip_angle_brackets s = s.
Proof.
  unfold strip_angle_brackets, bracket_free.
  induction 1 as [|c r [H1 H2] _ IH]; [reflexivity|].
  simpl. destruct (N.eqb_spec c 60), (N.eqb_spec c 62); try done.
  simpl. by rewrite IH.
Qed.

Lemma strip_angle_brackets_all s :
  Forall is_angle_bracket s -> strip_angle_brackets s = [].
Proof.
  unfold strip_angle_brackets.
  induction 1 as [|c r [-> | ->] _ IH]; [reflexivity | exact IH | exact IH].
Qed.

Lemma trimEnd_snoc s c :
  is_whitespace c = false -> trimEnd (s ++ [c]) = s ++ [c].
Proof.
  intros Hc. induction s as [|d r IH]; simpl.
  - by rewrite Hc.
  - rewrite IH. by destruct r.
Qed.

(** X9. [sanitize] returns its argument with some units left out, in order,
    and leaves no angle bracket; a value without angle brackets is just
    trimmed, a value that trims to nothing but angle brackets becomes the
    empty string; and the trimming comes first, so white space just inside a
    pair of brackets around the value survives. *)
Theorem sanitize_properties val :
  bracket_free (sanitize val)
  /\ sanitize val `sublist_of` val
  /\ (bracket_free val -> sanitize val = trim val)
  /\ (Forall is_angle_bracket (trim val) -> sanitize val = [])
  /\ sanitize (60%N :: val ++ [62%N]) = strip_angle_brackets val.
Proof.
  split; [apply sanitize_no_angle_brackets|].
  split; [unfold sanitize; etrans;
          [apply strip_angle_brackets_sublist | apply trim_sublist]|].
  split.
  { intros Hfree. unfold sanitize. apply strip_angle_brackets_free.
    eapply bracket_free_sublist; [apply trim_sublist | exact Hfree]. }
  split; [apply strip_angle_brackets_all|].
  unfold sanitize, trim.
  change (trimStart (60%N :: val ++ [62%N])) with (60%N :: val ++ [62%N]).
  rewrite app_comm_cons, trimEnd_snoc by reflexivity.
  unfold strip_angle_brackets. simpl. rewrite List.filter_app. simpl.
  apply app_nil_r.
Qed.

(** Units that are not backquotes pass through the fence remover. *)
Lemma strip_fences_from_plain body rest :
  96%N ∉ body ->
  strip_fences_from 0 (body ++ rest) = body ++ strip_fences_from 0 rest.
Proof.
  induction body as [|c r IH]; [done|].
  intros Hnot. apply not_elem_of_cons in Hnot as [Hc Hr].
  change ((c :: r) ++ rest) with (c :: (r ++ rest)).
  assert (Hjson : starts_with_json_fence (c :: r ++ rest) = false).
  { unfold starts_with_json_fence. destruct c as [|p]; [done|].
    destruct (decide (p = 96%positive)) as [-> | Hp]; [done|].
    repeat (destruct p as [p|p|]; try done). }
  assert (Hfence : starts_with_fence (c :: r ++ rest) = false).
  { unfold starts_with_fence. destruct c as [|p]; [done|].
    destruct (decide (p = 96%positive)) as [-> | Hp]; [done|].
    repeat (destruct p as [p|p|]; try done). }
  cbn [strip_fences_from]. rewrite Hjson, Hfence. simpl. by rewrite IH.
Qed.

Lemma strip_fences_closing : strip_fences_from 0 (lit "```") = [].
Proof. reflexivity. Qed.

(** X10. A response wrapped in a Markdown code fence parses like the text
    inside the fence: [parseSafeJSON] removes the opening fence with its
    [json] tag, in any letter case, and the closing fence, and a text
    without backquotes passes unchanged; so the fenced text and the bare
    text give the same value or the same error. *)
Theorem parseSafeJSON_fenced {A} `{JSONParser A} (j s o n : N) body :
  unit_matches_ci 106 j = true -> unit_matches_ci 115 s = true ->
  unit_matches_ci 111 o = true -> unit_matches_ci 110 n = true ->
  96%N ∉ body ->
  strip_fences (lit "```" ++ [j; s; o; n] ++ body ++ lit "```") = body
  /\ strip_fences body = body
  /\ parseSafeJSON (A := A) (lit "```" ++ [j; s; o; n] ++ body ++ lit "```")
     = parseSafeJSON body.
Proof.
  intros Hj Hs Ho Hn Hbody.
  assert (Hplain : strip_fences body = body).
  { unfold strip_fences. rewrite <- (app_nil_r body) at 1.
    rewrite strip_fences_from_plain by done. simpl. apply app_nil_r. }
  assert (Hfenced :
    strip_fences (lit "```" ++ [j; s; o; n] ++ body ++ lit "```") = body).
  { unfold strip_fences.
    change (lit "```" ++ [j; s; o; n] ++ body ++ lit "```")
      with (96%N :: 96%N :: 96%N :: j :: s :: o :: n :: (body ++ lit "```")).
    cbn [strip_fences_from starts_with_json_fence].
    rewrite Hj, Hs, Ho, Hn. simpl.
    rewrite strip_fences_from_plain by done.
    rewrite strip_fences_closing. apply app_nil_r. }
  split; [exact Hfenced|]. split; [exact Hplain|].
  unfold parseSafeJSON. by rewrite Hfenced, Hplain.
Qed.

Lemma bracket_free_forallb s :
  forallb (fun c => negb ((c =? 60) || (c =? 62))%N) s = true -> bracket_free s.
Proof.
  unfold bracket_free. rewrite forallb_forall, Forall_forall.
  intros Hall c Hc. apply list_elem_of_In, Hall in Hc.
  destruct (N.eqb_spec c 60), (N.eqb_spec c 62); done.
Qed.

Lemma bracket_free_app s t :
  bracket_free (s ++ t) <-> bracket_free s /\ bracket_free t.
Proof. apply Forall_app. Qed.

Lemma bracket_free_quoted s : bracket_free (quoted s) <-> bracket_free s.
Proof.
  unfold quoted. rewrite !bracket_free_app. split.
  - by intros (_ & Hs & _).
  - intros Hs. repeat split; [|exact Hs|]; by apply bracket_free_forallb.
Qed.

Lemma bracket_free_templateSection (template : option CustomTemplate) :
  bracket_free (templateSection template)
  <-> forall tpl, template = Some tpl -> bracket_free (tpl_content tpl).
Proof.
  destruct template as [tpl|]; unfold templateSection.
  - rewrite !bracket_free_app, bracket_free_quoted. split.
    + intros (_ & _ & _ & Ht) ? [= <-]. exact Ht.
    + intros Ht. repeat split; try (by apply bracket_free_forallb). by apply Ht.
  - split; [done|]. intros _. by apply bracket_free_forallb.
Qed.

Lemma bracket_free_referenceSection (reference : option SavedScript) :
  bracket_free (referenceSection reference)
  <-> forall r, reference = Some r -> bracket_free (content r).
Proof.
  destruct reference as [r|]; unfold referenceSection.
  - rewrite !bracket_free_app, bracket_free_quoted. split.
    + intros (_ & _ & _ & Hr) ? [= <-]. exact Hr.
    + intros Hr. repeat split; try (by apply bracket_free_forallb). by apply Hr.
  - split; [done|]. intros _. constructor.
Qed.

(** X11. The prompt of [generateVoiceNote] holds an angle bracket exactly
    when the platform, the tone, the goal, the content of the active
    template or the content of the style reference holds one: the four
    research fields go through [sanitize] and never bring one in, whatever
    was typed or extracted, while the template and the reference are quoted
    as they are. *)
Theorem generateVoiceNote_prompt_brackets (input : VoiceNoteInput)
    (template : option CustomTemplate) (reference : option SavedScript) :
  bracket_free (generateVoiceNote_prompt input template reference)
  <-> bracket_free (platform input) /\ bracket_free (tone input)
      /\ bracket_free (goal input)
      /\ (forall tpl, template = Some tpl -> bracket_free (tpl_content tpl))
      /\ (forall r, reference = Some r -> bracket_free (content r)).
Proof.
  unfold generateVoiceNote_prompt.
  rewrite !bracket_free_app, bracket_free_templateSection,
    bracket_free_referenceSection.
  split.
  - intros H. tauto.
  - intros (Hp & Ht & Hg & Htpl & Href).
    repeat split; try assumption;
      try apply sanitize_no_angle_brackets;
      by apply bracket_free_forallb.
Qed.

Lemma starts_with_app t s : starts_with t (t ++ s) = true.
Proof. induction t as [|c r IH]; [reflexivity|]. simpl. by rewrite N.eqb_refl. Qed.

Lemma includes_starts_with s t : starts_with t s = true -> includes s t = true.
Proof. intros Hs. destruct s; simpl; by rewrite Hs. Qed.

Lemma includes_app before t after : includes (before ++ t ++ after) t = true.
Proof.
  induction before as [|c r IH].
  - rewrite app_nil_l. apply includes_starts_with, starts_with_app.
  - change ((c :: r) ++ t ++ after) with (c :: (r ++ t ++ after)).
    cbn [includes]. rewrite IH. apply orb_true_r.
Qed.

(** The line of the prompt for a research field. *)
Lemma generateVoiceNote_prompt_line (input : VoiceNoteInput)
    (template : option CustomTemplate) (reference : option SavedScript)
    (f : required_field) :
  exists before after,
    generateVoiceNote_prompt input template reference
    = before ++ (context_label f ++ sanitize (required_value f input) ++ newline)
      ++ after.
Proof.
  unfold generateVoiceNote_prompt. destruct f; simpl context_label;
    simpl required_value.
  - eexists (newline ++ lit "    Generate a voice note script for "
             ++ platform input ++ lit "." ++ newline ++ lit "    " ++ newline
             ++ lit "    CONTEXT:" ++ newline), _.
    rewrite <- !app_assoc. reflexivity.
  - eexists (newline ++ lit "    Generate a voice note script for "
             ++ platform input ++ lit "." ++ newline ++ lit "    " ++ newline
             ++ lit "    CONTEXT:" ++ newline
             ++ lit "    - Owner: " ++ sanitize (ownerName input) ++ newline), _.
    rewrite <- !app_assoc. reflexivity.
  - eexists (newline ++ lit "    Generate a voice note script for "
             ++ platform input ++ lit "." ++ newline ++ lit "    " ++ newline
             ++ lit "    CONTEXT:" ++ newline
             ++ lit "    - Owner: " ++ sanitize (ownerName input) ++ newline
             ++ lit "    - Business: " ++ sanitize (businessName input)
             ++ newline), _.
    rewrite <- !app_assoc. reflexivity.
  - eexists (newline ++ lit "    Generate a voice note script for "
             ++ platform input ++ lit "." ++ newline ++ lit "    " ++ newline
             ++ lit "    CONTEXT:" ++ newline
             ++ lit "    - Owner: " ++ sanitize (ownerName input) ++ newline
             ++ lit "    - Business: " ++ sanitize (businessName input)
             ++ newline
             ++ lit "    - Gap: " ++ sanitize (identifiedGap input) ++ newline), _.
    rewrite <- !app_assoc. reflexivity.
Qed.

(** X12. Validation measures the trimmed field, the prompt carries the
    sanitised one. On a form that passes validation, generation starts a
    call whose prompt has, for each research field, its label followed by
    the sanitised value; and a field that trims to angle brackets only,
    which passes when there are two of them or more, reaches the prompt as
    the empty string: its label is followed by the end of the line. *)
Theorem accepted_field_sent_sanitized props st f :
  status st <> LOADING ->
  (forall g, 2 <= length (trim (required_value g (formData st)))) ->
  exists call,
    (handleGenerate props st).2 = Some call
    /\ includes (prompt_of_call call)
         (context_label f ++ sanitize (required_value f (formData st)) ++ newline)
       = true
    /\ (Forall is_angle_bracket (trim (required_value f (formData st))) ->
        sanitize (required_value f (call_input call)) = []
        /\ includes (prompt_of_call call) (context_label f ++ newline) = true).
Proof.
  intros Hl Hall. rewrite (handleGenerate_not_loading _ _ Hl).
  assert (Hnone : first_invalid (formData st) = None).
  { unfold first_invalid.
    destruct (List.find _ requiredFields) as [g|] eqn:Hfind; [|done].
    apply List.find_some in Hfind as [_ Hg].
    apply field_invalid_trim in Hg. specialize (Hall g). lia. }
  rewrite Hnone. eexists. split; [reflexivity|].
  unfold prompt_of_call. cbn [call_input call_template call_reference].
  destruct (generateVoiceNote_prompt_line (formData st) (activeTemplate st)
              (initialReference props) f) as (before & after & ->).
  split; [apply includes_app|].
  intros Hbr. apply strip_angle_brackets_all in Hbr.
  fold (sanitize (required_value f (formData st))) in Hbr.
  split; [exact Hbr|]. rewrite Hbr. apply includes_app.
Qed.

Lemma accepted_field_sent_sanitized_witness :
  exists call,
    (handleGenerate blank_props bracket_owner_form).2 = Some call
    /\ sanitize (ownerName (call_input call)) = []
    /\ includes (prompt_of_call call) (lit "    - Owner: " ++ newline) = true.
Proof.
  destruct (accepted_field_sent_sanitized blank_props bracket_owner_form
              R_ownerName ltac:(discriminate)
              ltac:(intros g; destruct g; vm_compute; lia))
    as (call & Hcall & _ & Hempty).
  exists call. split; [exact Hcall|].
  apply Hempty. vm_compute.
  constructor; [by left|]. constructor; [by right|]. constructor.
Defined.

End Sanitize.

(** ** The library: saving, deleting, reloading *)

Section LibraryRoundTrip.

Import OutreachForm LibraryView.

Context `{codec : JSONCodec (list SavedScript)}.

Implicit Types (store : Storage) (previous : list SavedScript)
  (st : OutreachForm.State) (view : LibraryView.State).

Lemma loadScripts_setItem store view (l : list SavedScript) :
  loadScripts (setItem LIBRARY_KEY (JSON_stringify l) store) view
  = Some {| scripts := l |}.
Proof.
  unfold loadScripts, getItem, setItem. rewrite lookup_insert_eq.
  by rewrite JSON_stringify_truthy, JSON_parse_stringify.
Qed.

Lemma filter_all {A} (P : A -> Prop) `{forall x, Decision (P x)} (l : list A) :
  Forall P l -> filter P l = l.
Proof.
  induction 1 as [|x l Hx _ IH]; [reflexivity|].
  by rewrite filter_cons_True, IH.
Qed.

(** X13. Saving a script and then deleting the saved entry from the library
    view gives back the library as it was: the view, mounted after the save,
    lists the new entry before the previous ones, and deleting its id writes
    the previous list without the entries that carry that same id; when no
    previous entry has the id, which is the clock reading of the save, that
    is the previous list itself. *)
Theorem save_then_delete_restores (now_id now_created : Z) st
    (r : VoiceNoteResult) store previous view :
  read_library store = Some previous ->
  result st = Some r ->
  truthy (script r) = true ->
  let entry := new_entry now_id now_created (formData st) r in
  let saved := handleSaveToLibrary now_id now_created st store in
  let deleted :=
    handleDelete true (id entry) {| scripts := entry :: previous |} saved.2 in
  isSavedInLibrary saved.1 = true
  /\ loadScripts saved.2 view = Some {| scripts := entry :: previous |}
  /\ scripts deleted.1 = filter (fun s => id s ≠ id entry) previous
  /\ read_library deleted.2 = Some (scripts deleted.1)
  /\ loadScripts deleted.2 view = Some deleted.1
  /\ (Forall (fun s => id s ≠ id entry) previous ->
      deleted.1 = {| scripts := previous |}
      /\ read_library deleted.2 = Some previous).
Proof.
  intros Hread Hr Hs entry saved deleted.
  unfold saved, deleted.
  rewrite (handleSaveToLibrary_prepends _ _ _ _ _ _ Hread Hr Hs).
  fold entry. cbn [fst snd].
  assert (Hkept :
    filter (fun s => id s ≠ id entry) (entry :: previous)
    = filter (fun s => id s ≠ id entry) previous)
    by (by rewrite filter_cons_False by (intros Hne; by apply Hne)).
  unfold handleDelete. cbn [fst snd scripts]. rewrite Hkept.
  split; [reflexivity|]. split; [apply loadScripts_setItem|].
  split; [reflexivity|]. split; [apply read_library_setItem|].
  split; [apply loadScripts_setItem|].
  intros Hfresh. rewrite (filter_all _ _ Hfresh).
  split; [reflexivity | apply read_library_setItem].
Qed.

(** X14. [loadScripts] replaces the list of the view by the stored one when
    the library item parses, fails when it does not, and keeps the list the
    view already shows when the item is missing or empty; and [handleDelete]
    never reads storage: whatever the library item holds, a confirmed delete
    writes the view's own list without the entries of the given id, so after
    the item was removed elsewhere the next delete puts the view's list
    back. *)
Theorem loadScripts_keeps_list_without_item view store (target : js_string) :
  (getItem LIBRARY_KEY store = None \/ getItem LIBRARY_KEY store = Some [] ->
   loadScripts store view = Some view)
  /\ (forall saved,
        getItem LIBRARY_KEY store = Some saved -> truthy saved = true ->
        loadScripts store view = (fun l => {| scripts := l |}) <$> JSON_parse saved)
  /\ read_library (handleDelete true target view store).2
     = Some (filter (fun s => id s ≠ target) (scripts view))
  /\ loadScripts (handleDelete true target view store).2 view
     = Some (handleDelete true target view store).1
  /\ handleDelete false target view store = (view, store).
Proof.
  split.
  { unfold loadScripts. by intros [-> | ->]. }
  split.
  { intros saved Hget Ht. unfold loadScripts. rewrite Hget, Ht.
    by destruct (JSON_parse saved). }
  split; [apply read_library_setItem|].
  split; [apply loadScripts_setItem | reflexivity].
Qed.

End LibraryRoundTrip.

(** ** The library: searching *)

Section Search.

Import LibrarySearch.

Context `{unicode : UnicodeCase}.

Implicit Types (s t : js_string) (scripts : list SavedScript).

Lemma starts_with_spec t s :
  starts_with t s = true <-> exists after, s = t ++ after.
Proof.
  revert s. induction t as [|a t IH]; intros s.
  - split; [by exists s | done].
  - destruct s as [|b s]; simpl.
    + split; [done | by intros [? ?]].
    + rewrite andb_true_iff, N.eqb_eq, IH. split.
      * intros [-> [after ->]]. by exists after.
      * intros [after [= -> ->]]. split; [done | by exists after].
Qed.

Lemma includes_spec s t : includes s t = true <-> occurs_in t s.
Proof.
  unfold occurs_in. induction s as [|c s IH].
  - simpl. rewrite orb_false_r, starts_with_spec. split.
    + intros [after Ha]. by exists [], after.
    + intros (before & after & Heq). symmetry in Heq.
      apply app_eq_nil in Heq as [-> Heq].
      apply app_eq_nil in Heq as [-> ->]. by exists [].
  - cbn [includes]. rewrite orb_true_iff, starts_with_spec, IH. split.
    + intros [[after ->] | (before & after & ->)].
      * by exists [], after.
      * by exists (c :: before), after.
    + intros ([|b before] & after & Heq).
      * left. by exists after.
      * right. injection Heq as -> ->. by exists before, after.
Qed.

Lemma occurs_in_trans s t u : occurs_in s t -> occurs_in t u -> occurs_in s u.
Proof.
  intros (b1 & a1 & ->) (b2 & a2 & ->).
  exists (b2 ++ b1), (a1 ++ a2). by rewrite <- !app_assoc.
Qed.

(** X15. The search box of the library keeps the scripts, in their order,
    whose owner name, business name or content holds the search term, all
    lowercased; the title, the id and the date are not searched. An empty
    term keeps every script. *)
Theorem filteredScripts_matches (searchTerm : js_string) scripts :
  filteredScripts [] scripts = scripts
  /\ filteredScripts searchTerm scripts `sublist_of` scripts
  /\ (forall script,
        script ∈ filteredScripts searchTerm scripts
        <-> script ∈ scripts
            /\ (occurs_in (String_toLowerCase searchTerm)
                  (String_toLowerCase (ss_ownerName script))
                \/ occurs_in (String_toLowerCase searchTerm)
                     (String_toLowerCase (ss_businessName script))
                \/ occurs_in (String_toLowerCase searchTerm)
                     (String_toLowerCase (content script)))).
Proof.
  unfold filteredScripts. split; [|split].
  - induction scripts as [|x l IH]; [reflexivity|].
    simpl. unfold matches at 1. rewrite String_toLowerCase_empty.
    replace (includes (String_toLowerCase (ss_ownerName x)) []) with true
      by (by destruct (String_toLowerCase (ss_ownerName x))).
    simpl. by rewrite IH.
  - induction scripts as [|x l IH]; [done|].
    simpl. destruct (matches searchTerm x);
      [by apply sublist_skip | by apply sublist_cons].
  - intros script. rewrite !list_elem_of_In, List.filter_In.
    unfold matches. rewrite !orb_true_iff, !includes_spec. tauto.
Qed.

Lemma toLowerCase_app s t : toLowerCase (s ++ t) = toLowerCase s ++ toLowerCase t.
Proof. apply List.map_app. Qed.

(** X16. Typing more narrows the search: when the term typed so far occurs
    in the longer term, every script the longer term keeps is kept by the
    shorter one. (For ASCII terms, on which lowercasing works letter by
    letter.) *)
Theorem filteredScripts_narrows (shorter longer : js_string) scripts :
  ascii_text longer ->
  occurs_in shorter longer ->
  forall script,
    script ∈ filteredScripts longer scripts ->
    script ∈ filteredScripts shorter scripts.
Proof.
  intros Hascii (before & after & ->) script.
  assert (Hshort : ascii_text shorter).
  { unfold ascii_text in *. by apply Forall_app in Hascii as [_ [H _]%Forall_app]. }
  assert (Hocc : occurs_in (String_toLowerCase shorter)
                   (String_toLowerCase (before ++ shorter ++ after))).
  { rewrite (String_toLowerCase_ascii _ Hascii),
      (String_toLowerCase_ascii _ Hshort), !toLowerCase_app.
    by eexists _, _. }
  unfold filteredScripts. rewrite !list_elem_of_In, !List.filter_In.
  unfold matches. rewrite !orb_true_iff, !includes_spec.
  intros [Hin Hm]. split; [exact Hin|].
  destruct Hm as [[Hm | Hm] | Hm];
    [left; left | left; right | right]; by eapply occurs_in_trans.
Qed.

End Search.

(** ** [App]: storage follows the state *)

Section AppSync.

Import App.

Context `{codec : JSONCodec (option SavedScript)}.

Implicit Types (store : Storage) (st : App.State).

Lemma truthy_tab_handle a st :
  names_tab a -> truthy (activeTab st) = true ->
  truthy (activeTab (handle a st)) = true.
Proof. by destruct a. Qed.

Lemma run_actions_rendered actions : forall st store,
  Forall names_tab actions ->
  rendered st store -> truthy (activeTab st) = true ->
  rendered (run_actions actions (st, store)).1 (run_actions actions (st, store)).2
  /\ truthy (activeTab (run_actions actions (st, store)).1) = true.
Proof.
  induction actions as [|a rest IH]; intros st store Hall Hr Ht; [done|].
  apply Forall_cons in Hall as [Ha Hrest].
  destruct (step_run_effects a st store Hr) as [Hstep Hr'].
  unfold run_actions. simpl. rewrite Hstep.
  apply IH; [exact Hrest | exact Hr' | by apply truthy_tab_handle].
Qed.

Lemma truthy_tab_init store st :
  init store = Some st -> truthy (activeTab st) = true.
Proof.
  unfold init.
  assert (Ht : truthy (or_default (getItem TAB_KEY store) (lit "create")) = true).
  { destruct (getItem TAB_KEY store) as [[|c tab]|]; reflexivity. }
  destruct (getItem REFERENCE_KEY store) as [saved|].
  - destruct (truthy saved).
    + destruct (JSON_parse saved); [|discriminate]. by intros [= <-].
    + by intros [= <-].
  - by intros [= <-].
Qed.

(** X17. On a page loaded from storage, whatever the user does on [App]
    (choosing references, clearing them, switching tabs), storage follows:
    loading the page again at any point starts in exactly the state the page
    is in, tab and style reference, and leaves storage as it is. *)
Theorem reload_restores_state store0 st store (actions : list action) :
  load store0 = Some (st, store) ->
  Forall names_tab actions ->
  load (run_actions actions (st, store)).2
  = Some (run_actions actions (st, store)).
Proof.
  intros Hload Hall.
  assert (Ht : truthy (activeTab st) = true).
  { unfold load in Hload. destruct (init store0) as [st0|] eqn:Hinit; [|done].
    injection Hload as <- _. by eapply truthy_tab_init. }
  apply load_rendered in Hload.
  destruct (run_actions_rendered actions st store Hall Hload Ht) as [Hr Ht'].
  destruct (run_actions actions (st, store)) as [st' store']. simpl in *.
  unfold load. unfold rendered in Hr.
  rewrite <- Hr at 1. rewrite (init_run_effects _ _ Ht'). simpl.
  by rewrite Hr.
Qed.

(** X18. Loading the page fails exactly when the stored style reference is
    a non-empty text that [JSON.parse] rejects: nothing catches its error.
    Otherwise the page starts on the stored tab, whatever string that is, or
    on the generator tab when none or the empty string is stored; with no
    reference when the item is missing or empty, and with the parsed value
    otherwise, a script or none when [null] is stored. The first effects
    then write that state back, so a stored [null] is removed. *)
Theorem load_cases store :
  (load store = None
   <-> exists saved,
         getItem REFERENCE_KEY store = Some saved /\ truthy saved = true
         /\ JSON_parse saved = None)
  /\ (forall st store',
        load store = Some (st, store') ->
        activeTab st = or_default (getItem TAB_KEY store) (lit "create")
        /\ truthy (activeTab st) = true
        /\ (getItem REFERENCE_KEY store = None
            \/ getItem REFERENCE_KEY store = Some [] ->
            selectedReference st = None)
        /\ (forall saved,
              getItem REFERENCE_KEY store = Some saved -> truthy saved = true ->
              JSON_parse saved = Some (selectedReference st))
        /\ store' = run_effects st store
        /\ (selectedReference st = None ->
            getItem REFERENCE_KEY store' = None)).
Proof.
  split.
  - unfold load, init.
    destruct (getItem REFERENCE_KEY store) as [saved|] eqn:Hget.
    + destruct (truthy saved) eqn:Ht.
      * destruct (JSON_parse saved) as [parsed|] eqn:Hp; simpl.
        -- split; [done | intros (? & [= <-] & _ & ?); congruence].
        -- split; [by exists saved | done].
      * simpl. split; [done | intros (? & [= <-] & ? & _); congruence].
    + simpl. split; [done | by intros (? & ? & _)].
  - intros st store' Hload.
    assert (Htab : truthy (activeTab st) = true).
    { unfold load in Hload. destruct (init store) as [st0|] eqn:Hinit; [|done].
      injection Hload as <- _. by eapply truthy_tab_init. }
    unfold load in Hload.
    destruct (init store) as [st0|] eqn:Hinit; [|done].
    injection Hload as <- <-. unfold init in Hinit.
    split.
    { destruct (getItem REFERENCE_KEY store) as [saved|].
      - destruct (truthy saved).
        + destruct (JSON_parse saved); [|done]. by injection Hinit as <-.
        + by injection Hinit as <-.
      - by injection Hinit as <-. }
    split; [exact Htab|]. split.
    { intros [Hget | Hget]; rewrite Hget in Hinit; simpl in Hinit;
        by injection Hinit as <-. }
    split.
    { intros saved Hget Ht. rewrite Hget, Ht in Hinit.
      destruct (JSON_parse saved) as [parsed|]; [|done].
      by injection Hinit as <-. }
    split; [reflexivity|].
    intros Hnone. rewrite getItem_reference_run_effects. by rewrite Hnone.
Qed.

End AppSync.

(** ** Playing the script: one request, one clip *)

Section PlaybackGuard.

Import GeminiService OutreachForm Playback.

Lemma playback_invariant_step c e c' :
  playback_invariant c -> step c e c' -> playback_invariant c'.
Proof.
  unfold playback_invariant. intros Hinv Hstep.
  destruct Hstep as [c | c prepared n Hn | c n Hn | c handler];
    destruct c as [[f l p a] req un]; simpl in *;
    destruct Hinv as (Hreq & Hun & Href & Hflags).
  - unfold handlePlayTTS. simpl.
    destruct (result f) as [r|]; [|done].
    destruct l, p; simpl; try done. by rewrite Hreq.
  - destruct l; [|lia]. specialize (Hflags eq_refl). subst p.
    specialize (Href eq_refl). subst a.
    assert (n = 0) as -> by lia.
    destruct prepared as [audioBuffer|message]; simpl; unfold started; simpl;
      repeat split; try done; lia.
  - destruct p; [|lia]. assert (n = 0) as -> by lia.
    destruct l; [by specialize (Hflags eq_refl)|]. done.
  - done.
Qed.

Lemma playback_invariant_reachable c : reachable c -> playback_invariant c.
Proof.
  induction 1 as [|c e c' _ IH Hstep]; [done|].
  by eapply playback_invariant_step.
Qed.

(** X19. The play button: without a script, while a speech request is
    pending or while a clip is playing, [handlePlayTTS] does nothing. Hence,
    in every state one mounted form can reach, at most one speech request is
    pending or one clip sounding, never both; a request is pending exactly
    while the loading flag is up and a clip sounding exactly while the
    playing flag is up; and when a request settles no earlier clip is there
    to be stopped: the handler only ever starts a clip. *)
Theorem handlePlayTTS_single_clip c :
  reachable c ->
  requests c + unended c <= 1
  /\ (requests c = 1 <-> ttsLoading (view c) = true)
  /\ (unended c = 1 <-> isPlaying (view c) = true)
  /\ (result (form (view c)) = None \/ ttsLoading (view c) = true
      \/ isPlaying (view c) = true ->
      handlePlayTTS (view c) = (view c, None))
  /\ (forall prepared,
        ttsLoading (view c) = true ->
        Forall (fun command => exists buffer, command = Start buffer)
          (handlePlayTTS_settled prepared (view c)).2).
Proof.
  intros Hc. apply playback_invariant_reachable in Hc.
  destruct c as [[f l p a] req un]. unfold playback_invariant in Hc.
  simpl in *. destruct Hc as (-> & -> & Href & Hflags).
  assert (Hnot : l = true -> p = true -> False)
    by (intros -> ->; by specialize (Hflags eq_refl)).
  split; [destruct l, p; simpl; try lia; by destruct Hnot|].
  split; [by destruct l|]. split; [by destruct p|].
  split.
  - unfold handlePlayTTS. simpl. intros [-> | [-> | ->]]; [done | |].
    + by destruct (result f).
    + destruct (result f); [|done]. by rewrite orb_true_r.
  - intros prepared ->. rewrite (Href (Hflags eq_refl)).
    destruct prepared as [audioBuffer|message]; simpl; [|done].
    constructor; [by eexists | done].
Qed.

Lemma play_pressed_reachable : reachable play_pressed.
Proof.
  pose proof (reachable_step _ _ _ reachable_initial
                (step_form initial (fun _ => generated_form))) as H1.
  exact (reachable_step _ _ _ H1 (step_play _)).
Defined.

Lemma handlePlayTTS_single_clip_witness :
  requests play_pressed + unended play_pressed <= 1
  /\ handlePlayTTS (view play_pressed) = (view play_pressed, None).
Proof.
  destruct (handlePlayTTS_single_clip play_pressed play_pressed_reachable)
    as (Hone & _ & _ & Hguard & _).
  split; [exact Hone|]. apply Hguard. right. left. reflexivity.
Defined.

End PlaybackGuard.

(** ** The template manager *)

Section Templates.

Import OutreachForm TemplateManager TemplateFlow.

Context `{codec : JSONCodec (list CustomTemplate)}.

Implicit Types (st : TemplateManager.State) (store : Storage)
  (parent : OutreachForm.State).

Lemma read_templates_setItem store (l : list CustomTemplate) :
  read_templates (setItem TEMPLATES_KEY (JSON_stringify l) store) = Some l.
Proof.
  unfold read_templates, getItem, setItem. rewrite lookup_insert_eq.
  by rewrite JSON_stringify_truthy, JSON_parse_stringify.
Qed.

Lemma handleSave_valid now st store :
  truthy (draft_name (currentTemplate st)) = true ->
  truthy (draft_content (currentTemplate st)) = true ->
  handleSave now st store =
  match editing_id (currentTemplate st) with
  | Some i =>
      let updated :=
        List.map (fun t => if decide (tpl_id t = i)
                           then as_template i (currentTemplate st) else t)
                 (templates st) in
      ({| templates := updated; isEditing := false;
          currentTemplate := blank_draft |},
       setItem TEMPLATES_KEY (JSON_stringify updated) store, None)
  | None =>
      let newTemplate :=
        {| tpl_id := Number_toString now;
           tpl_name := draft_name (currentTemplate st);
           tpl_content := draft_content (currentTemplate st) |} in
      ({| templates := templates st ++ [newTemplate]; isEditing := false;
          currentTemplate := blank_draft |},
       setItem TEMPLATES_KEY (JSON_stringify (templates st ++ [newTemplate])) store,
       Some (Some newTemplate))
  end.
Proof.
  intros Hn Hc. unfold handleSave. rewrite Hn, Hc. simpl.
  by destruct (editing_id (currentTemplate st)).
Qed.

Lemma handleSave_invalid now st store :
  truthy (draft_name (currentTemplate st)) = false
  \/ truthy (draft_content (currentTemplate st)) = false ->
  handleSave now st store = (st, store, None).
Proof.
  unfold handleSave. intros [-> | ->]; [done|]. by rewrite orb_true_r.
Qed.

(** X20. Saving an edited template replaces, in the list and in storage,
    every template with the edited id by the draft, and nothing else: the
    list keeps its length, its order and its ids. The form is not told: no
    template is selected or deselected, so when the edited template is the
    active one, the form goes on holding its old name and content. *)
Theorem handleSave_edit_in_place (now : Z) st store (i : js_string) parent :
  truthy (draft_name (currentTemplate st)) = true ->
  truthy (draft_content (currentTemplate st)) = true ->
  editing_id (currentTemplate st) = Some i ->
  let out := handleSave now st store in
  let edited := as_template i (currentTemplate st) in
  out.2 = None
  /\ activeTemplate (on_select out.2 parent) = activeTemplate parent
  /\ length (templates out.1.1) = length (templates st)
  /\ tpl_id <$> templates out.1.1 = tpl_id <$> templates st
  /\ (forall k t,
        templates st !! k = Some t ->
        templates out.1.1 !! k
        = Some (if decide (tpl_id t = i) then edited else t))
  /\ read_templates out.1.2 = Some (templates out.1.1)
  /\ isEditing out.1.1 = false
  /\ currentTemplate out.1.1 = blank_draft.
Proof.
  intros Hn Hc Hi out edited. unfold out.
  rewrite (handleSave_valid _ _ _ Hn Hc), Hi. cbn [fst snd templates].
  split; [reflexivity|]. split; [reflexivity|].
  split; [apply length_map|].
  split.
  { rewrite <- list_fmap_compose. apply list_fmap_ext.
    intros k t _. simpl. by destruct (decide (tpl_id t = i)). }
  split.
  { intros k t Hk. change (List.map ?f ?l) with (f <$> l).
    by rewrite list_lookup_fmap, Hk. }
  split; [apply read_templates_setItem|]. done.
Qed.

(** X21. Saving a new template appends it after the listed ones, stores the
    list and makes the new template the active one of the form; deleting it
    again removes it from the list and from storage and leaves the form
    without an active template. The list is then the one before the save,
    unless a listed template had the new id (the clock reading of the save),
    in which case that one is deleted with it. *)
Theorem template_save_then_delete (now : Z) st store parent :
  truthy (draft_name (currentTemplate st)) = true ->
  truthy (draft_content (currentTemplate st)) = true ->
  editing_id (currentTemplate st) = None ->
  let newTemplate :=
    {| tpl_id := Number_toString now;
       tpl_name := draft_name (currentTemplate st);
       tpl_content := draft_content (currentTemplate st) |} in
  let saved := handleSave now st store in
  let parent1 := on_select saved.2 parent in
  let deleted :=
    handleDelete (props_of parent1) true (tpl_id newTemplate)
      saved.1.1 saved.1.2 in
  templates saved.1.1 = templates st ++ [newTemplate]
  /\ read_templates saved.1.2 = Some (templates st ++ [newTemplate])
  /\ activeTemplate parent1 = Some newTemplate
  /\ templates deleted.1.1
     = filter (fun t => tpl_id t ≠ tpl_id newTemplate) (templates st)
  /\ read_templates deleted.1.2 = Some (templates deleted.1.1)
  /\ activeTemplate (on_select deleted.2 parent1) = None
  /\ (Forall (fun t => tpl_id t ≠ tpl_id newTemplate) (templates st) ->
      templates deleted.1.1 = templates st).
Proof.
  intros Hn Hc Hi newTemplate saved parent1 deleted.
  unfold deleted, parent1, saved.
  rewrite (handleSave_valid _ _ _ Hn Hc), Hi. fold newTemplate.
  cbn [fst snd templates on_select].
  split; [reflexivity|]. split; [apply read_templates_setItem|].
  split; [reflexivity|].
  unfold handleDelete, saveTemplates, props_of.
  cbn [fst snd templates activeTemplate setActiveTemplate fmap option_fmap option_map
       activeTemplateId].
  rewrite decide_True by reflexivity.
  rewrite filter_app, (filter_cons_False _ newTemplate)
    by (intros Hne; by apply Hne).
  rewrite filter_nil, app_nil_r.
  split; [reflexivity|]. split; [apply read_templates_setItem|].
  split; [reflexivity|].
  intros Hfresh. by apply filter_all.
Qed.

Lemma template_invariant_step c e c' :
  template_invariant c -> step c e c' -> template_invariant c'.
Proof.
  unfold template_invariant. intros [Hsync Hactive] Hstep.
  destruct Hstep as [c k template Hk | c | c now | c confirmed k template Hk
                    | c k template Hk | c | c | c | c content | c value
                    | c value | c field value]; simpl;
    try (split; [exact Hsync | exact Hactive]).
  - split; [exact Hsync|]. intros active [= <-].
    apply list_elem_of_fmap. exists template. split; [done|].
    by eapply list_elem_of_lookup_2.
  - split; [exact Hsync | done].
  - unfold after.
    destruct (truthy (draft_name (currentTemplate (manager c)))) eqn:Hn;
      [|rewrite handleSave_invalid by (by left); simpl; by split].
    destruct (truthy (draft_content (currentTemplate (manager c)))) eqn:Hc;
      [|rewrite handleSave_invalid by (by right); simpl; by split].
    rewrite (handleSave_valid _ _ _ Hn Hc).
    destruct (editing_id (currentTemplate (manager c))) as [i|]; simpl.
    + split; [apply read_templates_setItem|].
      intros active Ha. specialize (Hactive active Ha).
      change (List.map ?f ?l) with (f <$> l).
      rewrite <- list_fmap_compose.
      erewrite list_fmap_ext; [exact Hactive|].
      intros ? t _. simpl. by destruct (decide (tpl_id t = i)).
    + split; [apply read_templates_setItem|].
      intros active [= <-]. rewrite fmap_app. set_solver.
  - unfold after, handleDelete. destruct confirmed; simpl; [|by split].
    split; [apply read_templates_setItem|].
    intros active Ha. unfold props_of in Ha. cbn [activeTemplateId] in Ha.
    destruct (activeTemplate (parent c)) as [old|] eqn:Hold.
    + case_decide as Heq; simpl in Ha; [discriminate|].
      rewrite Hold in Ha. injection Ha as <-.
      specialize (Hactive old eq_refl).
      apply list_elem_of_fmap in Hactive as (t & Ht & Hin).
      apply list_elem_of_fmap. exists t. split; [done|].
      apply list_elem_of_filter. split; [|done].
      intros Hid. apply Heq. simpl. congruence.
    + case_decide as Heq; simpl in Ha; [discriminate | congruence].
Qed.

Lemma template_invariant_mounted store c :
  mounted store c -> template_invariant c.
Proof.
  intros [parent0 st Hmount]. unfold template_invariant. simpl.
  split; [|done]. unfold mount in Hmount. unfold read_templates.
  destruct (getItem TEMPLATES_KEY store) as [saved|].
  - destruct (truthy saved).
    + destruct (JSON_parse saved) as [parsed|]; [|done].
      by injection Hmount as <-.
    + by injection Hmount as <-.
  - by injection Hmount as <-.
Qed.

(** X22. From the moment the template manager has mounted, through every
    selection, edit, save and delete, storage holds exactly the list the
    manager shows, and the active template of the form, when there is one,
    carries the id of a listed template: a deleted template never stays
    active. *)
Theorem template_flow_invariant store c :
  reachable store c ->
  read_templates (storage c) = Some (templates (manager c))
  /\ forall active,
       activeTemplate (parent c) = Some active ->
       exists listed,
         listed ∈ templates (manager c) /\ tpl_id listed = tpl_id active.
Proof.
  intros Hc.
  assert (Hinv : template_invariant c).
  { induction Hc as [c Hm | c e c' _ IH Hstep].
    - by eapply template_invariant_mounted.
    - by eapply template_invariant_step. }
  destruct Hinv as [Hsync Hactive]. split; [exact Hsync|].
  intros active Ha. specialize (Hactive active Ha).
  apply list_elem_of_fmap in Hactive as (t & Ht & Hin). by exists t.
Qed.

End Templates.

(** ** Playing from the library *)

Section LibraryPlaybackGuard.

Import GeminiService LibraryPlayback.

Lemma library_playback_invariant_step scripts c e c' :
  Forall (fun s => truthy (id s) = true) scripts ->
  library_playback_invariant c -> step scripts c e c' ->
  library_playback_invariant c'.
Proof.
  intros Hids Hinv Hstep. unfold library_playback_invariant in *.
  destruct Hstep as [c script Hin | c script prepared before after Hreq | c n Hn];
    destruct c as [[l p] reqs un]; simpl in *.
  - rewrite Forall_forall in Hids. specialize (Hids script Hin).
    unfold handlePlayVoice. simpl.
    destruct reqs as [|r0 [|r1 reqs]]; [| |by destruct un].
    + destruct un as [|[|un]]; [| |done].
      * destruct Hinv as [-> ->]. simpl. done.
      * destruct Hinv as [-> Hp]. simpl. rewrite Hp. simpl. by rewrite Hp.
    + destruct un; [|done]. destruct Hinv as (-> & Ht & ->). simpl.
      rewrite Ht. simpl. by rewrite Ht.
  - subst reqs. destruct before as [|b0 before]; simpl in *.
    + destruct after as [|a0 after]; [|by destruct un].
      destruct un; [|done]. destruct Hinv as (-> & Ht & ->).
      destruct prepared as [audioBuffer|message]; simpl; [|done].
      by rewrite Ht.
    + destruct before, after; simpl in *; by destruct un.
  - subst un. destruct reqs as [|r0 reqs].
    + destruct n; [|done]. by destruct Hinv as [-> _].
    + by destruct reqs.
Qed.

(** X26. The play buttons of one mounted library view: while an id is
    loading or playing [handlePlayVoice] does nothing, otherwise it asks for
    the script's content in the voice Zephyr and a professional tone,
    whatever persona the script was written for. As long as the listed
    scripts have non-empty ids, in every state that one mounted view can
    reach at most one of its speech requests is pending or one of its clips
    sounding. (The view forgets its two ids when it is unmounted, so this
    says nothing across a switch of tab. The guard tests the ids for truth;
    for a script whose id is the empty string it never holds, and a second
    press sends a second request.) *)
Theorem handlePlayVoice_single_clip scripts c (script : SavedScript)
    (st : LibraryPlayback.State) :
  Forall (fun s => truthy (id s) = true) scripts ->
  reachable scripts c ->
  length (requests c) + unended c <= 1
  /\ (is_set (loadingId st) || is_set (playingId st) = true ->
      handlePlayVoice script st = (st, None))
  /\ (is_set (loadingId st) || is_set (playingId st) = false ->
      (handlePlayVoice script st).2
      = Some {| speech_prompt :=
                  lit "Voice this script in a professional tone: "
                  ++ [34%N] ++ trim (strip_markers (content script)) ++ [34%N];
                speech_voiceName := Str (lit "Zephyr") |})
  /\ (id script = [] ->
      is_set (loadingId st) || is_set (playingId st) = false ->
      is_Some (handlePlayVoice script (handlePlayVoice script st).1).2).
Proof.
  intros Hids Hc.
  assert (Hinv : library_playback_invariant c).
  { induction Hc as [|c e c' _ IH Hstep]; [done|].
    by eapply library_playback_invariant_step. }
  split.
  { unfold library_playback_invariant in Hinv.
    destruct (requests c) as [|r0 [|r1 reqs]], (unended c) as [|[|n]];
      simpl; try done; lia. }
  unfold handlePlayVoice.
  split; [by intros ->|]. split; [by intros ->|].
  intros Hid Hidle. rewrite Hidle. simpl. rewrite Hid. simpl.
  apply orb_false_iff in Hidle as [_ ->]. by eexists.
Qed.

Lemma library_play_pressed_reachable :
  reachable [anna_script; mike_script] library_play_pressed.
Proof.
  exact (reachable_step _ _ _ _ (reachable_initial _)
           (step_play [anna_script; mike_script] initial anna_script
              ltac:(by left))).
Defined.

Lemma handlePlayVoice_single_clip_witness :
  length (requests library_play_pressed) + unended library_play_pressed <= 1
  /\ handlePlayVoice mike_script (view library_play_pressed)
     = (view library_play_pressed, None)
  /\ is_Some (handlePlayVoice nameless_script
                (handlePlayVoice nameless_script initial_state).1).2.
Proof.
  destruct (handlePlayVoice_single_clip [anna_script; mike_script]
              library_play_pressed mike_script (view library_play_pressed)
              ltac:(repeat constructor) library_play_pressed_reachable)
    as (Hone & Hguard & _).
  destruct (handlePlayVoice_single_clip [anna_script; mike_script]
              library_play_pressed nameless_script initial_state
              ltac:(repeat constructor) library_play_pressed_reachable)
    as (_ & _ & _ & Hempty).
  split; [exact Hone|]. split; [by apply Hguard | by apply Hempty].
Defined.

End LibraryPlaybackGuard.

(** ** From the library to the prompt: the style reference *)

Section ReferenceInPrompt.

Import GeminiService OutreachForm GenerationPrompt App AppView.

Lemma generateVoiceNote_prompt_reference (input : VoiceNoteInput)
    (template : option CustomTemplate) (reference : option SavedScript) :
  exists before after,
    generateVoiceNote_prompt input template reference
    = before ++ referenceSection reference ++ after.
Proof.
  unfold generateVoiceNote_prompt.
  eexists (newline ++ lit "    Generate a voice note script for "
           ++ platform input ++ lit "." ++ newline ++ lit "    " ++ newline
           ++ lit "    CONTEXT:" ++ newline
           ++ lit "    - Owner: " ++ sanitize (ownerName input) ++ newline
           ++ lit "    - Business: " ++ sanitize (businessName input) ++ newline
           ++ lit "    - Gap: " ++ sanitize (identifiedGap input) ++ newline
           ++ lit "    - Free Value: " ++ sanitize (freeValue input) ++ newline
           ++ lit "    - Tone: " ++ tone input ++ newline
           ++ lit "    - Goal: " ++ goal input ++ newline ++ newline
           ++ lit "    " ++ templateSection template ++ newline ++ lit "    "), _.
  rewrite <- !app_assoc. reflexivity.
Qed.

(** X25. Choosing a saved script as style reference brings up the generator
    with that script as its reference, whatever tab and reference were
    there; the next generation on a valid form then carries the script, and
    its prompt quotes the content of the script, as saved, under the style
    reference heading. Once the reference is cleared the generator is
    rendered without one and the call carries none. A stored tab other than
    the generator's shows the library. *)
Theorem reference_reaches_prompt (st : App.State) (script : SavedScript)
    (form : OutreachForm.State) :
  OutreachForm.status form <> LOADING ->
  (forall f, 2 <= length (trim (required_value f (formData form)))) ->
  render (handleUseAsReference script st)
  = Generator {| initialReference := Some script |}
  /\ (exists call,
        (handleGenerate {| initialReference := Some script |} form).2 = Some call
        /\ call_reference call = Some script
        /\ includes (prompt_of_call call)
             (lit "STYLE REFERENCE (Mirror this energy):" ++ newline
              ++ quoted (content script)) = true)
  /\ (activeTab st = lit "create" ->
      render (onClearReference st) = Generator {| initialReference := None |}
      /\ exists call,
           (handleGenerate {| initialReference := None |} form).2 = Some call
           /\ call_reference call = None
           /\ prompt_of_call call
              = generateVoiceNote_prompt (formData form) (activeTemplate form) None)
  /\ (activeTab st <> lit "create" ->
      render st = Library (id <$> selectedReference st)).
Proof.
  intros Hl Hall.
  assert (Hnone : first_invalid (formData form) = None).
  { unfold first_invalid.
    destruct (List.find _ requiredFields) as [g|] eqn:Hfind; [|done].
    apply List.find_some in Hfind as [_ Hg].
    apply field_invalid_trim in Hg. specialize (Hall g). lia. }
  split; [reflexivity|]. split; [|split].
  - rewrite (handleGenerate_not_loading _ _ Hl), Hnone.
    eexists. split; [reflexivity|]. split; [reflexivity|].
    unfold prompt_of_call.
    cbn [call_input call_template call_reference initialReference].
    destruct (generateVoiceNote_prompt_reference (formData form)
                (activeTemplate form) (Some script)) as (before & after & ->).
    unfold referenceSection.
    replace (before
             ++ (newline ++ lit "STYLE REFERENCE (Mirror this energy):"
                 ++ newline ++ quoted (content script)) ++ after)
      with ((before ++ newline)
            ++ (lit "STYLE REFERENCE (Mirror this energy):" ++ newline
                ++ quoted (content script)) ++ after)
      by (by rewrite <- !app_assoc).
    apply includes_app.
  - intros Htab. unfold render, onClearReference. simpl.
    rewrite decide_True by done. split; [reflexivity|].
    rewrite (handleGenerate_not_loading _ _ Hl), Hnone.
    eexists. by repeat split.
  - intros Htab. unfold render. by rewrite decide_False.
Qed.

Lemma reference_reaches_prompt_witness :
  exists call,
    (handleGenerate {| initialReference := Some mike_script |} filled_form).2
    = Some call
    /\ includes (prompt_of_call call)
         (lit "STYLE REFERENCE (Mirror this energy):" ++ newline
          ++ quoted (lit "[0-5s] Hey Mike, [5-10s] saw your site")) = true.
Proof.
  destruct (reference_reaches_prompt fresh_page.1 mike_script filled_form
              ltac:(discriminate)
              ltac:(intros g; destruct g; vm_compute; lia))
    as (_ & (call & Hcall & _ & Hprompt) & _).
  by exists call.
Defined.

End ReferenceInPrompt.

(** ** Editing the form while a call is pending *)

Section FormEdits.

Import GeminiService OutreachForm.

Context `{codec : JSONCodec (list SavedScript)}.

Implicit Types (st : OutreachForm.State) (field : field_key) (value : js_string).

Lemma apply_updates_frame updates : forall st,
  status (apply_updates updates st) = status st
  /\ result (apply_updates updates st) = result st
  /\ errorMessage (apply_updates updates st) = errorMessage st
  /\ activeTemplate (apply_updates updates st) = activeTemplate st
  /\ isSavedInLibrary (apply_updates updates st) = isSavedInLibrary st.
Proof.
  induction updates as [|[field value] rest IH]; intros st; [done|].
  unfold apply_updates in *. simpl.
  by destruct (IH (updateField field value st)) as (-> & -> & -> & -> & ->).
Qed.

Lemma formData_apply_updates updates : forall st st',
  formData st = formData st' ->
  formData (apply_updates updates st) = formData (apply_updates updates st').
Proof.
  induction updates as [|[field value] rest IH]; intros st st' Heq; [done|].
  unfold apply_updates in *. simpl. apply IH.
  unfold updateField. simpl. by rewrite Heq.
Qed.

(** X28. A generation call carries the form data of the moment the button
    was pressed: fields edited while the call is pending do not reach it,
    and they do not disturb its outcome, which is shown with the status
    Success. The library entry saved afterwards takes its owner name,
    business name and title from the form as it is at the time of saving,
    edits included, and its content from the script that was generated. *)
Theorem saved_entry_labels_current_form (props : Props) st
    (updates : list (field_key * js_string)) (data : VoiceNoteResult)
    (now_id now_created : Z) (store : Storage) (previous : list SavedScript) :
  status st <> LOADING ->
  (forall f, 2 <= length (trim (required_value f (formData st)))) ->
  truthy (script data) = true ->
  read_library store = Some previous ->
  let pressed := handleGenerate props st in
  let edited := apply_updates updates pressed.1 in
  let settled := handleGenerate_settled (Returned (Some data)) edited in
  let saved := handleSaveToLibrary now_id now_created settled store in
  (exists call, pressed.2 = Some call /\ call_input call = formData st)
  /\ status edited = LOADING
  /\ (handleGenerate props edited).2 = None
  /\ status settled = SUCCESS /\ result settled = Some data
  /\ formData settled = formData (apply_updates updates st)
  /\ read_library saved.2
     = Some ({| id := Number_toString now_id;
                title := ownerName (formData (apply_updates updates st))
                         ++ lit " @ "
                         ++ businessName (formData (apply_updates updates st));
                content := script data;
                ss_ownerName := ownerName (formData (apply_updates updates st));
                ss_businessName :=
                  businessName (formData (apply_updates updates st));
                createdAt := now_created |} :: previous).
Proof.
  intros Hl Hall Hscript Hread pressed edited settled saved.
  assert (Hnone : first_invalid (formData st) = None).
  { unfold first_invalid.
    destruct (List.find _ requiredFields) as [g|] eqn:Hfind; [|done].
    apply List.find_some in Hfind as [_ Hg].
    apply field_invalid_trim in Hg. specialize (Hall g). lia. }
  assert (Hpressed :
    pressed = (setResult None (setStatus LOADING (setErrorMessage None st)),
               Some {| call_input := formData st;
                       call_template := activeTemplate st;
                       call_reference := initialReference props |})).
  { unfold pressed. by rewrite (handleGenerate_not_loading _ _ Hl), Hnone. }
  destruct (apply_updates_frame updates pressed.1)
    as (Hstatus & Hresult & _ & _ & _).
  assert (Hform : formData edited = formData (apply_updates updates st)).
  { unfold edited. apply formData_apply_updates. by rewrite Hpressed. }
  assert (Hloading : status edited = LOADING).
  { unfold edited. rewrite Hstatus. by rewrite Hpressed. }
  split; [rewrite Hpressed; by eexists|].
  split; [exact Hloading|].
  split; [by rewrite (handleGenerate_loading _ _ Hloading)|].
  split; [reflexivity|]. split; [reflexivity|].
  split; [exact Hform|].
  unfold saved.
  rewrite (handleSaveToLibrary_prepends _ _ _ _ previous data Hread)
    by done.
  cbn [snd]. rewrite read_library_setItem. unfold new_entry.
  change (formData settled) with (formData edited). by rewrite Hform.
Qed.

End FormEdits.

(** ** Storage: every component keeps to its keys *)

Section StorageKeys.

Import OutreachForm.

Context `{scripts_codec : JSONCodec (list SavedScript)}
        `{reference_codec : JSONCodec (option SavedScript)}
        `{templates_codec : JSONCodec (list CustomTemplate)}.

Implicit Types (store : Storage) (key : js_string).

Lemma getItem_setItem_ne key key' value store :
  key <> key' -> getItem key (setItem key' value store) = getItem key store.
Proof. intros Hne. unfold getItem, setItem. by apply lookup_insert_ne. Qed.

Lemma getItem_removeItem_ne key key' store :
  key <> key' -> getItem key (removeItem key' store) = getItem key store.
Proof. intros Hne. unfold getItem, removeItem. by apply lookup_delete_ne. Qed.

(** X23. The four storage keys differ, and every handler writes under its
    own only: saving to and deleting from the library touch nothing but the
    library item, saving and deleting a template nothing but the templates
    item, and the effects of [App] nothing but the tab and the style
    reference. In particular, deleting a script from the library leaves the
    persisted style reference as it is, also when it is that script. *)
Theorem storage_keys_are_separate key store :
  NoDup [LIBRARY_KEY; TemplateManager.TEMPLATES_KEY; App.TAB_KEY;
         App.REFERENCE_KEY]
  /\ (key <> LIBRARY_KEY ->
      (forall now_id now_created st,
         getItem key (handleSaveToLibrary now_id now_created st store).2
         = getItem key store)
      /\ (forall confirmed target view,
            getItem key (LibraryView.handleDelete confirmed target view store).2
            = getItem key store))
  /\ (key <> TemplateManager.TEMPLATES_KEY ->
      (forall now st,
         getItem key (TemplateManager.handleSave now st store).1.2
         = getItem key store)
      /\ (forall props confirmed target st,
            getItem key
              (TemplateManager.handleDelete props confirmed target st store).1.2
            = getItem key store))
  /\ (key <> App.TAB_KEY -> key <> App.REFERENCE_KEY ->
      forall a st, getItem key (App.step a (st, store)).2 = getItem key store)
  /\ (forall confirmed target view,
        getItem App.REFERENCE_KEY
          (LibraryView.handleDelete confirmed target view store).2
        = getItem App.REFERENCE_KEY store).
Proof.
  split.
  { repeat (apply NoDup_cons; split;
            [rewrite ?not_elem_of_cons; repeat split;
             try discriminate; apply not_elem_of_nil|]).
    apply NoDup_nil_2. }
  split.
  { intros Hkey. split.
    - intros now_id now_created st. unfold handleSaveToLibrary.
      destruct (result st) as [r|]; [|done].
      destruct (truthy (script r)); [|done].
      destruct (read_library store); [|done].
      by apply getItem_setItem_ne.
    - intros [] target view; [|done]. by apply getItem_setItem_ne. }
  split.
  { intros Hkey. split.
    - intros now st. unfold TemplateManager.handleSave.
      destruct (_ || _); [done|].
      destruct (TemplateManager.editing_id _); by apply getItem_setItem_ne.
    - intros props [] target st; [|done]. by apply getItem_setItem_ne. }
  split.
  { intros Htab Href a st. unfold App.step, App.run_changed_effects. simpl.
    assert (Hreference : forall st' store',
      getItem key (App.persist_reference st' store') = getItem key store').
    { intros st' store'. unfold App.persist_reference.
      destruct (App.selectedReference st').
      - by apply getItem_setItem_ne.
      - by apply getItem_removeItem_ne. }
    assert (Hpersist_tab : forall st' store',
      getItem key (App.persist_tab st' store') = getItem key store')
      by (intros; by apply getItem_setItem_ne).
    repeat case_decide; by rewrite ?Hreference, ?Hpersist_tab. }
  intros [] target view; [|done]. by apply getItem_setItem_ne.
Qed.

End StorageKeys.

(** ** Decoding one channel, and what cannot be decoded *)

Section DecodeMono.

Import GeminiService.

Context `{ctx : AudioContext}.

Lemma Int16Array_odd (data : list byte) :
  Nat.even (length data) = false -> Int16Array data = None.
Proof.
  induction data as [|x|lo hi rest IH] using list_pair_ind; intros Hodd.
  - discriminate.
  - reflexivity.
  - simpl in *. by rewrite IH.
Qed.

Lemma fill_channel_mono (samples : list Z) :
  fill_channel samples 1 0 (replicate (length samples) (Num 0))
  = (fun s => Num (Qred (inject_Z s / 32768))) <$> samples.
Proof.
  apply list_eq. intros i. rewrite list_lookup_fmap.
  destruct (decide (i < length samples)) as [Hi | Hi].
  - destruct (fill_channel_sample samples 1 0 i ltac:(lia)
                ltac:(by rewrite Nat.div_1_r)) as (s & Hs & Hfill).
    rewrite Nat.div_1_r in Hfill. rewrite Hfill.
    replace (i * 1 + 0) with i in Hs by lia. by rewrite Hs.
  - rewrite (lookup_ge_None_2 samples) by lia. simpl.
    apply lookup_ge_None_2. unfold fill_channel.
    rewrite length_store_range, length_replicate. lia.
Qed.

(** X24. With the default single channel the decoder returns one channel
    that holds every 16-bit sample of the stream, in order, each divided by
    32768: nothing is dropped or reordered. And it throws, whatever the
    sample rate, on a stream with an odd number of bytes, on a stream with
    fewer samples than channels (an empty stream among them), and for zero
    channels. *)
Theorem decodeAudioData_one_channel (data : list byte) (rate : Q)
    (numChannels : nat) :
  (forall samples,
     Int16Array data = Some samples ->
     samples <> [] ->
     createBuffer_supported 1 (length samples) rate = true ->
     decodeAudioData data rate 1
     = Some {| numberOfChannels := 1; buffer_length := length samples;
               sampleRate := rate;
               channelData :=
                 [(fun s => Num (Qred (inject_Z s / 32768))) <$> samples] |})
  /\ (Nat.even (length data) = false ->
      decodeAudioData data rate numChannels = None)
  /\ (length data / 2 < numChannels ->
      decodeAudioData data rate numChannels = None)
  /\ decodeAudioData data rate 0 = None.
Proof.
  split; [|split; [|split]].
  - intros samples Hview Hne Hsup.
    rewrite (decodeAudioData_view _ _ _ _ Hview). cbv zeta.
    rewrite Nat.div_1_r, Hsup.
    destruct samples as [|s0 samples']; [done|].
    cbn [length Nat.eqb orb negb imap replicate].
    f_equal. f_equal. f_equal. apply (fill_channel_mono (s0 :: samples')).
  - intros Hodd. unfold decodeAudioData. by rewrite Int16Array_odd.
  - intros Hfew. destruct (Int16Array data) as [samples|] eqn:Hview;
      [|unfold decodeAudioData; by rewrite Hview].
    rewrite (decodeAudioData_view _ _ _ _ Hview). cbv zeta.
    destruct (Int16Array_elements data samples Hview) as [Hlen _].
    assert (Hdiv : length data / 2 = length samples).
    { rewrite Hlen, Nat.mul_comm. by apply Nat.div_mul. }
    rewrite Hdiv in Hfew.
    rewrite (Nat.div_small _ _ Hfew). simpl. by rewrite orb_true_r.
  - destruct (Int16Array data) as [samples|] eqn:Hview;
      [|unfold decodeAudioData; by rewrite Hview].
    by rewrite (decodeAudioData_view _ _ _ _ Hview).
Qed.

End DecodeMono.

(** ** The template codec meets the assumptions *)

Module TemplateCodecLaws.

Import ReferenceCodec ReferenceCodecLaws TemplateCodec.

Lemma get_put_template (t : CustomTemplate) (rest : js_string) :
  get_template (put_template t ++ rest) = Some (t, rest).
Proof.
  unfold get_template, put_template. rewrite <- !app_assoc.
  repeat (rewrite get_put_string; cbn [mbind option_bind]).
  by destruct t.
Qed.

Lemma get_put_templates (l : list CustomTemplate) (rest : js_string) :
  get_templates (length l) (flat_map put_template l ++ rest) = Some (l, rest).
Proof.
  induction l as [|t l IH]; [reflexivity|].
  cbn [length flat_map get_templates].
  rewrite <- app_assoc, get_put_template. cbn [mbind option_bind].
  by rewrite IH.
Qed.

#[local] Instance templates_parser : JSONParser (list CustomTemplate) :=
  parse_templates.

#[local] Program Instance templates_codec : JSONCodec (list CustomTemplate) :=
  {| JSON_stringify := stringify_templates |}.
Next Obligation. reflexivity. Qed.
Next Obligation.
  intros l. unfold JSON_parse, templates_parser, parse_templates,
    stringify_templates.
  rewrite Nat2N.id, get_put_templates. reflexivity.
Qed.

(** Lowercasing the ASCII letters only is one function with the two facts
    asked of [String.prototype.toLowerCase]. *)
#[local] Program Instance ascii_case : LibrarySearch.UnicodeCase :=
  {| LibrarySearch.String_toLowerCase := toLowerCase |}.
Next Obligation. reflexivity. Qed.
Next Obligation. reflexivity. Qed.

End TemplateCodecLaws.

(** ** The further theorems at concrete inputs *)

Section MoreConcrete.

Import GeminiService OutreachForm LibraryView App ReferenceCodec
  ReferenceCodecLaws TemplateCodecLaws.

Existing Instances reference_parser reference_codec scripts_parser
  scripts_codec scripts_empty_array research_parser templates_parser
  templates_codec ascii_case.

Lemma parseSafeJSON_fenced_witness :
  strip_fences (lit "```JSON" ++ fenced_body ++ lit "```") = fenced_body
  /\ parseSafeJSON (A := ResearchJSON) (lit "```JSON" ++ fenced_body ++ lit "```")
     = parseSafeJSON fenced_body.
Proof.
  destruct (parseSafeJSON_fenced (A := ResearchJSON) 74 83 79 78 fenced_body
              eq_refl eq_refl eq_refl eq_refl
              ltac:(change (96%N ∉ [10; 123; 125; 10]%N);
                    rewrite !not_elem_of_cons;
                    repeat split; try discriminate; apply not_elem_of_nil))
    as (Hstrip & _ & Hparse).
  split; [exact Hstrip | exact Hparse].
Defined.

Lemma save_then_delete_restores_witness :
  read_library
    (handleDelete true (lit "1700000900000")
       {| scripts :=
            new_entry 1700000900000 1700000900001 (formData generated_form)
              {| script := lit "[0-5s] Hello Sam"; followUp := lit "Sent!" |}
            :: [anna_script; mike_script] |}
       (handleSaveToLibrary 1700000900000 1700000900001 generated_form
          two_script_store).2).2
  = Some [anna_script; mike_script].
Proof.
  destruct (save_then_delete_restores 1700000900000 1700000900001
              generated_form
              {| script := lit "[0-5s] Hello Sam"; followUp := lit "Sent!" |}
              two_script_store [anna_script; mike_script]
              LibraryView.initial_state eq_refl eq_refl eq_refl)
    as (_ & _ & _ & _ & _ & Hfresh).
  apply Hfresh. repeat constructor; discriminate.
Defined.

Lemma saved_entry_labels_current_form_witness :
  read_library
    (handleSaveToLibrary 1700000900000 1700000900001
       (handleGenerate_settled
          (Returned (Some {| script := lit "[0-5s] Hello Sam";
                             followUp := lit "Sent!" |}))
          (apply_updates [(F_ownerName, lit "Samuel")]
             (handleGenerate blank_props
                (updateField F_ownerName (lit "Sam") filled_form)).1))
       two_script_store).2
  = Some [ {| id := lit "1700000900000";
              title := lit "Samuel @ Peak Fitness";
              content := lit "[0-5s] Hello Sam";
              ss_ownerName := lit "Samuel";
              ss_businessName := lit "Peak Fitness";
              createdAt := 1700000900001 |};
           anna_script; mike_script ].
Proof.
  destruct (saved_entry_labels_current_form blank_props
              (updateField F_ownerName (lit "Sam") filled_form)
              [(F_ownerName, lit "Samuel")]
              {| script := lit "[0-5s] Hello Sam"; followUp := lit "Sent!" |}
              1700000900000 1700000900001 two_script_store
              [anna_script; mike_script]
              ltac:(discriminate)
              ltac:(intros g; destruct g; vm_compute; lia)
              eq_refl eq_refl)
    as (_ & _ & _ & _ & _ & _ & Hsaved).
  exact Hsaved.
Defined.

Lemma filteredScripts_narrows_witness :
  mike_script ∈ LibrarySearch.filteredScripts (lit "ak")
                  [anna_script; mike_script].
Proof.
  apply (filteredScripts_narrows (lit "ak") (lit "Peak F")
           [anna_script; mike_script]).
  - apply Forall_forall. intros c Hc.
    repeat (apply elem_of_cons in Hc as [-> | Hc]; [done|]).
    by apply elem_of_nil in Hc.
  - by exists (lit "Pe"), (lit " F").
  - change (mike_script ∈ [mike_script]). by left.
Defined.

Lemma reload_restores_state_witness :
  load (run_actions [UseAsReference mike_script; SwitchTab (lit "library")]
          fresh_page).2
  = Some (run_actions [UseAsReference mike_script; SwitchTab (lit "library")]
            fresh_page).
Proof.
  apply (reload_restores_state ∅ fresh_page.1 fresh_page.2
           [UseAsReference mike_script; SwitchTab (lit "library")]).
  - reflexivity.
  - repeat constructor.
Defined.

Lemma handleSave_edit_in_place_witness :
  TemplateManager.templates
    (TemplateManager.handleSave 1700000300000 editing_markup template_store).1.1
  !! 0
  = Some {| tpl_id := lit "1700000100000"; tpl_name := lit "Markup";
            tpl_content := lit "Hi [ownerName]" |}
  /\ activeTemplate
       (TemplateFlow.on_select
          (TemplateManager.handleSave 1700000300000 editing_markup
             template_store).2
          (TemplateFlow.setActiveTemplate (Some markup_template) filled_form))
     = Some markup_template.
Proof.
  destruct (handleSave_edit_in_place 1700000300000 editing_markup
              template_store (lit "1700000100000")
              (TemplateFlow.setActiveTemplate (Some markup_template) filled_form)
              eq_refl eq_refl eq_refl)
    as (_ & Hactive & _ & _ & Hlookup & _).
  split; [|exact Hactive].
  exact (Hlookup 0 markup_template eq_refl).
Defined.

Lemma template_save_then_delete_witness :
  TemplateManager.templates
    (TemplateManager.handleDelete
       {| TemplateManager.activeTemplateId := Some (lit "1700000300000") |}
       true (lit "1700000300000")
       (TemplateManager.handleSave 1700000300000 drafting_new template_store).1.1
       (TemplateManager.handleSave 1700000300000 drafting_new template_store).1.2).1.1
  = [markup_template; intro_template].
Proof.
  destruct (template_save_then_delete 1700000300000 drafting_new
              template_store filled_form eq_refl eq_refl eq_refl)
    as (_ & _ & _ & _ & _ & _ & Hfresh).
  apply Hfresh. repeat constructor; discriminate.
Defined.

Lemma markup_deleted_reachable :
  TemplateFlow.reachable template_store
    (TemplateFlow.after (TemplateFlow.parent markup_selected)
       (TemplateManager.handleDelete
          (TemplateFlow.props_of (TemplateFlow.parent markup_selected)) true
          (tpl_id markup_template) two_templates_shown template_store)).
Proof.
  assert (Hmount :
    TemplateManager.mount template_store TemplateManager.initial_state
    = Some two_templates_shown) by reflexivity.
  pose proof (TemplateFlow.reachable_mounted _ _
                (TemplateFlow.mounted_intro template_store filled_form _ Hmount))
    as H0.
  pose proof (TemplateFlow.reachable_step _ _ _ _ H0
                (TemplateFlow.step_select templates_mounted 0 markup_template
                   eq_refl)) as H1.
  exact (TemplateFlow.reachable_step _ _ _ _ H1
           (TemplateFlow.step_delete markup_selected true 0 markup_template
              eq_refl)).
Defined.

Lemma template_flow_invariant_witness :
  read_templates
    (TemplateFlow.storage
       (TemplateFlow.after (TemplateFlow.parent markup_selected)
          (TemplateManager.handleDelete
             (TemplateFlow.props_of (TemplateFlow.parent markup_selected)) true
             (tpl_id markup_template) two_templates_shown template_store)))
  = Some [intro_template].
Proof.
  destruct (template_flow_invariant template_store _ markup_deleted_reachable)
    as [Hsync _].
  exact Hsync.
Defined.

End MoreConcrete.
